(** * Agent discovery, merge and caching registry

    A shallow embedding of [src/agents/custom-agent-loader.js] (and of its
    TypeScript twin, which has the same bodies): the [CustomAgentLoader]
    class, the [UnifiedAgentRegistry] class and the built-in catalogue; and
    of [getFlag] of the [agent] command.

    Conventions of the embedding.
    - A JavaScript string is a [string]; its characters are read as the code
      points 0..255.
    - A value coming out of the YAML parser is a [JsValue].  Numbers are the
      integer-valued ones.
    - The file system, the YAML parser and the host's collation are the fields
      of a [World]; the clock reading of an operation is its [now] argument
      (the readings of [Date.now()] within one call are one instant).
    - Mutable object state is threaded through the state-and-exception monad
      [M]; an exception leaves the mutations made before it in place.  The
      exceptions are those of [readFileSync], of [readdirSync], of the YAML
      parser, and of a string method called on a value that is not a
      string. *)

From Stdlib Require Import String Ascii List ZArith Bool Lia Permutation Sorted.
Import ListNotations.
Open Scope string_scope.
Open Scope Z_scope.

(* ===================================================================== *)
(** ** Strings *)
(* ===================================================================== *)

Module Str.

(** [stripPrefix pre s] is the rest of [s] after the prefix [pre]. *)
Fixpoint stripPrefix (pre s : string) : option string :=
  match pre with
  | EmptyString => Some s
  | String a pre' =>
      match s with
      | EmptyString => None
      | String b s' => if Ascii.eqb a b then stripPrefix pre' s' else None
      end
  end.

(** [String.prototype.includes]. *)
Fixpoint includes (s sub : string) : bool :=
  match stripPrefix sub s with
  | Some _ => true
  | None =>
      match s with
      | EmptyString => false
      | String _ s' => includes s' sub
      end
  end.

(** [s.replace(pat, '')] for a string pattern: the first occurrence of
    [pat] is removed. *)
Fixpoint removeFirst (s pat : string) : string :=
  match stripPrefix pat s with
  | Some rest => rest
  | None =>
      match s with
      | EmptyString => EmptyString
      | String c s' => String c (removeFirst s' pat)
      end
  end.

Definition isSlash (c : ascii) : bool := Ascii.eqb c "/".

(** The character class [[\/\\]]. *)
Definition isSep (c : ascii) : bool :=
  Ascii.eqb c "/" || Ascii.eqb c "\".

(** [s.replace(/^[\/\\]/, '')]. *)
Definition stripLeadingSep (s : string) : string :=
  match s with
  | String c s' => if isSep c then s' else s
  | EmptyString => s
  end.

(** [s.split(/[\/\\]/)]; the result is never empty. *)
Fixpoint splitSep (s : string) : list string :=
  match s with
  | EmptyString => [EmptyString]
  | String c s' =>
      if isSep c then EmptyString :: splitSep s'
      else
        match splitSep s' with
        | h :: t => String c h :: t
        | [] => [String c EmptyString]
        end
  end.

(** Split on ["/"] only (path segments). *)
Fixpoint splitSlash (s : string) : list string :=
  match s with
  | EmptyString => [EmptyString]
  | String c s' =>
      if isSlash c then EmptyString :: splitSlash s'
      else
        match splitSlash s' with
        | h :: t => String c h :: t
        | [] => [String c EmptyString]
        end
  end.

(** Lower-casing of one code point below 256: A-Z and the Latin-1
    capitals U+00C0..U+00DE except the multiplication sign. *)
Definition lowerChar (c : ascii) : ascii :=
  let n := nat_of_ascii c in
  if ((65 <=? n) && (n <=? 90))%nat then ascii_of_nat (n + 32)
  else if ((192 <=? n) && (n <=? 222) && negb (n =? 215))%nat
       then ascii_of_nat (n + 32)
       else c.

(** [String.prototype.toLowerCase]. *)
Fixpoint toLowerCase (s : string) : string :=
  match s with
  | EmptyString => EmptyString
  | String c s' => String (lowerChar c) (toLowerCase s')
  end.

(** White space and line terminators below 256 (the class [\s]). *)
Definition isSpace (c : ascii) : bool :=
  let n := nat_of_ascii c in
  (((9 <=? n) && (n <=? 13)) || (n =? 32) || (n =? 160))%nat.

Definition isEmpty (s : string) : bool :=
  match s with EmptyString => true | _ => false end.

Fixpoint trimStart (s : string) : string :=
  match s with
  | String c s' => if isSpace c then trimStart s' else s
  | EmptyString => EmptyString
  end.

Fixpoint trimEnd (s : string) : string :=
  match s with
  | EmptyString => EmptyString
  | String c s' =>
      let r := trimEnd s' in
      if isSpace c && isEmpty r then EmptyString else String c r
  end.

(** [String.prototype.trim]. *)
Definition trim (s : string) : string := trimEnd (trimStart s).

(** [s.replace(/\s+/g, '-')]: every maximal run of white space becomes one
    hyphen.  [inRun] tells that the previous character was white space. *)
Fixpoint hyphenateFrom (inRun : bool) (s : string) : string :=
  match s with
  | EmptyString => EmptyString
  | String c s' =>
      if isSpace c
      then if inRun then hyphenateFrom true s'
           else String "-" (hyphenateFrom true s')
      else String c (hyphenateFrom false s')
  end.

Definition hyphenate (s : string) : string := hyphenateFrom false s.

Fixpoint endsWithSlash (s : string) : bool :=
  match s with
  | EmptyString => false
  | String c EmptyString => isSlash c
  | String _ s' => endsWithSlash s'
  end.

(** [stripSuffix suf s] is the part of [s] before the suffix [suf]. *)
Fixpoint stripSuffix (suf s : string) : option string :=
  if String.eqb s suf then Some EmptyString
  else
    match s with
    | EmptyString => None
    | String c s' => option_map (String c) (stripSuffix suf s')
    end.

(** A string holding one double quote. *)
Definition DQ : string := String (ascii_of_nat 34) EmptyString.

Definition LF : ascii := ascii_of_nat 10.
Definition CR : ascii := ascii_of_nat 13.

(** Every character of [s] satisfies [p]. *)
Fixpoint allChars (p : ascii -> bool) (s : string) : bool :=
  match s with
  | EmptyString => true
  | String c s' => p c && allChars p s'
  end.

(** [s] has no slash, no separator, no backslash. *)
Definition noSlash (s : string) : bool := allChars (fun c => negb (isSlash c)) s.

End Str.

(* ===================================================================== *)
(** ** Paths: the functions of [node:path] the loader calls (POSIX) *)
(* ===================================================================== *)

Module Path.
Import Str.

(** Some character of [s] is not a slash. *)
Fixpoint hasName (s : string) : bool :=
  match s with
  | EmptyString => false
  | String c s' => negb (isSlash c) || hasName s'
  end.

(** The part of [s] before its last slash that is followed by a name;
    [None] when [s] has no such slash. *)
Fixpoint dirPrefix (s : string) : option string :=
  match s with
  | EmptyString => None
  | String c s' =>
      match dirPrefix s' with
      | Some d => Some (String c d)
      | None => if isSlash c && hasName s' then Some EmptyString else None
      end
  end.

(** [path.dirname]: the scan runs over the characters after the first
    one, skips trailing slashes and stops at the last slash before the
    final name. *)
Definition dirname (path : string) : string :=
  match path with
  | EmptyString => "."
  | String c0 rest =>
      match dirPrefix rest with
      | None => if isSlash c0 then "/" else "."
      | Some d => if isSlash c0 && isEmpty d then "//" else String c0 d
      end
  end.

Fixpoint stripTrailingSlashes (s : string) : string :=
  match s with
  | EmptyString => EmptyString
  | String c s' =>
      let r := stripTrailingSlashes s' in
      if isSlash c && isEmpty r then EmptyString else String c r
  end.

(** [path.basename(p)]: the last segment, trailing slashes ignored. *)
Definition basename (p : string) : string :=
  last (splitSlash (stripTrailingSlashes p)) EmptyString.

(** [path.basename(p, ext)] for a path that does not end in a slash (the
    loader calls it on paths it has just read as a file): the extension is
    dropped from the last segment unless it is the whole segment; a path
    equal to the extension gives the empty string. *)
Definition basenameExt (p ext : string) : string :=
  if isEmpty ext || (String.length p <? String.length ext)%nat then basename p
  else if String.eqb p ext then EmptyString
  else
    let seg := basename p in
    match stripSuffix ext seg with
    | Some stem => if isEmpty stem then seg else stem
    | None => seg
    end.

(** The suffix of [s] that starts at its last dot. *)
Fixpoint lastDotSuffix (s : string) : option string :=
  match s with
  | EmptyString => None
  | String c s' =>
      match lastDotSuffix s' with
      | Some e => Some e
      | None => if Ascii.eqb c "." then Some s else None
      end
  end.

(** [path.extname] of a directory entry name (no slash in it): from the
    last dot on; empty when there is no dot, when the only dot is the first
    character, and for the name [..]. *)
Definition extname (name : string) : string :=
  match name with
  | String c rest =>
      if Ascii.eqb c "."
      then match lastDotSuffix rest with
           | None => EmptyString
           | Some e => if String.eqb name ".." then EmptyString else e
           end
      else match lastDotSuffix rest with
           | None => EmptyString
           | Some e => e
           end
  | EmptyString => EmptyString
  end.

(** [path.join(dir, name)] for a normalised directory path and a plain
    entry name. *)
Definition join (dir name : string) : string :=
  if String.eqb dir "/" then "/" ++ name else dir ++ "/" ++ name.

(** [path.resolve(dir, a, b)] for an absolute normalised [dir] and plain
    names [a], [b]. *)
Definition resolve (dir a b : string) : string :=
  join (join dir a) b.

End Path.

(* ===================================================================== *)
(** ** JavaScript values *)
(* ===================================================================== *)

Set Warnings "-register-all".

(** What the YAML parser can hand back, and what the loader stores
    unchecked in a definition. *)
Inductive JsValue : Type :=
| JUndefined
| JNull
| JBool (b : bool)
| JNum (n : Z)
| JStr (s : string)
| JArr (items : list JsValue)
| JObj (props : list (string * JsValue)).

Module Js.

(** ToBoolean. *)
Definition truthy (v : JsValue) : bool :=
  match v with
  | JUndefined | JNull => false
  | JBool b => b
  | JNum n => negb (n =? 0)
  | JStr s => negb (Str.isEmpty s)
  | JArr _ | JObj _ => true
  end.

(** [a || b]. *)
Definition or (a b : JsValue) : JsValue := if truthy a then a else b.

Fixpoint lookupProp (k : string) (props : list (string * JsValue)) : JsValue :=
  match props with
  | [] => JUndefined
  | (k', v) :: rest => if String.eqb k' k then v else lookupProp k rest
  end.

(** [v.k] for the header keys the loader reads (none of them is a property
    of a string, number, boolean or array); the loader applies it to truthy
    values only. *)
Definition prop (v : JsValue) (k : string) : JsValue :=
  match v with
  | JObj props => lookupProp k props
  | _ => JUndefined
  end.

(** [v?.k]. *)
Definition optProp (v : JsValue) (k : string) : JsValue :=
  match v with
  | JUndefined | JNull => JUndefined
  | _ => prop v k
  end.

(** [Array.isArray(v) ? v : [v]]. *)
Definition asArray (v : JsValue) : list JsValue :=
  match v with
  | JArr items => items
  | _ => [v]
  end.

Definition isString (v : JsValue) : bool :=
  match v with JStr _ => true | _ => false end.

(** SameValueZero, the key comparison of [Map] and [Set].  Arrays and
    objects compare by reference; every array or object that reaches a key
    position is a separate allocation of the parser, so the comparison is
    [false] for them. *)
Definition sameValueZero (a b : JsValue) : bool :=
  match a, b with
  | JUndefined, JUndefined => true
  | JNull, JNull => true
  | JBool x, JBool y => Bool.eqb x y
  | JNum x, JNum y => x =? y
  | JStr x, JStr y => String.eqb x y
  | _, _ => false
  end.

End Js.

(* ===================================================================== *)
(** ** [Map]: keys in insertion order *)
(* ===================================================================== *)

Module JsMap.

Definition t (V : Type) : Type := list (JsValue * V).

Definition empty {V : Type} : t V := [].

Fixpoint get {V : Type} (k : JsValue) (m : t V) : option V :=
  match m with
  | [] => None
  | (k', v) :: m' => if Js.sameValueZero k' k then Some v else get k m'
  end.

Definition has {V : Type} (k : JsValue) (m : t V) : bool :=
  match get k m with Some _ => true | None => false end.

(** [set] on a present key keeps the key's position and replaces the
    value; on an absent key it appends. *)
Fixpoint set {V : Type} (k : JsValue) (v : V) (m : t V) : t V :=
  match m with
  | [] => [(k, v)]
  | (k', v') :: m' =>
      if Js.sameValueZero k' k then (k', v) :: m' else (k', v') :: set k v m'
  end.

Definition size {V : Type} (m : t V) : nat := length m.

Definition keys {V : Type} (m : t V) : list JsValue := map fst m.

Definition values {V : Type} (m : t V) : list V := map snd m.

End JsMap.

(* ===================================================================== *)
(** ** Exceptions and the state monad *)
(* ===================================================================== *)

(** A thrown [Error]; only its message is ever inspected. *)
Record Exn : Type := Error { message : string }.

Inductive Result (A : Type) : Type :=
| Ok (a : A)
| Throw (e : Exn).
Arguments Ok {A} a.
Arguments Throw {A} e.

Definition rbind {A B : Type} (r : Result A) (k : A -> Result B) : Result B :=
  match r with
  | Ok a => k a
  | Throw e => Throw e
  end.

(** A method of an object with state [S]: the state after the call is
    returned with the outcome, also when the outcome is an exception. *)
Definition M (S A : Type) : Type := S -> Result A * S.

Definition ret {S A : Type} (a : A) : M S A := fun s => (Ok a, s).

Definition bind {S A B : Type} (m : M S A) (k : A -> M S B) : M S B :=
  fun s =>
    match m s with
    | (Ok a, s') => k a s'
    | (Throw e, s') => (Throw e, s')
    end.

Definition throw {S A : Type} (e : Exn) : M S A := fun s => (Throw e, s).

Definition lift {S A : Type} (r : Result A) : M S A := fun s => (r, s).

Definition gets {S A : Type} (f : S -> A) : M S A := fun s => (Ok (f s), s).

Definition modify {S : Type} (f : S -> S) : M S unit := fun s => (Ok tt, f s).

(** [try { body } catch (error) { handler }]. *)
Definition tryCatch {S A : Type} (body : M S A) (handler : Exn -> M S A) : M S A :=
  fun s =>
    match body s with
    | (Ok a, s') => (Ok a, s')
    | (Throw e, s') => handler e s'
    end.

Declare Scope monad_scope.
Delimit Scope monad_scope with monad.
Notation "x <- m ;; k" := (bind m (fun x => k))
  (at level 61, m at next level, right associativity) : monad_scope.
Notation "m ;; k" := (bind m (fun _ => k))
  (at level 61, right associativity) : monad_scope.
Notation "x <-r m ;; k" := (rbind m (fun x => k))
  (at level 61, m at next level, right associativity) : monad_scope.
Open Scope monad_scope.

(** [for (const x of xs) { body(x) }]. *)
Fixpoint forEach {S A : Type} (xs : list A) (body : A -> M S unit) : M S unit :=
  match xs with
  | [] => ret tt
  | x :: xs' => body x ;; forEach xs' body
  end.

(** A loop that grows a local value: [let acc = ...; for (const x of xs)
    { acc = body(acc, x) }]. *)
Fixpoint foldM {S A B : Type} (body : B -> A -> M S B) (xs : list A) (acc : B)
  : M S B :=
  match xs with
  | [] => ret acc
  | x :: xs' => acc' <- body acc x ;; foldM body xs' acc'
  end.

(** [xs.filter(p)] for a predicate that may throw. *)
Fixpoint filterR {A : Type} (p : A -> Result bool) (xs : list A) : Result (list A) :=
  match xs with
  | [] => Ok []
  | x :: xs' =>
      b <-r p x ;;
      rest <-r filterR p xs' ;;
      Ok (if b then x :: rest else rest)
  end.

(** [xs.some(p)]: stops at the first element that satisfies [p]. *)
Fixpoint someR {A : Type} (p : A -> Result bool) (xs : list A) : Result bool :=
  match xs with
  | [] => Ok false
  | x :: xs' =>
      b <-r p x ;;
      if b then Ok true else someR p xs'
  end.

(** [Array.prototype.sort(cmp)], which is stable.  Which pairs an engine
    compares is its own business; this is the stable insertion sort, which
    returns what every stable sort returns when no comparison throws and the
    comparator is a consistent ordering. *)
Fixpoint insertBy {A : Type} (cmp : A -> A -> Result Z) (x : A) (l : list A)
  : Result (list A) :=
  match l with
  | [] => Ok [x]
  | y :: l' =>
      c <-r cmp x y ;;
      if c <=? 0 then Ok (x :: y :: l')
      else (r <-r insertBy cmp x l' ;; Ok (y :: r))
  end.

Fixpoint sortBy {A : Type} (cmp : A -> A -> Result Z) (l : list A) : Result (list A) :=
  match l with
  | [] => Ok []
  | x :: l' => s <-r sortBy cmp l' ;; insertBy cmp x s
  end.

(* ===================================================================== *)
(** ** The world outside the process *)
(* ===================================================================== *)

Inductive FileData : Type :=
| Readable (text : string)
| Unreadable (reason : string).

(** A directory tree; entries are in the order [readdirSync] lists them.
    [NOther] is an entry that is neither a file nor a directory. *)
Inductive Node : Type :=
| NFile (data : FileData)
| NDir (entries : list (string * Node))
| NOther.

(** The outcome of [yaml.parse]: a value, or a thrown parse error. *)
Inductive YamlResult : Type :=
| YamlValue (v : JsValue)
| YamlError (reason : string).

(** [cwd] is [process.cwd()], absolute and normalised.  [parseYaml] is the
    [parse] function of the [yaml] package.  [localeCompare s v] is
    [s.localeCompare(v)], argument conversion included. *)
Record World : Type := {
  cwd : string;
  root : Node;
  parseYaml : string -> YamlResult;
  localeCompare : string -> JsValue -> Z
}.

Module Fs.
Import Str.

(** Lexical normalisation on a stack of segments, innermost first. *)
Definition pushSegment (stack : list string) (seg : string) : list string :=
  if isEmpty seg || String.eqb seg "." then stack
  else if String.eqb seg ".." then tl stack
  else seg :: stack.

Definition segmentsOf (w : World) (p : string) : list string :=
  let base :=
    match p with
    | String c _ => if isSlash c then [] else fold_left pushSegment (splitSlash (cwd w)) []
    | EmptyString => fold_left pushSegment (splitSlash (cwd w)) []
    end in
  rev (fold_left pushSegment (splitSlash p) base).

Fixpoint entryNamed (name : string) (entries : list (string * Node)) : option Node :=
  match entries with
  | [] => None
  | (n, child) :: rest => if String.eqb n name then Some child else entryNamed name rest
  end.

Fixpoint lookupIn (n : Node) (segs : list string) : option Node :=
  match segs with
  | [] => Some n
  | seg :: rest =>
      match n with
      | NDir entries =>
          match entryNamed seg entries with
          | Some child => lookupIn child rest
          | None => None
          end
      | _ => None
      end
  end.

Definition lookup (w : World) (p : string) : option Node :=
  if isEmpty p then None else lookupIn (root w) (segmentsOf w p).

(** [existsSync]. *)
Definition existsSync (w : World) (p : string) : bool :=
  match lookup w p with
  | Some (NDir _) => true
  | Some _ => negb (endsWithSlash p)
  | None => false
  end.

(** [readFileSync(p, 'utf-8')]. *)
Definition readFileSync (w : World) (p : string) : Result string :=
  match lookup w p with
  | Some (NFile (Readable text)) =>
      if endsWithSlash p
      then Throw (Error ("ENOTDIR: not a directory, open '" ++ p ++ "'"))
      else Ok text
  | Some (NFile (Unreadable reason)) => Throw (Error reason)
  | Some (NDir _) => Throw (Error "EISDIR: illegal operation on a directory, read")
  | Some NOther => Throw (Error ("ENXIO: no such device or address, open '" ++ p ++ "'"))
  | None => Throw (Error ("ENOENT: no such file or directory, open '" ++ p ++ "'"))
  end.

(** [readdirSync(p, { withFileTypes: true })]. *)
Definition readdirSync (w : World) (p : string) : Result (list (string * Node)) :=
  match lookup w p with
  | Some (NDir entries) => Ok entries
  | Some _ => Throw (Error ("ENOTDIR: not a directory, scandir '" ++ p ++ "'"))
  | None => Throw (Error ("ENOENT: no such file or directory, scandir '" ++ p ++ "'"))
  end.

End Fs.

(* ===================================================================== *)
(** ** Agent definitions *)
(* ===================================================================== *)

(** The object [parseAgentFile] returns.  The header values are stored as
    the parser produced them. *)
Record AgentDefinition : Type := {
  name : JsValue;
  type : JsValue;
  color : JsValue;
  description : JsValue;
  capabilities : list JsValue;
  priority : JsValue;
  hooks : JsValue;
  systemPrompt : string;
  sourcePath : string;
  category : string;
  isCustom : bool
}.

(** The result object of [validateAgentFile]. *)
Record AgentValidationResult : Type := {
  valid : bool;
  filePath : string;
  errors : list string;
  warnings : list string;
  agent : option AgentDefinition
}.

(* ===================================================================== *)
(** ** [class CustomAgentLoader] *)
(* ===================================================================== *)

Module CustomAgentLoader.
Import Str.

(** The fields of the object.  [scans] is not a field of the class: it
    counts the discovery passes started, for the statements that count
    them. *)
Record Loader : Type := {
  agentCache : JsMap.t AgentDefinition;
  lastLoadTime : Z;
  searchPaths : list string;
  loadErrors : list string;
  scans : nat
}.

(** [this.cacheExpiry], set once in the constructor. *)
Definition cacheExpiry : Z := 60000.

Definition withCache (f : JsMap.t AgentDefinition -> JsMap.t AgentDefinition)
  (st : Loader) : Loader :=
  {| agentCache := f (agentCache st); lastLoadTime := lastLoadTime st;
     searchPaths := searchPaths st; loadErrors := loadErrors st;
     scans := scans st |}.

Definition withLastLoadTime (t : Z) (st : Loader) : Loader :=
  {| agentCache := agentCache st; lastLoadTime := t;
     searchPaths := searchPaths st; loadErrors := loadErrors st;
     scans := scans st |}.

Definition withSearchPaths (ps : list string) (st : Loader) : Loader :=
  {| agentCache := agentCache st; lastLoadTime := lastLoadTime st;
     searchPaths := ps; loadErrors := loadErrors st;
     scans := scans st |}.

Definition withLoadErrors (f : list string -> list string) (st : Loader) : Loader :=
  {| agentCache := agentCache st; lastLoadTime := lastLoadTime st;
     searchPaths := searchPaths st; loadErrors := f (loadErrors st);
     scans := scans st |}.

Definition countScan (st : Loader) : Loader :=
  {| agentCache := agentCache st; lastLoadTime := lastLoadTime st;
     searchPaths := searchPaths st; loadErrors := loadErrors st;
     scans := S (scans st) |}.

(** One level of the upward walk: the two candidate roots that exist. *)
Definition rootsAt (w : World) (dir : string) : list string :=
  let claudeFlowAgentsPath := Path.resolve dir ".claude-flow" "agents" in
  let claudeAgentsPath := Path.resolve dir ".claude" "agents" in
  ((if Fs.existsSync w claudeFlowAgentsPath then [claudeFlowAgentsPath] else [])
   ++ (if Fs.existsSync w claudeAgentsPath then [claudeAgentsPath] else []))%list.

(** The [while] loop of [getSearchPaths]; [fuel] bounds the number of
    turns (each turn passes to a parent directory). *)
Fixpoint walkUp (w : World) (fuel : nat) (currentDir : string) : list string :=
  match fuel with
  | O => []
  | S fuel' =>
      if String.eqb currentDir "/" || String.eqb currentDir (Path.dirname currentDir)
      then []
      else
        let paths := rootsAt w currentDir in
        if (0 <? length paths)%nat then paths
        else walkUp w fuel' (Path.dirname currentDir)
  end.

Definition getSearchPaths (w : World) : list string :=
  let paths := walkUp w (S (S (String.length (cwd w)))) (cwd w) in
  if (length paths =? 0)%nat then rootsAt w (cwd w) else paths.

(** The filter on a file entry of [findMarkdownFiles]. *)
Definition eligible (entryName : string) : bool :=
  String.eqb (toLowerCase (Path.extname entryName)) ".md"
  && (let lowerName := toLowerCase entryName in
      negb (String.eqb lowerName "readme.md") && negb (includes lowerName "migration")).

(** [findMarkdownFiles] below an existing directory.  The source looks each
    sub-directory up again by its path; in a tree whose entries have
    distinct plain names that lookup returns the entry itself, so the
    recursion here goes through the entry. *)
Fixpoint findMarkdownFilesIn (dir : string) (n : Node) : list string :=
  match n with
  | NDir entries =>
      flat_map
        (fun entry =>
           let fullPath := Path.join dir (fst entry) in
           match snd entry with
           | NDir _ => findMarkdownFilesIn fullPath (snd entry)
           | NFile _ => if eligible (fst entry) then [fullPath] else []
           | NOther => []
           end)
        entries
  | _ => []
  end.

Definition findMarkdownFiles (w : World) (dir : string) : Result (list string) :=
  if negb (Fs.existsSync w dir) then Ok []
  else
    entries <-r Fs.readdirSync w dir ;;
    Ok (findMarkdownFilesIn dir (NDir entries)).

(** [\r?\n] at the head of [s]; what follows it. *)
Definition eol (s : string) : option string :=
  match s with
  | String c s' =>
      if Ascii.eqb c CR
      then match s' with
           | String c' s'' => if Ascii.eqb c' LF then Some s'' else None
           | EmptyString => None
           end
      else if Ascii.eqb c LF then Some s' else None
  | EmptyString => None
  end.

(** The two texts [\r?\n] matches. *)
Definition lineBreak (e : string) : Prop :=
  e = String LF EmptyString \/ e = String CR (String LF EmptyString).

(** [\r?\n---\r?\n] at the head of [s]; what follows it. *)
Definition closingDelimiter (s : string) : option string :=
  match eol s with
  | Some r =>
      match stripPrefix "---" r with
      | Some r' => eol r'
      | None => None
      end
  | None => None
  end.

(** The lazy group of the pattern and what comes after it: the shortest
    header text that is followed by a closing delimiter, and everything
    after that delimiter. *)
Fixpoint headerAndBody (s : string) : option (string * string) :=
  match closingDelimiter s with
  | Some body => Some (EmptyString, body)
  | None =>
      match s with
      | EmptyString => None
      | String c s' =>
          match headerAndBody s' with
          | Some (h, b) => Some (String c h, b)
          | None => None
          end
      end
  end.

(** [content.match(...)] in [parseFrontmatter]: three hyphens at the very
    start, a line break, the header (lazy, any characters), a line break,
    three hyphens, a line break, and the body up to the end.  A line break
    is a line feed with an optional carriage return before it. *)
Definition matchFrontmatter (content : string) : option (string * string) :=
  match stripPrefix "---" content with
  | Some r =>
      match eol r with
      | Some r' => headerAndBody r'
      | None => None
      end
  | None => None
  end.

(** [parseFrontmatter]; [frontmatter: null] is [JNull]. *)
Definition parseFrontmatter (w : World) (content : string) : JsValue * string :=
  match matchFrontmatter content with
  | None => (JNull, content)
  | Some (yamlContent, markdownBody) =>
      match parseYaml w yamlContent with
      | YamlValue frontmatter => (frontmatter, trim markdownBody)
      | YamlError _ => (JNull, content)
      end
  end.

Definition extractCategory (filePath baseDir : string) : string :=
  let relativePath := stripLeadingSep (removeFirst filePath baseDir) in
  let parts := splitSep relativePath in
  if (1 <? length parts)%nat then hd EmptyString parts else "custom".

Definition pushLoadError (msg : string) : M Loader unit :=
  modify (withLoadErrors (fun errs => (errs ++ [msg])%list)).

Definition parseAgentFile (w : World) (filePath baseDir : string)
  : M Loader (option AgentDefinition) :=
  tryCatch
    (content <- lift (Fs.readFileSync w filePath) ;;
     let (frontmatter, body) := parseFrontmatter w content in
     if negb (Js.truthy frontmatter) then
       pushLoadError ("No frontmatter found in " ++ filePath) ;;
       ret None
     else
       let description :=
         Js.or (Js.prop frontmatter "description")
           (Js.or (Js.optProp (Js.prop frontmatter "metadata") "description")
              (JStr ("Agent defined in " ++ Path.basename filePath))) in
       let capabilities :=
         Js.or (Js.prop frontmatter "capabilities")
           (Js.or (Js.optProp (Js.prop frontmatter "metadata") "capabilities")
              (JArr [])) in
       let name :=
         Js.or (Js.prop frontmatter "name")
           (JStr (hyphenate (toLowerCase (Path.basenameExt filePath ".md")))) in
       if negb (Js.truthy name) then
         pushLoadError ("Missing name field in " ++ filePath) ;;
         ret None
       else
         let isCustom := includes baseDir ".claude-flow" in
         ret (Some {|
           name := name;
           type := Js.prop frontmatter "type";
           color := Js.prop frontmatter "color";
           description := description;
           capabilities := Js.asArray capabilities;
           priority := Js.or (Js.prop frontmatter "priority") (JStr "medium");
           hooks := Js.prop frontmatter "hooks";
           systemPrompt := body;
           sourcePath := filePath;
           category := extractCategory filePath baseDir;
           isCustom := isCustom
         |}))
    (fun error =>
       pushLoadError ("Error parsing " ++ filePath ++ ": " ++ message error) ;;
       ret None).

(** The body of the inner loop of [loadAgents]: a definition goes into the
    cache when its name is free or when it is custom. *)
Definition cacheAgent (agent : AgentDefinition) : M Loader unit :=
  existing <- gets (fun st => JsMap.get (name agent) (agentCache st)) ;;
  match existing with
  | Some _ =>
      if isCustom agent
      then modify (withCache (JsMap.set (name agent) agent))
      else ret tt
  | None => modify (withCache (JsMap.set (name agent) agent))
  end.

Definition loadAgents (w : World) (now : Z) : M Loader unit :=
  modify countScan ;;
  modify (withCache (fun _ => JsMap.empty)) ;;
  modify (withLoadErrors (fun _ => [])) ;;
  modify (withSearchPaths (getSearchPaths w)) ;;
  processedPaths <- gets (fun st => rev (searchPaths st)) ;;
  forEach processedPaths
    (fun searchPath =>
       files <- lift (findMarkdownFiles w searchPath) ;;
       forEach files
         (fun filePath =>
            agent <- parseAgentFile w filePath searchPath ;;
            match agent with
            | Some a => cacheAgent a
            | None => ret tt
            end)) ;;
  modify (withLastLoadTime now).

Definition needsRefresh (now : Z) (st : Loader) : bool :=
  cacheExpiry <? now - lastLoadTime st.

Definition ensureLoaded (w : World) (now : Z) : M Loader unit :=
  stale <- gets (fun st => (JsMap.size (agentCache st) =? 0)%nat || needsRefresh now st) ;;
  if stale then loadAgents w now else ret tt.

Definition getAgent (w : World) (now : Z) (n : string)
  : M Loader (option AgentDefinition) :=
  ensureLoaded w now ;;
  gets (fun st => JsMap.get (JStr n) (agentCache st)).

(** [a.localeCompare(b)] for two header values: the receiver has the method
    only when it is a string. *)
Definition compareNames (w : World) (a b : JsValue) : Result Z :=
  match a with
  | JStr s => Ok (localeCompare w s b)
  | JUndefined | JNull =>
      Throw (Error "Cannot read properties of undefined (reading 'localeCompare')")
  | _ => Throw (Error "a.name.localeCompare is not a function")
  end.

Definition getAllAgents (w : World) (now : Z) : M Loader (list AgentDefinition) :=
  ensureLoaded w now ;;
  vals <- gets (fun st => JsMap.values (agentCache st)) ;;
  lift (sortBy (fun a b => compareNames w (name a) (name b)) vals).

Definition hasAgent (w : World) (now : Z) (n : string) : M Loader bool :=
  ensureLoaded w now ;;
  gets (fun st => JsMap.has (JStr n) (agentCache st)).

(** [v.toLowerCase()] on a header value. *)
Definition lowerOf (v : JsValue) : Result string :=
  match v with
  | JStr s => Ok (toLowerCase s)
  | JUndefined | JNull =>
      Throw (Error "Cannot read properties of undefined (reading 'toLowerCase')")
  | _ => Throw (Error "toLowerCase is not a function")
  end.

(** The predicate given to [filter] in [searchAgents]; [||] evaluates its
    right operand only when the left one is false. *)
Definition matchesQuery (lowerQuery : string) (a : AgentDefinition) : Result bool :=
  n <-r lowerOf (name a) ;;
  if includes n lowerQuery then Ok true
  else
    d <-r lowerOf (description a) ;;
    if includes d lowerQuery then Ok true
    else
      c <-r someR (fun cap => l <-r lowerOf cap ;; Ok (includes l lowerQuery))
             (capabilities a) ;;
      if c then Ok true
      else
        match type a with
        | JUndefined | JNull => Ok false
        | t => l <-r lowerOf t ;; Ok (includes l lowerQuery)
        end.

Definition searchAgents (w : World) (now : Z) (query : string)
  : M Loader (list AgentDefinition) :=
  agents <- getAllAgents w now ;;
  let lowerQuery := toLowerCase query in
  lift (filterR (matchesQuery lowerQuery) agents).

Definition failWith (msg : string) (r : AgentValidationResult) : AgentValidationResult :=
  {| valid := false; filePath := filePath r; errors := (errors r ++ [msg])%list;
     warnings := warnings r; agent := agent r |}.

Definition warn (msg : string) (r : AgentValidationResult) : AgentValidationResult :=
  {| valid := valid r; filePath := filePath r; errors := errors r;
     warnings := (warnings r ++ [msg])%list; agent := agent r |}.

Definition withAgent (a : AgentDefinition) (r : AgentValidationResult)
  : AgentValidationResult :=
  {| valid := valid r; filePath := filePath r; errors := errors r;
     warnings := warnings r; agent := Some a |}.

(** The checks of [validateAgentFile] between reading the header and
    building the definition; each [if] of the source is one step. *)
Definition checkHeader (path : string) (frontmatter : JsValue) (body : string)
  (result : AgentValidationResult) : AgentValidationResult :=
  let result :=
    if negb (Js.truthy (Js.prop frontmatter "name"))
       && isEmpty (Path.basenameExt path ".md")
    then failWith "Missing required field: name" result else result in
  let result :=
    if negb (Js.truthy (Js.prop frontmatter "description"))
       && negb (Js.truthy (Js.optProp (Js.prop frontmatter "metadata") "description"))
    then warn "Missing description field (recommended)" result else result in
  let caps :=
    Js.or (Js.prop frontmatter "capabilities")
      (Js.optProp (Js.prop frontmatter "metadata") "capabilities") in
  let result :=
    if negb (Js.truthy caps)
       || match caps with JArr [] => true | _ => false end
    then warn "No capabilities defined" result else result in
  let result :=
    if negb (Js.truthy (Js.prop frontmatter "type"))
    then warn ("No type specified (will use " ++ DQ ++ "custom" ++ DQ ++ ")") result
    else result in
  let hooks := Js.prop frontmatter "hooks" in
  let result :=
    if Js.truthy hooks then
      let result :=
        if Js.truthy (Js.prop hooks "pre") && negb (Js.isString (Js.prop hooks "pre"))
        then failWith "hooks.pre must be a string" result else result in
      if Js.truthy (Js.prop hooks "post") && negb (Js.isString (Js.prop hooks "post"))
      then failWith "hooks.post must be a string" result else result
    else result in
  if isEmpty body || (String.length (trim body) =? 0)%nat
  then warn "Empty system prompt (markdown body)" result else result.

Definition validateAgentFile (w : World) (path : string)
  : M Loader AgentValidationResult :=
  let result :=
    {| valid := true; filePath := path; errors := []; warnings := [];
       agent := None |} in
  if negb (Fs.existsSync w path) then
    ret (failWith ("File not found: " ++ path) result)
  else
    tryCatch
      (content <- lift (Fs.readFileSync w path) ;;
       let (frontmatter, body) := parseFrontmatter w content in
       if negb (Js.truthy frontmatter) then
         ret (failWith "No valid YAML frontmatter found (must be enclosed in ---)" result)
       else
         let result := checkHeader path frontmatter body result in
         if valid result then
           parsed <- parseAgentFile w path (Path.dirname path) ;;
           match parsed with
           | Some a => ret (withAgent a result)
           | None => ret (failWith "Failed to parse agent definition" result)
           end
         else ret result)
      (fun error => ret (failWith ("Parse error: " ++ message error) result)).

(** [refresh]: force reload of all agents. *)
Definition refresh (w : World) (now : Z) : M Loader unit :=
  modify (withLastLoadTime 0) ;;
  loadAgents w now.

Definition clearCache : M Loader unit :=
  modify (withCache (fun _ => JsMap.empty)) ;;
  modify (withLastLoadTime 0) ;;
  modify (withLoadErrors (fun _ => [])).

(** [v === t] for a header value [v] and a string [t]. *)
Definition typeIs (t : string) (v : JsValue) : bool :=
  match v with
  | JStr s => String.eqb s t
  | _ => false
  end.

(** [agents.filter(agent => agent.category === category)]. *)
Definition getAgentsByCategory (w : World) (now : Z) (c : string)
  : M Loader (list AgentDefinition) :=
  agents <- getAllAgents w now ;;
  ret (filter (fun agent => String.eqb (category agent) c) agents).

(** [agents.filter(agent => agent.type === type)]. *)
Definition getAgentsByType (w : World) (now : Z) (t : string)
  : M Loader (list AgentDefinition) :=
  agents <- getAllAgents w now ;;
  ret (filter (fun agent => typeIs t (type agent)) agents).

(** The definitions read under a root marked [.claude-flow]. *)
Definition getCustomAgents (w : World) (now : Z) : M Loader (list AgentDefinition) :=
  agents <- getAllAgents w now ;;
  ret (filter (fun agent => isCustom agent) agents).

(** The definitions read under any other root; the loader calls them
    built-in. *)
Definition getBuiltInAgents (w : World) (now : Z) : M Loader (list AgentDefinition) :=
  agents <- getAllAgents w now ;;
  ret (filter (fun agent => negb (isCustom agent)) agents).

(** [validateAllAgents]: the loops run over the search paths the object
    holds, not over freshly resolved ones; [results.push] is the growing
    local value. *)
Definition validateAllAgents (w : World) : M Loader (list AgentValidationResult) :=
  paths <- gets searchPaths ;;
  foldM
    (fun results searchPath =>
       files <- lift (findMarkdownFiles w searchPath) ;;
       foldM
         (fun results filePath =>
            r <- validateAgentFile w filePath ;;
            ret (results ++ [r])%list)
         files results)
    paths [].

(** [[...this.searchPaths]] and [[...this.loadErrors]]. *)
Definition getSearchDirectories : M Loader (list string) := gets searchPaths.

Definition getLoadErrors : M Loader (list string) := gets loadErrors.

(** The state the constructor leaves. *)
Definition initial (w : World) : Loader :=
  {| agentCache := JsMap.empty; lastLoadTime := 0;
     searchPaths := getSearchPaths w; loadErrors := []; scans := 0 |}.

End CustomAgentLoader.

(* ===================================================================== *)
(** ** The built-in catalogue *)
(* ===================================================================== *)

Module BuiltIn.

Record Agent : Type := {
  name : string;
  type : string;
  description : string;
  capabilities : list string;
  isBuiltIn : bool
}.

End BuiltIn.

Definition BUILT_IN_AGENTS : list BuiltIn.Agent := [
  {| BuiltIn.name := "coordinator";
     BuiltIn.type := "coordinator";
     BuiltIn.description := "Orchestrates tasks and manages workflow between agents";
     BuiltIn.capabilities :=
       ["Task Management"; "Workflow Orchestration"; "Resource Allocation"; "Coordination"];
     BuiltIn.isBuiltIn := true |};
  {| BuiltIn.name := "researcher";
     BuiltIn.type := "researcher";
     BuiltIn.description := "Gathers and analyzes information from various sources";
     BuiltIn.capabilities :=
       ["Research"; "Analysis"; "Information Gathering"; "Documentation"];
     BuiltIn.isBuiltIn := true |};
  {| BuiltIn.name := "coder";
     BuiltIn.type := "coder";
     BuiltIn.description := "Writes, reviews, and maintains code implementations";
     BuiltIn.capabilities :=
       ["Code Generation"; "Implementation"; "Refactoring"; "Debugging"];
     BuiltIn.isBuiltIn := true |};
  {| BuiltIn.name := "analyst";
     BuiltIn.type := "analyst";
     BuiltIn.description := "Performs data analysis and generates insights";
     BuiltIn.capabilities :=
       ["Data Analysis"; "Pattern Recognition"; "Reporting"; "Optimization"];
     BuiltIn.isBuiltIn := true |};
  {| BuiltIn.name := "architect";
     BuiltIn.type := "architect";
     BuiltIn.description := "Designs system architecture and technical solutions";
     BuiltIn.capabilities :=
       ["System Design"; "Architecture"; "Technical Planning"; "Integration"];
     BuiltIn.isBuiltIn := true |};
  {| BuiltIn.name := "tester";
     BuiltIn.type := "tester";
     BuiltIn.description := "Creates and executes tests, ensures quality";
     BuiltIn.capabilities :=
       ["Testing"; "Validation"; "Quality Assurance"; "Performance Testing"];
     BuiltIn.isBuiltIn := true |};
  {| BuiltIn.name := "reviewer";
     BuiltIn.type := "reviewer";
     BuiltIn.description := "Reviews code and documentation for quality and standards";
     BuiltIn.capabilities :=
       ["Code Review"; "Documentation Review"; "Standards Compliance"; "Feedback"];
     BuiltIn.isBuiltIn := true |};
  {| BuiltIn.name := "optimizer";
     BuiltIn.type := "optimizer";
     BuiltIn.description := "Optimizes performance and resource utilization";
     BuiltIn.capabilities :=
       ["Performance Optimization"; "Resource Management"; "Profiling"; "Tuning"];
     BuiltIn.isBuiltIn := true |};
  {| BuiltIn.name := "general";
     BuiltIn.type := "general";
     BuiltIn.description := "General-purpose agent for various tasks";
     BuiltIn.capabilities := ["Research"; "Analysis"; "Code Generation"];
     BuiltIn.isBuiltIn := true |}
].

(* ===================================================================== *)
(** ** [class UnifiedAgentRegistry] *)
(* ===================================================================== *)

Module UnifiedAgentRegistry.

(** What the registry hands out: a discovered definition or a catalogue
    entry. *)
Inductive Agent : Type :=
| Discovered (d : AgentDefinition)
| Catalogued (b : BuiltIn.Agent).

Definition agentName (a : Agent) : JsValue :=
  match a with
  | Discovered d => name d
  | Catalogued b => JStr (BuiltIn.name b)
  end.

Definition agentCapabilities (a : Agent) : list JsValue :=
  match a with
  | Discovered d => capabilities d
  | Catalogued b => map JStr (BuiltIn.capabilities b)
  end.

(** The two singletons of the module: the loader object and the registry's
    own flag. *)
Record Process : Type := {
  loader : CustomAgentLoader.Loader;
  initialized : bool
}.

(** A call of a method of [customAgentLoader]. *)
Definition onLoader {A : Type} (m : M CustomAgentLoader.Loader A) : M Process A :=
  fun p =>
    let (r, l) := m (loader p) in
    (r, {| loader := l; initialized := initialized p |}).

Definition setInitialized : M Process unit :=
  modify (fun p => {| loader := loader p; initialized := true |}).

(** [new Map(BUILT_IN_AGENTS.map(agent => [agent.name, agent]))]. *)
Definition builtInAgents : JsMap.t BuiltIn.Agent :=
  fold_left (fun m a => JsMap.set (JStr (BuiltIn.name a)) a m)
    BUILT_IN_AGENTS JsMap.empty.

Definition ensureInitialized (w : World) (now : Z) : M Process unit :=
  done <- gets initialized ;;
  if negb done then
    onLoader (CustomAgentLoader.refresh w now) ;;
    setInitialized
  else ret tt.

Definition getAgent (w : World) (now : Z) (n : string) : M Process (option Agent) :=
  ensureInitialized w now ;;
  customAgent <- onLoader (CustomAgentLoader.getAgent w now n) ;;
  match customAgent with
  | Some d => ret (Some (Discovered d))
  | None => ret (option_map Catalogued (JsMap.get (JStr n) builtInAgents))
  end.

Definition hasAgent (w : World) (now : Z) (n : string) : M Process bool :=
  ensureInitialized w now ;;
  custom <- onLoader (CustomAgentLoader.hasAgent w now n) ;;
  ret (custom || JsMap.has (JStr n) builtInAgents).

Definition getAllAgents (w : World) (now : Z) : M Process (list Agent) :=
  ensureInitialized w now ;;
  let result :=
    fold_left (fun m kv => JsMap.set (fst kv) (Catalogued (snd kv)) m)
      builtInAgents JsMap.empty in
  customAgents <- onLoader (CustomAgentLoader.getAllAgents w now) ;;
  let result :=
    fold_left (fun m d => JsMap.set (name d) (Discovered d) m) customAgents result in
  lift (sortBy
          (fun a b => CustomAgentLoader.compareNames w (agentName a) (agentName b))
          (JsMap.values result)).

(** The fallback of [getAgentCapabilities] for a name nobody defines. *)
Definition defaultCapabilities : list JsValue :=
  [JStr "Research"; JStr "Analysis"; JStr "Code Generation"].

Definition getAgentCapabilities (w : World) (now : Z) (n : string)
  : M Process (list JsValue) :=
  found <- getAgent w now n ;;
  match found with
  | Some a => ret (agentCapabilities a)
  | None => ret defaultCapabilities
  end.

Definition refresh (w : World) (now : Z) : M Process unit :=
  onLoader (CustomAgentLoader.refresh w now) ;;
  setInitialized.

Record Stats : Type := {
  totalAgents : Z;
  builtInCount : nat;
  customCount : nat;
  overriddenBuiltIns : list JsValue
}.

(** [new Set(names).has(k)]. *)
Definition setHas (names : list JsValue) (k : JsValue) : bool :=
  existsb (fun n => Js.sameValueZero n k) names.

Definition getStats (w : World) (now : Z) : M Process Stats :=
  ensureInitialized w now ;;
  customAgents <- onLoader (CustomAgentLoader.getAllAgents w now) ;;
  let customNames := map name customAgents in
  let overridden := filter (setHas customNames) (JsMap.keys builtInAgents) in
  ret {|
    totalAgents :=
      Z.of_nat (JsMap.size builtInAgents) + Z.of_nat (length customAgents)
      - Z.of_nat (length overridden);
    builtInCount := JsMap.size builtInAgents;
    customCount := length customAgents;
    overriddenBuiltIns := overridden
  |}.

Definition agentType (a : Agent) : JsValue :=
  match a with
  | Discovered d => type d
  | Catalogued b => JStr (BuiltIn.type b)
  end.

Definition agentDescription (a : Agent) : JsValue :=
  match a with
  | Discovered d => description d
  | Catalogued b => JStr (BuiltIn.description b)
  end.

Definition getAgentNames (w : World) (now : Z) : M Process (list JsValue) :=
  agents <- getAllAgents w now ;;
  ret (map agentName agents).

(** [Array.from(this.builtInAgents.values())]. *)
Definition getBuiltInAgents : list BuiltIn.Agent := JsMap.values builtInAgents.

Definition getCustomAgents (w : World) (now : Z) : M Process (list AgentDefinition) :=
  ensureInitialized w now ;;
  onLoader (CustomAgentLoader.getCustomAgents w now).

(** The predicate given to [filter] in [searchAgents]: name, description
    and capabilities, and not the type. *)
Definition matchesQuery (lowerQuery : string) (a : Agent) : Result bool :=
  n <-r CustomAgentLoader.lowerOf (agentName a) ;;
  if Str.includes n lowerQuery then Ok true
  else
    d <-r CustomAgentLoader.lowerOf (agentDescription a) ;;
    if Str.includes d lowerQuery then Ok true
    else
      someR (fun cap => l <-r CustomAgentLoader.lowerOf cap ;;
                        Ok (Str.includes l lowerQuery))
        (agentCapabilities a).

Definition searchAgents (w : World) (now : Z) (query : string) : M Process (list Agent) :=
  allAgents <- getAllAgents w now ;;
  let lowerQuery := Str.toLowerCase query in
  lift (filterR (matchesQuery lowerQuery) allAgents).

Definition getAgentsByType (w : World) (now : Z) (t : string) : M Process (list Agent) :=
  allAgents <- getAllAgents w now ;;
  ret (filter (fun agent => CustomAgentLoader.typeIs t (agentType agent)) allAgents).

(** [s || null] for a string [s]; [None] is [null]. *)
Definition orNull (s : string) : option string :=
  if Str.isEmpty s then None else Some s.

(** [customAgent?.systemPrompt || null]; the registry asks the loader
    directly, without [ensureInitialized]. *)
Definition getAgentSystemPrompt (w : World) (now : Z) (n : string)
  : M Process (option string) :=
  customAgent <- onLoader (CustomAgentLoader.getAgent w now n) ;;
  ret (match customAgent with
       | Some d => orNull (systemPrompt d)
       | None => None
       end).

(** [customAgent?.hooks || null]. *)
Definition getAgentHooks (w : World) (now : Z) (n : string) : M Process JsValue :=
  customAgent <- onLoader (CustomAgentLoader.getAgent w now n) ;;
  ret (match customAgent with
       | Some d => Js.or (hooks d) JNull
       | None => JNull
       end).

(** [customAgentLoader.hasAgent(name)]: the flag [isCustom] is not
    looked at. *)
Definition isCustomAgent (w : World) (now : Z) (n : string) : M Process bool :=
  onLoader (CustomAgentLoader.hasAgent w now n).

Definition getAgentSourcePath (w : World) (now : Z) (n : string)
  : M Process (option string) :=
  customAgent <- onLoader (CustomAgentLoader.getAgent w now n) ;;
  ret (match customAgent with
       | Some d => orNull (sourcePath d)
       | None => None
       end).

(** The state of a fresh process. *)
Definition initial (w : World) : Process :=
  {| loader := CustomAgentLoader.initial w; initialized := false |}.

End UnifiedAgentRegistry.

(* ===================================================================== *)
(** ** A discovery pass as a function of the world *)
(* ===================================================================== *)

Module Discovery.
Import CustomAgentLoader.

(** The files [findMarkdownFiles] returns for a root. *)
Definition filesOf (w : World) (searchPath : string) : list string :=
  match findMarkdownFiles w searchPath with
  | Ok files => files
  | Throw _ => []
  end.

(** What [parseAgentFile] returns for a file; it does not depend on the
    state of the loader. *)
Definition parsedAgent (w : World) (filePath baseDir : string) : option AgentDefinition :=
  match fst (parseAgentFile w filePath baseDir (initial w)) with
  | Ok r => r
  | Throw _ => None
  end.

(** The definitions read under one root, in the order of enumeration. *)
Definition agentsUnder (w : World) (searchPath : string) : list AgentDefinition :=
  flat_map
    (fun filePath =>
       match parsedAgent w filePath searchPath with
       | Some a => [a]
       | None => []
       end)
    (filesOf w searchPath).

(** The definitions of a pass over the given roots, in processing order. *)
Definition discoveredIn (w : World) (roots : list string) : list AgentDefinition :=
  flat_map (agentsUnder w) roots.

(** The definitions of the pass [loadAgents] makes. *)
Definition discovered (w : World) : list AgentDefinition :=
  discoveredIn w (rev (getSearchPaths w)).

(** The effect of [cacheAgent] on the cache. *)
Definition insertAgent (a : AgentDefinition) (cache : JsMap.t AgentDefinition)
  : JsMap.t AgentDefinition :=
  match JsMap.get (name a) cache with
  | Some _ => if isCustom a then JsMap.set (name a) a cache else cache
  | None => JsMap.set (name a) a cache
  end.

(** The cache after the definitions [ds] went through [cacheAgent] in that
    order, starting from [cache]. *)
Definition mergeInto (cache : JsMap.t AgentDefinition) (ds : list AgentDefinition)
  : JsMap.t AgentDefinition :=
  fold_left (fun c a => insertAgent a c) ds cache.

Definition mergeAgents (ds : list AgentDefinition) : JsMap.t AgentDefinition :=
  mergeInto JsMap.empty ds.

(** The body of the inner loop of [loadAgents], and of the outer one. *)
Definition fileBody (w : World) (searchPath filePath : string) : M Loader unit :=
  agent <- parseAgentFile w filePath searchPath ;;
  match agent with
  | Some a => cacheAgent a
  | None => ret tt
  end.

Definition rootBody (w : World) (searchPath : string) : M Loader unit :=
  files <- lift (findMarkdownFiles w searchPath) ;;
  forEach files (fileBody w searchPath).

(** No two entries of a map have the same key. *)
Fixpoint distinctKeys {V : Type} (m : JsMap.t V) : Prop :=
  match m with
  | [] => True
  | (k, _) :: m' =>
      (forall k' v', In (k', v') m' -> Js.sameValueZero k k' = false)
      /\ distinctKeys m'
  end.

(** Every definition is filed under its own name. *)
Definition keyedByName (m : JsMap.t AgentDefinition) : Prop :=
  forall k d, In (k, d) m -> k = name d.

(** The number of definitions of a snapshot whose name is [n]. *)
Definition countNamed (n : JsValue) (m : JsMap.t AgentDefinition) : nat :=
  length (filter (fun d => Js.sameValueZero (name d) n) (JsMap.values m)).

(** The two properties of a cache that discovery builds. *)
Definition cacheOk (st : Loader) : Prop :=
  distinctKeys (agentCache st) /\ keyedByName (agentCache st).

(** A method of the loader that keeps these properties. *)
Definition keeps {A : Type} (m : M Loader A) : Prop :=
  forall st, cacheOk st -> cacheOk (snd (m st)).



(** The four priority levels. *)
Definition isPriorityLevel (v : JsValue) : bool :=
  match v with
  | JStr s =>
      String.eqb s "low" || String.eqb s "medium"
      || String.eqb s "high" || String.eqb s "critical"
  | _ => false
  end.

(** Every search path that exists can be listed. *)
Definition rootsListable (w : World) : Prop :=
  forall p, In p (getSearchPaths w) ->
    exists files, findMarkdownFiles w p = Ok files.

(** All the names of a snapshot are strings. *)
Definition stringNames (m : JsMap.t AgentDefinition) : Prop :=
  forall k d, In (k, d) m -> Js.isString (name d) = true.

End Discovery.

(* ===================================================================== *)
(** ** The union of the catalogue and a snapshot *)
(* ===================================================================== *)

Module Union.
Import UnifiedAgentRegistry.

(** The map [getAllAgents] starts from: a copy of the catalogue. *)
Definition catalogueCopy : JsMap.t Agent :=
  fold_left (fun m kv => JsMap.set (fst kv) (Catalogued (snd kv)) m)
    builtInAgents JsMap.empty.

(** The second loop of [getAllAgents]. *)
Definition overlay (customAgents : list AgentDefinition) (m : JsMap.t Agent)
  : JsMap.t Agent :=
  fold_left (fun m d => JsMap.set (name d) (Discovered d) m) customAgents m.

(** Every agent is filed under its own name. *)
Definition keyedByAgentName (m : JsMap.t Agent) : Prop :=
  forall k a, In (k, a) m -> k = agentName a.

(** The entries of a listing whose name is [n]. *)
Definition named (n : JsValue) (agents : list Agent) : list Agent :=
  filter (fun a => Js.sameValueZero (agentName a) n) agents.

(** The loader's state a read of the registry is answered from: after the
    one-time initialisation and the loader's own ensure-fresh step. *)
Definition served (w : World) (now : Z) (p : Process) : CustomAgentLoader.Loader :=
  snd (CustomAgentLoader.ensureLoaded w now
         (loader (snd (ensureInitialized w now p)))).

End Union.

(* ===================================================================== *)
(** ** The states a process can be in *)
(* ===================================================================== *)

Module Session.
Import UnifiedAgentRegistry.

(** A call of one of the exported operations of the two objects. *)
Inductive Call : Type :=
| LoaderGetAgent (n : string)
| LoaderGetAllAgents
| LoaderHasAgent (n : string)
| LoaderSearchAgents (query : string)
| LoaderValidateAgentFile (path : string)
| LoaderRefresh
| LoaderClearCache
| RegistryGetAgent (n : string)
| RegistryHasAgent (n : string)
| RegistryGetAllAgents
| RegistryGetAgentCapabilities (n : string)
| RegistryGetStats
| RegistryRefresh.

(** The state a call leaves, whatever it returns or throws. *)
Definition after (w : World) (now : Z) (c : Call) (p : Process) : Process :=
  match c with
  | LoaderGetAgent n => snd (onLoader (CustomAgentLoader.getAgent w now n) p)
  | LoaderGetAllAgents => snd (onLoader (CustomAgentLoader.getAllAgents w now) p)
  | LoaderHasAgent n => snd (onLoader (CustomAgentLoader.hasAgent w now n) p)
  | LoaderSearchAgents q => snd (onLoader (CustomAgentLoader.searchAgents w now q) p)
  | LoaderValidateAgentFile f =>
      snd (onLoader (CustomAgentLoader.validateAgentFile w f) p)
  | LoaderRefresh => snd (onLoader (CustomAgentLoader.refresh w now) p)
  | LoaderClearCache => snd (onLoader CustomAgentLoader.clearCache p)
  | RegistryGetAgent n => snd (getAgent w now n p)
  | RegistryHasAgent n => snd (hasAgent w now n p)
  | RegistryGetAllAgents => snd (getAllAgents w now p)
  | RegistryGetAgentCapabilities n => snd (getAgentCapabilities w now n p)
  | RegistryGetStats => snd (getStats w now p)
  | RegistryRefresh => snd (refresh w now p)
  end.


(** A method of the registry that keeps the properties of the cache. *)
Definition keepsCache {A : Type} (m : M Process A) : Prop :=
  forall p, Discovery.cacheOk (loader p) -> Discovery.cacheOk (loader (snd (m p))).

End Session.

(* ===================================================================== *)
(** ** Sample worlds *)
(* ===================================================================== *)

Module Sample.

Definition nl : string := String Str.LF EmptyString.

(** A document with a header block and a body. *)
Definition document (header body : string) : string :=
  "---" ++ nl ++ header ++ nl ++ "---" ++ nl ++ body.

(** The answers of the YAML parser on the header texts of the samples;
    [yaml.parse] gives these values on these texts. *)
Definition sampleYaml (text : string) : YamlResult :=
  if String.eqb text "name: coder" then
    YamlValue (JObj [("name", JStr "coder")])
  else if String.eqb text "name: helper" then
    YamlValue (JObj [("name", JStr "helper")])
  else if String.eqb text "priority: urgent" then
    YamlValue (JObj [("priority", JStr "urgent")])
  else if String.eqb text "priority: high" then
    YamlValue (JObj [("priority", JStr "high")])
  else if String.eqb text "hello" then
    YamlValue (JStr "hello")
  else if String.eqb text "name: [" then
    YamlError "YAMLParseError"
  else YamlError "not a sample header".

(** Comparison of code units, standing for the host's collation. *)
Definition codeUnitCompare (s : string) (v : JsValue) : Z :=
  match v with
  | JStr t =>
      match String.compare s t with
      | Lt => -1
      | Eq => 0
      | Gt => 1
      end
  | _ => 0
  end.

Definition worldOf (tree : Node) : World :=
  {| cwd := "/proj"; root := tree; parseYaml := sampleYaml;
     localeCompare := codeUnitCompare |}.

(** [/proj] with a custom root and a project root that both define
    [coder]; the project root also defines [helper]. *)
Definition twoRoots : World :=
  worldOf (NDir [("proj", NDir [
    (".claude-flow", NDir [("agents", NDir [
       ("coder.md", NFile (Readable (document "name: coder" "Custom coder.")))])]);
    (".claude", NDir [("agents", NDir [
       ("coder.md", NFile (Readable (document "name: coder" "Project coder.")));
       ("helper.md", NFile (Readable (document "name: helper" "Helps.")))])])])]).

(** [/proj] with a custom root where two files name the same agent. *)
Definition twoCustomFiles : World :=
  worldOf (NDir [("proj", NDir [
    (".claude-flow", NDir [("agents", NDir [
       ("a.md", NFile (Readable (document "name: coder" "First.")));
       ("b.md", NFile (Readable (document "name: coder" "Second.")))])])])]).

(** [/proj] with one project-root file whose header has a priority outside
    the four levels, one with a level, and one whose header is a scalar. *)
Definition priorities : World :=
  worldOf (NDir [("proj", NDir [
    (".claude", NDir [("agents", NDir [
       ("urgent.md", NFile (Readable (document "priority: urgent" "Now.")));
       ("high.md", NFile (Readable (document "priority: high" "Soon.")));
       ("core", NDir [
         ("plain.md", NFile (Readable (document "name: helper" "Later.")))])])])])]).

(** [/proj] without any agent root. *)
Definition noRoots : World :=
  worldOf (NDir [("proj", NDir [])]).

(** What [parseAgentFile] makes of a sample file that names [coder]. *)
Definition coderFrom (path body : string) (custom : bool) : AgentDefinition :=
  {| name := JStr "coder"; type := JUndefined; color := JUndefined;
     description := JStr ("Agent defined in " ++ Path.basename path);
     capabilities := []; priority := JStr "medium"; hooks := JUndefined;
     systemPrompt := body; sourcePath := path;
     category := "custom"; isCustom := custom |}.

Definition customCoder : AgentDefinition :=
  coderFrom "/proj/.claude-flow/agents/coder.md" "Custom coder." true.

Definition projectCoder : AgentDefinition :=
  coderFrom "/proj/.claude/agents/coder.md" "Project coder." false.

Definition projectHelper : AgentDefinition :=
  {| name := JStr "helper"; type := JUndefined; color := JUndefined;
     description := JStr "Agent defined in helper.md";
     capabilities := []; priority := JStr "medium"; hooks := JUndefined;
     systemPrompt := "Helps."; sourcePath := "/proj/.claude/agents/helper.md";
     category := "custom"; isCustom := false |}.

Definition firstCoder : AgentDefinition :=
  coderFrom "/proj/.claude-flow/agents/a.md" "First." true.

Definition secondCoder : AgentDefinition :=
  coderFrom "/proj/.claude-flow/agents/b.md" "Second." true.

End Sample.

(* ===================================================================== *)
(** ** The files and the load errors of a pass *)
(* ===================================================================== *)

Module Report.
Import CustomAgentLoader Discovery.

(** The entry names of a tree are plain: not empty and without a slash. *)
Fixpoint plainNames (n : Node) : bool :=
  match n with
  | NDir entries =>
      forallb
        (fun entry =>
           negb (Str.isEmpty (fst entry)) && Str.noSlash (fst entry)
           && plainNames (snd entry))
        entries
  | _ => true
  end.

(** The load errors [parseAgentFile] records for a file; they do not depend
    on the state of the loader. *)
Definition parseErrors (w : World) (filePath baseDir : string) : list string :=
  loadErrors (snd (parseAgentFile w filePath baseDir (initial w))).

(** The load errors of the files of one root, and of a pass. *)
Definition errorsUnder (w : World) (searchPath : string) : list string :=
  flat_map (fun filePath => parseErrors w filePath searchPath) (filesOf w searchPath).

Definition passErrors (w : World) : list string :=
  flat_map (errorsUnder w) (rev (getSearchPaths w)).

(** The files a pass reads, in processing order. *)
Definition passFiles (w : World) : list string :=
  flat_map (filesOf w) (rev (getSearchPaths w)).

(** The message of the branch [validateAgentFile] takes when
    [parseAgentFile] returns nothing for a header that passed the checks. *)
Definition parseFailure : string := "Failed to parse agent definition".

(** What holds of the result object of [validateAgentFile] for [path] while
    the checks run: it names the path, it is valid exactly when it has no
    error, it carries no definition yet, and none of its errors is
    [parseFailure]. *)
Definition checked (path : string) (r : AgentValidationResult) : Prop :=
  filePath r = path
  /\ agent r = None
  /\ (valid r = true <-> errors r = [])
  /\ ~ In parseFailure (errors r).

(** [dir] or one of the directories above it. *)
Fixpoint ancestor (k : nat) (dir : string) : string :=
  match k with
  | O => dir
  | S k' => ancestor k' (Path.dirname dir)
  end.

(** A method of the registry that leaves an initialised registry
    initialised. *)
Definition staysInitialized {A : Type} (m : M UnifiedAgentRegistry.Process A) : Prop :=
  forall p,
    UnifiedAgentRegistry.initialized p = true ->
    UnifiedAgentRegistry.initialized (snd (m p)) = true.

End Report.

(* ===================================================================== *)
(** ** The reads and the ensure-fresh step *)
(* ===================================================================== *)

Module Freshness.
Import CustomAgentLoader.

(** The reads of the loader that make one ensure-fresh step. *)
Inductive Read : Type :=
| ReadAgent (n : string)
| ReadHasAgent (n : string)
| ReadAllAgents
| ReadSearch (query : string)
| ReadByCategory (c : string)
| ReadByType (t : string)
| ReadCustomAgents
| ReadBuiltInAgents.

(** The state such a read leaves, whatever it returns or throws. *)
Definition afterRead (w : World) (now : Z) (r : Read) (st : Loader) : Loader :=
  match r with
  | ReadAgent n => snd (getAgent w now n st)
  | ReadHasAgent n => snd (hasAgent w now n st)
  | ReadAllAgents => snd (getAllAgents w now st)
  | ReadSearch query => snd (searchAgents w now query st)
  | ReadByCategory c => snd (getAgentsByCategory w now c st)
  | ReadByType t => snd (getAgentsByType w now t st)
  | ReadCustomAgents => snd (getCustomAgents w now st)
  | ReadBuiltInAgents => snd (getBuiltInAgents w now st)
  end.

(** The loader's [getStats] up to the listing it counts:
    [await this.ensureLoaded(); const agents = await this.getAllAgents();].
    What follows counts that listing into a fresh object and leaves the
    loader as it is. *)
Definition statsListing (w : World) (now : Z) : M Loader (list AgentDefinition) :=
  ensureLoaded w now ;;
  getAllAgents w now.

End Freshness.

(* ===================================================================== *)
(** ** The order of a listing *)
(* ===================================================================== *)

Module Listing.
Import CustomAgentLoader.

(** [a] does not come after [b] in the order of [getAllAgents]: the
    comparator [a.name.localeCompare(b.name)] returns a number that is not
    positive. *)
Definition notAfter (w : World) (a b : AgentDefinition) : bool :=
  match compareNames w (name a) (name b) with
  | Ok c => c <=? 0
  | Throw _ => false
  end.

(** The comparator orders the definitions [l] consistently: of any two of
    them one does not come after the other, and not coming after is
    transitive. *)
Definition consistentOrder (w : World) (l : list AgentDefinition) : bool :=
  forallb (fun a => forallb (fun b => notAfter w a b || notAfter w b a) l) l
  && forallb
       (fun a =>
          forallb
            (fun b =>
               forallb
                 (fun c => implb (notAfter w a b && notAfter w b c) (notAfter w a c))
                 l)
            l)
       l.

End Listing.

(* ===================================================================== *)
(** ** The command line of the [agent] command *)
(* ===================================================================== *)

Module Cli.

(** [args.indexOf(x)] on an array of strings; [None] is [-1]. *)
Fixpoint indexOf (args : list string) (x : string) : option nat :=
  match args with
  | [] => None
  | a :: rest => if String.eqb a x then Some O else option_map S (indexOf rest x)
  end.

(** [getFlag]; [None] is [null]. *)
Definition getFlag (args : list string) (flagName : string) : option string :=
  match indexOf args flagName with
  | Some index =>
      if (index + 1 <? length args)%nat then nth_error args (index + 1) else None
  | None => None
  end.

End Cli.

(* ===================================================================== *)
(** ** More sample worlds *)
(* ===================================================================== *)

Module Worlds.

(** A project root with files the enumeration leaves out, an entry that is
    neither a file nor a directory, and a sub-directory with one good
    file, one without a header and one that cannot be read. *)
Definition mixedFiles : World :=
  Sample.worldOf (NDir [("proj", NDir [
    (".claude", NDir [("agents", NDir [
       ("README.md", NFile (Readable "About these agents."));
       ("db-migration.md", NFile (Readable (Sample.document "name: helper" "Old.")));
       ("notes.txt", NFile (Readable "Notes."));
       ("link.md", NOther);
       ("core", NDir [
         ("Coder.MD", NFile (Readable (Sample.document "name: coder" "Writes code.")));
         ("broken.md", NFile (Readable "no header here"));
         ("locked.md", NFile (Unreadable "EACCES: permission denied"))])])])])]).

(** The project root is a regular file. *)
Definition agentsIsFile : World :=
  Sample.worldOf (NDir [("proj", NDir [
    (".claude", NDir [("agents", NFile (Readable "not a directory"))])])]).

(** The parser's answers on the sample headers and on one header with a
    number for a description; [yaml.parse] gives these values on these
    texts. *)
Definition moreYaml (text : string) : YamlResult :=
  if String.eqb text "description: 42" then
    YamlValue (JObj [("description", JNum 42)])
  else Sample.sampleYaml text.

(** A project root with a definition whose description is a number. *)
Definition numericDescription : World :=
  {| cwd := "/proj";
     root := NDir [("proj", NDir [
       (".claude", NDir [("agents", NDir [
          ("coder.md", NFile (Readable (Sample.document "name: coder" "Writes code.")));
          ("odd.md", NFile (Readable (Sample.document "description: 42" "Odd.")))])])])];
     parseYaml := moreYaml;
     localeCompare := Sample.codeUnitCompare |}.

(** A working directory whose own path contains [.claude-flow], with a
    project root where two files name the same agent. *)
Definition markedDirectory : World :=
  {| cwd := "/work/.claude-flow-demo";
     root := NDir [("work", NDir [(".claude-flow-demo", NDir [
       (".claude", NDir [("agents", NDir [
          ("a.md", NFile (Readable (Sample.document "name: coder" "First.")));
          ("b.md", NFile (Readable (Sample.document "name: coder" "Second.")))])])])])];
     parseYaml := Sample.sampleYaml;
     localeCompare := Sample.codeUnitCompare |}.

(** A project root that lists [helper] before [coder]. *)
Definition helperFirst : World :=
  Sample.worldOf (NDir [("proj", NDir [
    (".claude", NDir [("agents", NDir [
       ("helper.md", NFile (Readable (Sample.document "name: helper" "Helps.")));
       ("coder.md", NFile (Readable (Sample.document "name: coder" "Project coder.")))])])])]).




End Worlds.

(* ===================================================================== *)
(** ** Facts about strings and paths *)
(* ===================================================================== *)

Section StringFacts.
Import Str.

Lemma stripPrefix_app (d r : string) : stripPrefix d (d ++ r) = Some r.
Proof.
  induction d as [|c d IH]; simpl; [reflexivity|].
  now rewrite Ascii.eqb_refl.
Qed.




Lemma stripPrefix_suffix (pat s r : string) :
  stripPrefix pat s = Some r -> s = pat ++ r.
Proof.
  revert s; induction pat as [|a pat IH]; intros s H; simpl in *.
  - now inversion H.
  - destruct s as [|b s]; [discriminate|].
    destruct (Ascii.eqb a b) eqn:E; [|discriminate].
    apply Ascii.eqb_eq in E; subst b. f_equal. now apply IH.
Qed.




Lemma includes_unfold (s sub : string) :
  includes s sub =
  match stripPrefix sub s with
  | Some _ => true
  | None =>
      match s with
      | EmptyString => false
      | String _ s' => includes s' sub
      end
  end.
Proof. destruct s; reflexivity. Qed.

Lemma includes_empty (s : string) : includes s EmptyString = true.
Proof. rewrite includes_unfold. reflexivity. Qed.




Lemma endsWithSlash_cons (c : ascii) (s : string) :
  s <> EmptyString -> endsWithSlash (String c s) = endsWithSlash s.
Proof. destruct s; [congruence | reflexivity]. Qed.

Lemma endsWithSlash_app (a b : string) :
  b <> EmptyString -> endsWithSlash (a ++ b) = endsWithSlash b.
Proof.
  intros Hb. induction a as [|c a IH]; [reflexivity|].
  simpl append. rewrite endsWithSlash_cons; [exact IH|].
  destruct a; simpl; [exact Hb | discriminate].
Qed.

Lemma hasName_nonempty (s : string) : Path.hasName s = true -> s <> EmptyString.
Proof. destruct s; simpl; congruence. Qed.



(** The directory part is followed by one slash and by the final name. *)
Lemma dirPrefix_some (s d : string) :
  Path.dirPrefix s = Some d ->
  exists base,
    s = d ++ String "/" base
    /\ Path.dirPrefix base = None /\ Path.hasName base = true.
Proof.
  revert d; induction s as [|c s IH]; intros d H; simpl in H; [discriminate|].
  destruct (Path.dirPrefix s) as [d'|] eqn:D.
  - inversion H; subst d. destruct (IH d' eq_refl) as (base & E & N & HN).
    exists base. simpl. now rewrite <- E.
  - destruct (isSlash c) eqn:Sc; simpl in H; [|discriminate].
    destruct (Path.hasName s) eqn:HN; [|discriminate].
    inversion H; subst d. exists s.
    apply Ascii.eqb_eq in Sc. subst c. auto.
Qed.

Lemma splitSlash_nonempty (s : string) : splitSlash s <> [].
Proof.
  destruct s as [|c s]; simpl; [discriminate|].
  destruct (isSlash c); [discriminate|]. destruct (splitSlash s); discriminate.
Qed.

Lemma splitSlash_app (a b : string) :
  splitSlash (a ++ String "/" b) = (splitSlash a ++ splitSlash b)%list.
Proof.
  induction a as [|c a IH]; [reflexivity|].
  simpl. rewrite IH. destruct (isSlash c); [reflexivity|].
  pose proof (splitSlash_nonempty a).
  destruct (splitSlash a); [congruence | reflexivity].
Qed.

Lemma splitSlash_noSlash (s : string) : noSlash s = true -> splitSlash s = [s].
Proof.
  unfold noSlash. induction s as [|c s IH]; intros H; simpl in *; [reflexivity|].
  apply andb_prop in H as [Hc Hs].
  apply negb_true_iff in Hc. rewrite Hc, (IH Hs). reflexivity.
Qed.

Lemma stripTrailingSlashes_id (p : string) :
  endsWithSlash p = false -> Path.stripTrailingSlashes p = p.
Proof.
  induction p as [|c p IH]; intros H; [reflexivity|].
  simpl. destruct p as [|c' p'].
  - simpl in *. now rewrite H.
  - rewrite endsWithSlash_cons in H by discriminate.
    rewrite (IH H). simpl. now rewrite andb_false_r.
Qed.

(** The base name of a directory part followed by a plain name. *)
Lemma basename_of_join (x base : string) :
  noSlash base = true -> base <> EmptyString ->
  Path.basename (x ++ String "/" base) = base.
Proof.
  intros Hs Hne. unfold Path.basename.
  rewrite stripTrailingSlashes_id.
  - rewrite splitSlash_app, (splitSlash_noSlash _ Hs), last_last. reflexivity.
  - rewrite endsWithSlash_app by discriminate.
    rewrite endsWithSlash_cons by exact Hne.
    destruct base as [|c b]; [congruence|].
    clear Hne. revert c Hs. unfold noSlash.
    induction b as [|c' b IH]; intros c Hs; simpl in *.
    + apply andb_prop in Hs as [Hc _]. now apply negb_true_iff in Hc.
    + apply andb_prop in Hs as [_ Hs]. exact (IH c' Hs).
Qed.



Lemma includes_app_r (p s sub : string) :
  includes s sub = true -> includes (p ++ s) sub = true.
Proof.
  intros H. induction p as [|c p IH]; [exact H|].
  simpl append. rewrite includes_unfold.
  destruct (stripPrefix sub (String c (p ++ s))); [reflexivity | exact IH].
Qed.

Lemma length_append (a b : string) :
  String.length (a ++ b) = (String.length a + String.length b)%nat.
Proof. induction a as [|c a IH]; simpl; [reflexivity | now rewrite IH]. Qed.

Lemma append_assoc (a b c : string) : (a ++ b) ++ c = a ++ (b ++ c).
Proof. induction a as [|x a IH]; simpl; [reflexivity | now rewrite IH]. Qed.


(** The parent of an absolute directory other than the root is absolute
    and shorter. *)
Lemma dirname_shorter (rest : string) :
  rest <> EmptyString ->
  (String.length (Path.dirname (String "/" rest)) < String.length (String "/" rest))%nat
  /\ exists rest', Path.dirname (String "/" rest) = String "/" rest'.
Proof.
  intros Hne. unfold Path.dirname.
  destruct (Path.dirPrefix rest) as [d|] eqn:D.
  - destruct (dirPrefix_some _ _ D) as (base & E & _ & HN).
    apply hasName_nonempty in HN.
    change (isSlash "/") with true. cbn [andb].
    destruct d as [|c d]; cbn [isEmpty].
    + split; [|eauto]. subst rest. destruct base; [congruence|]. simpl. lia.
    + split; [|eauto]. subst rest. simpl. rewrite length_append. simpl. lia.
  - change (isSlash "/") with true. cbn iota.
    split; [|exists EmptyString; reflexivity].
    destruct rest; [congruence|]. simpl. lia.
Qed.

End StringFacts.

(* ===================================================================== *)
(** ** The embedding on small inputs *)
(* ===================================================================== *)

Section Runs.
Import CustomAgentLoader Discovery.

Example derived_name :
  Str.hyphenate (Str.toLowerCase (Path.basenameExt "/proj/.claude/agents/My Agent.md" ".md"))
  = "my-agent".
Proof. reflexivity. Qed.

Example excluded_files :
  eligible "README.md" = false
  /\ eligible "v2-migration-notes.md" = false
  /\ eligible "notes.txt" = false
  /\ eligible ".md" = false
  /\ eligible "Coder.MD" = true.
Proof. repeat split; reflexivity. Qed.

Example dirname_runs :
  Path.dirname "/a/b/c.md" = "/a/b"
  /\ Path.dirname "c.md" = "."
  /\ Path.dirname "/c.md" = "/"
  /\ Path.dirname "//c.md" = "//"
  /\ Path.dirname "a//c.md" = "a/"
  /\ Path.dirname "/a/b/" = "/a".
Proof. repeat split; reflexivity. Qed.

Example category_runs :
  extractCategory "/proj/.claude/agents/core/plain.md" "/proj/.claude/agents" = "core"
  /\ extractCategory "/proj/.claude/agents/plain.md" "/proj/.claude/agents" = "custom".
Proof. split; reflexivity. Qed.

Example searchPaths_run :
  getSearchPaths Sample.twoRoots = ["/proj/.claude-flow/agents"; "/proj/.claude/agents"]
  /\ getSearchPaths Sample.noRoots = [].
Proof. split; vm_compute; reflexivity. Qed.

Example discovered_run :
  discovered Sample.twoRoots
  = [Sample.projectCoder; Sample.projectHelper; Sample.customCoder].
Proof. vm_compute. reflexivity. Qed.

End Runs.

(* ===================================================================== *)
(** ** Facts about maps *)
(* ===================================================================== *)

Section MapFacts.
Import Discovery.

Lemma sameValueZero_eq (a b : JsValue) : Js.sameValueZero a b = true -> a = b.
Proof.
  destruct a, b; simpl; try discriminate; intros H; try reflexivity.
  - apply Bool.eqb_prop in H. now subst.
  - apply Z.eqb_eq in H. now subst.
  - apply String.eqb_eq in H. now subst.
Qed.

Lemma sameValueZero_sym (a b : JsValue) :
  Js.sameValueZero a b = Js.sameValueZero b a.
Proof.
  destruct a, b; simpl; try reflexivity.
  - now destruct b, b0.
  - apply Z.eqb_sym.
  - apply String.eqb_sym.
Qed.

Lemma sameValueZero_string (s : string) : Js.sameValueZero (JStr s) (JStr s) = true.
Proof. simpl. apply String.eqb_refl. Qed.

Context {V : Type}.

Lemma get_set_same (k : JsValue) (v : V) (m : JsMap.t V) :
  Js.sameValueZero k k = true -> JsMap.get k (JsMap.set k v m) = Some v.
Proof.
  intros Hk. induction m as [|[k' v'] m IH]; simpl.
  - now rewrite Hk.
  - destruct (Js.sameValueZero k' k) eqn:E; simpl; now rewrite E.
Qed.

Lemma get_set_other (k k' : JsValue) (v : V) (m : JsMap.t V) :
  Js.sameValueZero k k' = false ->
  JsMap.get k' (JsMap.set k v m) = JsMap.get k' m.
Proof.
  intros Hk. induction m as [|[k0 v0] m IH]; simpl.
  - now rewrite Hk.
  - destruct (Js.sameValueZero k0 k) eqn:E; simpl.
    + apply sameValueZero_eq in E. subst k0. now rewrite Hk.
    + now rewrite IH.
Qed.

Lemma get_in (k : JsValue) (v : V) (m : JsMap.t V) :
  JsMap.get k m = Some v -> exists k', In (k', v) m /\ Js.sameValueZero k' k = true.
Proof.
  induction m as [|[k0 v0] m IH]; simpl; [discriminate|].
  destruct (Js.sameValueZero k0 k) eqn:E; intros H.
  - inversion H; subst. exists k0. auto.
  - destruct (IH H) as (k' & Hin & Hk). exists k'. auto.
Qed.

Lemma in_set (k : JsValue) (v : V) (m : JsMap.t V) (k' : JsValue) (v' : V) :
  In (k', v') (JsMap.set k v m) -> In (k', v') m \/ (k' = k /\ v' = v).
Proof.
  induction m as [|[k0 v0] m IH]; simpl.
  - intros [H|[]]. inversion H. auto.
  - destruct (Js.sameValueZero k0 k) eqn:E; simpl.
    + intros [H|H]; [|auto]. inversion H; subst.
      apply sameValueZero_eq in E. auto.
    + intros [H|H]; [auto|]. destruct (IH H); auto.
Qed.

Lemma distinctKeys_set (k : JsValue) (v : V) (m : JsMap.t V) :
  distinctKeys m -> distinctKeys (JsMap.set k v m).
Proof.
  induction m as [|[k0 v0] m IH]; simpl.
  - intros _. split; [contradiction | exact I].
  - intros [Hd Hm]. destruct (Js.sameValueZero k0 k) eqn:E; simpl.
    + split; assumption.
    + split; [|now apply IH].
      intros k' v' Hin. destruct (in_set _ _ _ _ _ Hin) as [H|[-> _]]; eauto.
Qed.

Lemma distinctKeys_get (k : JsValue) (v : V) (m : JsMap.t V) :
  distinctKeys m -> In (k, v) m -> Js.sameValueZero k k = true ->
  JsMap.get k m = Some v.
Proof.
  induction m as [|[k0 v0] m IH]; simpl; [contradiction|].
  intros [Hd Hm] [Hin|Hin] Hk.
  - inversion Hin; subst. now rewrite Hk.
  - rewrite (Hd _ _ Hin). now apply IH.
Qed.

End MapFacts.

(* ===================================================================== *)
(** ** Facts about the merge *)
(* ===================================================================== *)

Section MergeFacts.
Import Discovery.

Lemma insertAgent_get_custom (a : AgentDefinition) (c : JsMap.t AgentDefinition) :
  isCustom a = true -> Js.sameValueZero (name a) (name a) = true ->
  JsMap.get (name a) (insertAgent a c) = Some a.
Proof.
  intros Hc Hk. unfold insertAgent. rewrite Hc.
  destruct (JsMap.get (name a) c); now apply get_set_same.
Qed.

Lemma insertAgent_get_other (a : AgentDefinition) (c : JsMap.t AgentDefinition)
  (k : JsValue) :
  Js.sameValueZero (name a) k = false ->
  JsMap.get k (insertAgent a c) = JsMap.get k c.
Proof.
  intros Hk. unfold insertAgent.
  destruct (JsMap.get (name a) c); [destruct (isCustom a)|];
    try reflexivity; now apply get_set_other.
Qed.

Lemma insertAgent_keeps (a d : AgentDefinition) (c : JsMap.t AgentDefinition) :
  isCustom a = false -> JsMap.get (name a) c = Some d ->
  insertAgent a c = c.
Proof. intros Hc Hg. unfold insertAgent. now rewrite Hg, Hc. Qed.

Lemma insertAgent_distinct (a : AgentDefinition) (c : JsMap.t AgentDefinition) :
  distinctKeys c -> distinctKeys (insertAgent a c).
Proof.
  intros H. unfold insertAgent.
  destruct (JsMap.get (name a) c); [destruct (isCustom a)|];
    try assumption; now apply distinctKeys_set.
Qed.

Lemma insertAgent_keyed (a : AgentDefinition) (c : JsMap.t AgentDefinition) :
  keyedByName c -> keyedByName (insertAgent a c).
Proof.
  intros H. unfold insertAgent.
  assert (Hs : keyedByName (JsMap.set (name a) a c)).
  { intros k d Hin. destruct (in_set _ _ _ _ _ Hin) as [Hin'|[-> ->]]; auto. }
  destruct (JsMap.get (name a) c); [destruct (isCustom a)|]; assumption.
Qed.

Lemma insertAgent_in (a : AgentDefinition) (c : JsMap.t AgentDefinition)
  (k : JsValue) (d : AgentDefinition) :
  In (k, d) (insertAgent a c) -> In (k, d) c \/ d = a.
Proof.
  unfold insertAgent. intros H.
  destruct (JsMap.get (name a) c); [destruct (isCustom a)|]; auto;
    destruct (in_set _ _ _ _ _ H) as [?|[_ ->]]; auto.
Qed.

Lemma mergeInto_app (c : JsMap.t AgentDefinition) (xs ys : list AgentDefinition) :
  mergeInto c (xs ++ ys) = mergeInto (mergeInto c xs) ys.
Proof. unfold mergeInto. apply fold_left_app. Qed.

Lemma mergeInto_distinct (ds : list AgentDefinition) (c : JsMap.t AgentDefinition) :
  distinctKeys c -> distinctKeys (mergeInto c ds).
Proof.
  revert c; induction ds as [|a ds IH]; intros c H; simpl; [assumption|].
  apply IH. now apply insertAgent_distinct.
Qed.

Lemma mergeInto_keyed (ds : list AgentDefinition) (c : JsMap.t AgentDefinition) :
  keyedByName c -> keyedByName (mergeInto c ds).
Proof.
  revert c; induction ds as [|a ds IH]; intros c H; simpl; [assumption|].
  apply IH. now apply insertAgent_keyed.
Qed.

(** Once a name is taken by [d], definitions that are not custom ones of
    that name leave it with [d]. *)
Lemma mergeInto_stays (k : JsValue) (d : AgentDefinition)
  (after : list AgentDefinition) (c : JsMap.t AgentDefinition) :
  JsMap.get k c = Some d ->
  (forall d', In d' after -> isCustom d' = true ->
              Js.sameValueZero (name d') k = false) ->
  JsMap.get k (mergeInto c after) = Some d.
Proof.
  revert c; induction after as [|a after IH]; intros c Hg Hno; simpl; [assumption|].
  apply IH; [|intros d' Hin; apply Hno; now right].
  destruct (Js.sameValueZero (name a) k) eqn:E.
  - destruct (isCustom a) eqn:Ca.
    + rewrite (Hno a (or_introl eq_refl) Ca) in E. discriminate.
    + apply sameValueZero_eq in E. subst k.
      now rewrite (insertAgent_keeps a d c Ca Hg).
  - now rewrite insertAgent_get_other.
Qed.

(** The last custom definition of a name is the one the pass retains. *)
Lemma mergeInto_last_custom (k : JsValue) (d : AgentDefinition)
  (before after : list AgentDefinition) (c : JsMap.t AgentDefinition) :
  isCustom d = true -> name d = k -> Js.sameValueZero k k = true ->
  (forall d', In d' after -> isCustom d' = true ->
              Js.sameValueZero (name d') k = false) ->
  JsMap.get k (mergeInto c (before ++ d :: after)) = Some d.
Proof.
  intros Hc Hn Hk Hno. rewrite mergeInto_app. simpl.
  apply mergeInto_stays; [|assumption].
  subst k. now apply insertAgent_get_custom.
Qed.

(** The last element of a list that satisfies a test. *)
Lemma last_satisfying {A : Type} (p : A -> bool) (l : list A) (x : A) :
  In x l -> p x = true ->
  exists before d after,
    l = (before ++ d :: after)%list /\ p d = true
    /\ forall y, In y after -> p y = false.
Proof.
  revert x. induction l as [|a l IH]; intros x Hin Hp; [contradiction|].
  destruct (existsb p l) eqn:E.
  - apply existsb_exists in E as (y & Hy & Hpy).
    destruct (IH y Hy Hpy) as (b & d & af & -> & Hd & Haf).
    exists (a :: b), d, af. auto.
  - assert (Hall : forall y, In y l -> p y = false).
    { intros y Hy. destruct (p y) eqn:Py; [|reflexivity].
      assert (existsb p l = true) by (apply existsb_exists; eauto).
      congruence. }
    destruct Hin as [->|Hin]; [|rewrite (Hall _ Hin) in Hp; discriminate].
    exists [], x, l. auto.
Qed.


(** At most one definition of a snapshot has a given name. *)
Lemma countNamed_le_1 (n : JsValue) (m : JsMap.t AgentDefinition) :
  distinctKeys m -> keyedByName m -> (countNamed n m <= 1)%nat.
Proof.
  unfold countNamed, JsMap.values.
  induction m as [|[k v] m IH]; intros Hd Hk; simpl; [lia|].
  destruct Hd as [Hd Hm].
  assert (Hk' : keyedByName m) by (intros k' d' H; apply Hk; now right).
  specialize (IH Hm Hk').
  destruct (Js.sameValueZero (name v) n) eqn:E; [|exact IH].
  apply sameValueZero_eq in E.
  assert (Hnil : filter (fun d => Js.sameValueZero (name d) n) (map snd m) = []).
  { clear IH. induction m as [|[k' v'] m IHm]; simpl; [reflexivity|].
    assert (Js.sameValueZero (name v') n = false) as ->.
    { rewrite <- (Hk' k' v' (or_introl eq_refl)).
      rewrite sameValueZero_sym, <- E, <- (Hk k v (or_introl eq_refl)).
      apply (Hd k' v'). now left. }
    apply IHm.
    - intros k2 v2 H2. apply (Hd k2 v2). now right.
    - now destruct Hm.
    - intros k2 v2 [H2|H2]; apply Hk; [now left | right; now right].
    - intros k2 v2 H2. apply Hk'. now right. }
  simpl. rewrite Hnil. simpl. lia.
Qed.

End MergeFacts.

(* ===================================================================== *)
(** ** Facts about the loader *)
(* ===================================================================== *)

Section LoaderFacts.
Import CustomAgentLoader Discovery.

Variable w : World.

(** [parseAgentFile] never throws, returns the same definition in every
    state and touches the error list only. *)
Lemma parseAgentFile_run (f b : string) (st : Loader) :
  fst (parseAgentFile w f b st) = Ok (parsedAgent w f b)
  /\ agentCache (snd (parseAgentFile w f b st)) = agentCache st
  /\ lastLoadTime (snd (parseAgentFile w f b st)) = lastLoadTime st
  /\ scans (snd (parseAgentFile w f b st)) = scans st
  /\ searchPaths (snd (parseAgentFile w f b st)) = searchPaths st.
Proof.
  unfold parsedAgent, parseAgentFile, tryCatch, bind, lift, pushLoadError,
    modify, ret.
  destruct (Fs.readFileSync w f) as [content|e]; [|simpl; auto].
  destruct (parseFrontmatter w content) as [fm body].
  destruct (negb (Js.truthy fm)); [simpl; auto|].
  match goal with |- context [negb (Js.truthy ?n)] =>
    destruct (negb (Js.truthy n)) end; simpl; auto.
Qed.

(** The fields of a definition, in terms of the file and of its root. *)
Lemma parsedAgent_some (f b : string) (d : AgentDefinition) :
  parsedAgent w f b = Some d ->
  exists content,
    Fs.readFileSync w f = Ok content
    /\ Js.truthy (fst (parseFrontmatter w content)) = true
    /\ Js.truthy (name d) = true
    /\ name d =
         Js.or (Js.prop (fst (parseFrontmatter w content)) "name")
           (JStr (Str.hyphenate (Str.toLowerCase (Path.basenameExt f ".md"))))
    /\ priority d =
         Js.or (Js.prop (fst (parseFrontmatter w content)) "priority") (JStr "medium")
    /\ systemPrompt d = snd (parseFrontmatter w content)
    /\ sourcePath d = f
    /\ category d = extractCategory f b
    /\ isCustom d = Str.includes b ".claude-flow".
Proof.
  unfold parsedAgent, parseAgentFile, tryCatch, bind, lift, pushLoadError,
    modify, ret.
  destruct (Fs.readFileSync w f) as [content|e]; [|simpl; discriminate].
  destruct (parseFrontmatter w content) as [fm body] eqn:P.
  destruct (Js.truthy fm) eqn:T; [|simpl; discriminate].
  cbn [negb].
  match goal with |- context [negb (Js.truthy ?n)] =>
    destruct (Js.truthy n) eqn:Tn end; simpl; [|discriminate].
  intros H. inversion H; subst d; clear H.
  exists content. rewrite P. simpl. repeat split; auto.
Qed.

Lemma cacheAgent_run (a : AgentDefinition) (st : Loader) :
  fst (cacheAgent a st) = Ok tt
  /\ agentCache (snd (cacheAgent a st)) = insertAgent a (agentCache st)
  /\ lastLoadTime (snd (cacheAgent a st)) = lastLoadTime st
  /\ scans (snd (cacheAgent a st)) = scans st
  /\ searchPaths (snd (cacheAgent a st)) = searchPaths st.
Proof.
  unfold cacheAgent, insertAgent, bind, gets, modify, ret.
  destruct (JsMap.get (name a) (agentCache st)); [destruct (isCustom a)|];
    simpl; auto.
Qed.

Lemma fileBody_run (root f : string) (st : Loader) :
  fst (fileBody w root f st) = Ok tt
  /\ agentCache (snd (fileBody w root f st)) =
       mergeInto (agentCache st)
         (match parsedAgent w f root with Some a => [a] | None => [] end)
  /\ lastLoadTime (snd (fileBody w root f st)) = lastLoadTime st
  /\ scans (snd (fileBody w root f st)) = scans st
  /\ searchPaths (snd (fileBody w root f st)) = searchPaths st.
Proof.
  unfold fileBody, bind.
  destruct (parseAgentFile_run f root st) as (R & C & T & S & P).
  destruct (parseAgentFile w f root st) as [r st1].
  simpl in R, C, T, S, P. subst r.
  destruct (parsedAgent w f root) as [a|].
  - destruct (cacheAgent_run a st1) as (R' & C' & T' & S' & P').
    rewrite R', C', T', S', P'. simpl. rewrite C. auto.
  - simpl. auto.
Qed.

(** The inner loop: the files of one root. *)
Lemma files_loop (root : string) (files : list string) (st : Loader) :
  fst (forEach files (fileBody w root) st) = Ok tt
  /\ agentCache (snd (forEach files (fileBody w root) st)) =
       mergeInto (agentCache st)
         (flat_map
            (fun f => match parsedAgent w f root with Some a => [a] | None => [] end)
            files)
  /\ lastLoadTime (snd (forEach files (fileBody w root) st)) = lastLoadTime st
  /\ scans (snd (forEach files (fileBody w root) st)) = scans st
  /\ searchPaths (snd (forEach files (fileBody w root) st)) = searchPaths st.
Proof.
  revert st; induction files as [|f files IH]; intros st; simpl; [auto|].
  unfold bind.
  destruct (fileBody_run root f st) as (R & C & T & S & P).
  destruct (fileBody w root f st) as [r st1].
  simpl in R, C, T, S, P. subst r.
  destruct (IH st1) as (R' & C' & T' & S' & P').
  rewrite mergeInto_app, <- C. repeat split; congruence.
Qed.

(** One turn of the outer loop. *)
Lemma rootBody_run (root : string) (st : Loader) :
  lastLoadTime (snd (rootBody w root st)) = lastLoadTime st
  /\ scans (snd (rootBody w root st)) = scans st
  /\ searchPaths (snd (rootBody w root st)) = searchPaths st
  /\ match findMarkdownFiles w root with
     | Ok _ =>
         fst (rootBody w root st) = Ok tt
         /\ agentCache (snd (rootBody w root st)) =
              mergeInto (agentCache st) (agentsUnder w root)
     | Throw e =>
         fst (rootBody w root st) = Throw e
         /\ agentCache (snd (rootBody w root st)) = agentCache st
     end.
Proof.
  unfold rootBody, bind, lift, agentsUnder, filesOf.
  destruct (findMarkdownFiles w root) as [files|e]; [|simpl; auto].
  destruct (files_loop root files st) as (R & C & T & S & P).
  repeat split; assumption.
Qed.

(** The outer loop over the roots. *)
Lemma roots_loop (roots : list string) (st : Loader) :
  lastLoadTime (snd (forEach roots (rootBody w) st)) = lastLoadTime st
  /\ scans (snd (forEach roots (rootBody w) st)) = scans st
  /\ searchPaths (snd (forEach roots (rootBody w) st)) = searchPaths st
  /\ (exists ds,
        agentCache (snd (forEach roots (rootBody w) st)) =
        mergeInto (agentCache st) ds)
  /\ (fst (forEach roots (rootBody w) st) = Ok tt <->
      forall p, In p roots -> exists files, findMarkdownFiles w p = Ok files)
  /\ (fst (forEach roots (rootBody w) st) = Ok tt ->
      agentCache (snd (forEach roots (rootBody w) st)) =
      mergeInto (agentCache st) (discoveredIn w roots)).
Proof.
  revert st; induction roots as [|root roots IH]; intros st; simpl.
  - repeat split; auto; try (exists []; reflexivity); try contradiction.
  - unfold bind.
    destruct (rootBody_run root st) as (T & S & P & H).
    destruct (rootBody w root st) as [r st1]. simpl in T, S, P, H.
    destruct (findMarkdownFiles w root) as [files|e] eqn:F.
    + destruct H as [-> C].
      destruct (IH st1) as (T' & S' & P' & (ds & D') & O' & C').
      split; [congruence|]. split; [congruence|]. split; [congruence|].
      split; [|split].
      * exists (agentsUnder w root ++ ds)%list.
        now rewrite mergeInto_app, <- C.
      * rewrite O'. split.
        -- intros Hall p [<-|Hp]; [eauto | auto].
        -- intros Hall p Hp. apply Hall. now right.
      * intros Hok. unfold discoveredIn in *. simpl.
        now rewrite mergeInto_app, <- C, C'.
    + destruct H as [-> C]. simpl.
      split; [assumption|]. split; [assumption|]. split; [assumption|].
      split; [|split].
      * exists []. exact C.
      * split; [discriminate|].
        intros Hall. destruct (Hall root (or_introl eq_refl)) as [files Hf].
        congruence.
      * discriminate.
Qed.

(** The upward walk does not depend on the fuel once the fuel exceeds
    the length of the directory it starts from. *)
Lemma walkUp_enough_fuel (fuel extra : nat) (rest : string) :
  (String.length (String "/" rest) < fuel)%nat ->
  walkUp w (fuel + extra) (String "/" rest) = walkUp w fuel (String "/" rest).
Proof.
  revert rest; induction fuel as [|fuel IH]; intros rest Hlt; [lia|].
  cbn [walkUp Nat.add].
  destruct (String.eqb (String "/" rest) "/") eqn:E1; [reflexivity|].
  cbn [orb].
  destruct (String.eqb (String "/" rest) (Path.dirname (String "/" rest)));
    [reflexivity|].
  destruct (0 <? length (rootsAt w (String "/" rest)))%nat; [reflexivity|].
  assert (Hne : rest <> EmptyString) by (intros ->; discriminate).
  destruct (dirname_shorter rest Hne) as (Hs & rest' & E).
  rewrite E in *. apply IH. lia.
Qed.

(** The search paths are the candidate roots of one directory. *)
Lemma getSearchPaths_shape :
  exists dir, getSearchPaths w = rootsAt w dir.
Proof.
  unfold getSearchPaths.
  assert (G : forall fuel dir,
             walkUp w fuel dir = [] \/ exists d, walkUp w fuel dir = rootsAt w d).
  { induction fuel as [|fuel IH]; intros dir; simpl; [auto|].
    destruct (String.eqb dir "/" || String.eqb dir (Path.dirname dir)); [auto|].
    destruct (0 <? length (rootsAt w dir))%nat; [right; eauto | apply IH]. }
  destruct (G (S (S (String.length (cwd w)))) (cwd w)) as [->|(d & ->)].
  - simpl. eauto.
  - destruct (length (rootsAt w d) =? 0)%nat; eauto.
Qed.

(** The definitions read under a root carry that root's flag and come from
    its files. *)
Lemma agentsUnder_origin (root : string) (d : AgentDefinition) :
  In d (agentsUnder w root) ->
  isCustom d = Str.includes root ".claude-flow"
  /\ In (sourcePath d) (filesOf w root).
Proof.
  unfold agentsUnder. intros H. apply in_flat_map in H as (f & Hf & Hd).
  destruct (parsedAgent w f root) as [a|] eqn:P; [|contradiction].
  destruct Hd as [->|[]].
  destruct (parsedAgent_some f root d P)
    as (content & _ & _ & _ & _ & _ & _ & Sp & _ & K).
  rewrite Sp. auto.
Qed.


Lemma loadAgents_unfold (now : Z) (st : Loader) :
  loadAgents w now st =
  match
    forEach (rev (getSearchPaths w)) (rootBody w)
      {| agentCache := JsMap.empty; lastLoadTime := lastLoadTime st;
         searchPaths := getSearchPaths w; loadErrors := [];
         scans := S (scans st) |}
  with
  | (Ok _, st2) => (Ok tt, withLastLoadTime now st2)
  | (Throw e, st2) => (Throw e, st2)
  end.
Proof. reflexivity. Qed.

(** What a discovery pass does to the state. *)
Lemma loadAgents_run (now : Z) (st : Loader) :
  scans (snd (loadAgents w now st)) = S (scans st)
  /\ searchPaths (snd (loadAgents w now st)) = getSearchPaths w
  /\ (exists ds, agentCache (snd (loadAgents w now st)) = mergeAgents ds)
  /\ (fst (loadAgents w now st) = Ok tt <-> rootsListable w)
  /\ (fst (loadAgents w now st) = Ok tt ->
      agentCache (snd (loadAgents w now st)) = mergeAgents (discovered w)
      /\ lastLoadTime (snd (loadAgents w now st)) = now)
  /\ (fst (loadAgents w now st) <> Ok tt ->
      lastLoadTime (snd (loadAgents w now st)) = lastLoadTime st).
Proof.
  rewrite loadAgents_unfold.
  match goal with |- context [forEach ?r ?b ?s] =>
    destruct (roots_loop r s) as (T & S & P & (ds & D) & O & C);
    destruct (forEach r b s) as [res st2] end.
  simpl in T, S, P, D, O, C.
  assert (L : (forall p, In p (rev (getSearchPaths w)) ->
                 exists files, findMarkdownFiles w p = Ok files)
              <-> rootsListable w).
  { unfold rootsListable. split; intros H p Hp; apply H.
    - now apply in_rev in Hp.
    - now apply in_rev. }
  destruct res as [[]|e]; simpl.
  - split; [assumption|]. split; [assumption|]. split; [eauto|].
    split; [rewrite <- L, <- O; tauto|]. split; [|congruence].
    intros _. split; [now apply C | reflexivity].
  - split; [assumption|]. split; [assumption|]. split; [eauto|].
    split; [|split; [discriminate | intros _; assumption]].
    rewrite <- L, <- O. split; discriminate.
Qed.

(** A snapshot that is not empty and not older than the time-to-live is
    served as it is. *)
Lemma ensureLoaded_fresh (now : Z) (st : Loader) :
  agentCache st <> [] -> now - lastLoadTime st <= cacheExpiry ->
  ensureLoaded w now st = (Ok tt, st).
Proof.
  intros Hne Hfresh. unfold ensureLoaded, bind, gets, needsRefresh.
  destruct (agentCache st) as [|e c] eqn:E; [congruence|].
  simpl. destruct (Z.ltb_spec cacheExpiry (now - lastLoadTime st)); [lia|].
  reflexivity.
Qed.

(** An empty or expired snapshot is rebuilt. *)
Lemma ensureLoaded_stale (now : Z) (st : Loader) :
  agentCache st = [] \/ cacheExpiry < now - lastLoadTime st ->
  ensureLoaded w now st = loadAgents w now st.
Proof.
  intros H. unfold ensureLoaded, bind, gets, needsRefresh.
  destruct H as [H|H].
  - rewrite H. reflexivity.
  - apply Z.ltb_lt in H. rewrite H, orb_true_r. reflexivity.
Qed.

Lemma ensureLoaded_cases (now : Z) (st : Loader) :
  (agentCache st <> [] /\ now - lastLoadTime st <= cacheExpiry)
  \/ (agentCache st = [] \/ cacheExpiry < now - lastLoadTime st).
Proof.
  destruct (agentCache st); [right; now left|].
  destruct (Z.le_gt_cases (now - lastLoadTime st) cacheExpiry);
    [left; split; [discriminate | assumption] | right; now right].
Qed.

Lemma mergeAgents_ok (ds : list AgentDefinition) :
  distinctKeys (mergeAgents ds) /\ keyedByName (mergeAgents ds).
Proof.
  split; [apply mergeInto_distinct | apply mergeInto_keyed].
  - exact I.
  - intros k d [].
Qed.

End LoaderFacts.

(* ===================================================================== *)
(** ** Discovery: uniqueness and precedence *)
(* ===================================================================== *)

Section DiscoveryTheorems.
Import CustomAgentLoader Discovery.









(** C9. A custom definition always goes into the cache under its name,
    whatever was there; so in a completed pass the last custom definition
    of a name is the entry of that name. *)
Theorem last_custom_definition_wins (w : World) (now : Z) (st : Loader) :
  (forall a st0,
      isCustom a = true -> Js.sameValueZero (name a) (name a) = true ->
      JsMap.get (name a) (agentCache (snd (cacheAgent a st0))) = Some a)
  /\ (fst (loadAgents w now st) = Ok tt ->
      forall before d after k,
        discovered w = (before ++ d :: after)%list ->
        isCustom d = true -> name d = k -> Js.sameValueZero k k = true ->
        (forall d', In d' after -> isCustom d' = true ->
                    Js.sameValueZero (name d') k = false) ->
        JsMap.get k (agentCache (snd (loadAgents w now st))) = Some d).
Proof.
  split.
  - intros a st0 Ca Ka.
    destruct (cacheAgent_run a st0) as (_ & C & _). rewrite C.
    now apply insertAgent_get_custom.
  - intros Hok before d after k E Cd Nd Hk Hno.
    destruct (loadAgents_run w now st) as (_ & _ & _ & _ & C & _).
    destruct (C Hok) as [-> _]. unfold mergeAgents. rewrite E.
    now apply mergeInto_last_custom.
Qed.


(** The sample with two custom files that name [coder]: the second one is
    the entry. *)
Lemma last_custom_definition_wins_witness :
  fst (loadAgents Sample.twoCustomFiles 1000 (initial Sample.twoCustomFiles)) = Ok tt
  /\ discovered Sample.twoCustomFiles
     = ([Sample.firstCoder] ++ Sample.secondCoder :: [])%list
  /\ JsMap.get (JStr "coder")
       (agentCache
          (snd (loadAgents Sample.twoCustomFiles 1000 (initial Sample.twoCustomFiles))))
     = Some Sample.secondCoder
  /\ JsMap.get (name Sample.secondCoder)
       (agentCache
          (snd (cacheAgent Sample.secondCoder
                  (withCache (fun _ => [(JStr "coder", Sample.firstCoder)])
                     (initial Sample.twoCustomFiles)))))
     = Some Sample.secondCoder.
Proof.
  destruct (last_custom_definition_wins Sample.twoCustomFiles 1000
              (initial Sample.twoCustomFiles)) as [Hstep Hpass].
  assert (Hok : fst (loadAgents Sample.twoCustomFiles 1000
                       (initial Sample.twoCustomFiles)) = Ok tt)
    by (vm_compute; reflexivity).
  assert (E : discovered Sample.twoCustomFiles
              = ([Sample.firstCoder] ++ Sample.secondCoder :: [])%list)
    by (vm_compute; reflexivity).
  split; [exact Hok|]. split; [exact E|]. split.
  - apply (Hpass Hok [Sample.firstCoder] Sample.secondCoder [] (JStr "coder") E);
      try reflexivity.
    intros d' [].
  - apply Hstep; reflexivity.
Defined.


End DiscoveryTheorems.

(* ===================================================================== *)
(** ** The time-bounded cache *)
(* ===================================================================== *)

Section CacheTheorems.
Import CustomAgentLoader Discovery Freshness.

(** A read that makes one ensure-fresh step leaves the state that step
    leaves. *)
Lemma afterRead_ensureLoaded (w : World) (now : Z) (r : Read) (st : Loader) :
  afterRead w now r st = snd (ensureLoaded w now st).
Proof.
  destruct r;
    unfold afterRead, getAgentsByCategory, getAgentsByType, getCustomAgents,
      getBuiltInAgents, searchAgents, getAgent, hasAgent, getAllAgents,
      bind, gets, lift, ret;
    destruct (ensureLoaded w now st) as [[u|e] st1]; simpl; try reflexivity;
    destruct (sortBy _ _) as [l|e]; simpl; try reflexivity;
    destruct (filterR _ _); reflexivity.
Qed.

Lemma ensureLoaded_scans (w : World) (now : Z) (st : Loader) :
  agentCache st = [] \/ cacheExpiry < now - lastLoadTime st ->
  scans (snd (ensureLoaded w now st)) = S (scans st).
Proof.
  intros H. rewrite (ensureLoaded_stale w now st H).
  now destruct (loadAgents_run w now st) as (S & _).
Qed.

(** The two ensure-fresh steps of [statsListing] when the first one runs a
    pass. *)
Lemma statsListing_scans (w : World) (now : Z) (st : Loader) :
  agentCache st = [] \/ cacheExpiry < now - lastLoadTime st ->
  (fst (loadAgents w now st) <> Ok tt ->
   scans (snd (statsListing w now st)) = S (scans st))
  /\ (fst (loadAgents w now st) = Ok tt -> mergeAgents (discovered w) <> [] ->
      scans (snd (statsListing w now st)) = S (scans st))
  /\ (fst (loadAgents w now st) = Ok tt -> mergeAgents (discovered w) = [] ->
      scans (snd (statsListing w now st)) = S (S (scans st))).
Proof.
  intros H.
  pose proof (afterRead_ensureLoaded w now ReadAllAgents) as A. simpl in A.
  unfold statsListing, bind. rewrite (ensureLoaded_stale w now st H).
  destruct (loadAgents_run w now st) as (S1 & _ & _ & _ & C & _).
  destruct (loadAgents w now st) as [[[]|e] st1] eqn:E; simpl in *.
  - destruct (C eq_refl) as [Hc Ht].
    split; [congruence|]. rewrite A. split; intros _ Hm.
    + rewrite ensureLoaded_fresh; [exact S1| congruence |].
      rewrite Ht. unfold cacheExpiry. lia.
    + rewrite ensureLoaded_scans; [now rewrite S1|]. left. congruence.
  - split; [intros _; exact S1|]. split; discriminate.
Qed.

(** C3, as the code has it. The time-to-live is 60000 ms.  A read that
    makes one ensure-fresh step ([getAgent], [hasAgent], [getAllAgents],
    [searchAgents], [getAgentsByCategory], [getAgentsByType],
    [getCustomAgents], [getBuiltInAgents]) leaves the state that step
    leaves.
    - On a snapshot that is not empty and not older than the time-to-live
      the step changes nothing, so such a read is served from that snapshot
      without a scan, and so is the read after it within the time-to-live.
    - On an empty snapshot the step runs a discovery pass, however recent
      the last one; such a read is one pass.
    - On a snapshot older than the time-to-live the step runs a discovery
      pass; such a read is exactly one pass.
    - The two steps [getStats] begins with are one pass on a snapshot older
      than the time-to-live when the pass fails or leaves a snapshot that is
      not empty, and two passes when it leaves an empty one. *)
Theorem cache_expiry (w : World) (now : Z) (st : Loader) :
  cacheExpiry = 60000
  /\ (forall r, afterRead w now r st = snd (ensureLoaded w now st))
  /\ (agentCache st <> [] -> now - lastLoadTime st <= cacheExpiry ->
      ensureLoaded w now st = (Ok tt, st)
      /\ (forall n,
            getAgent w now n st = (Ok (JsMap.get (JStr n) (agentCache st)), st)
            /\ hasAgent w now n st = (Ok (JsMap.has (JStr n) (agentCache st)), st))
      /\ getAllAgents w now st
         = (sortBy (fun a b => compareNames w (name a) (name b))
              (JsMap.values (agentCache st)), st)
      /\ (forall r, afterRead w now r st = st)
      /\ (forall w' now' r r',
            now' - lastLoadTime st <= cacheExpiry ->
            afterRead w' now' r' (afterRead w now r st) = st))
  /\ (agentCache st = [] ->
      ensureLoaded w now st = loadAgents w now st
      /\ forall r, scans (afterRead w now r st) = S (scans st))
  /\ (cacheExpiry < now - lastLoadTime st ->
      ensureLoaded w now st = loadAgents w now st
      /\ (forall r, scans (afterRead w now r st) = S (scans st))
      /\ (fst (loadAgents w now st) <> Ok tt ->
          scans (snd (statsListing w now st)) = S (scans st))
      /\ (fst (loadAgents w now st) = Ok tt -> mergeAgents (discovered w) <> [] ->
          scans (snd (statsListing w now st)) = S (scans st))
      /\ (fst (loadAgents w now st) = Ok tt -> mergeAgents (discovered w) = [] ->
          scans (snd (statsListing w now st)) = S (S (scans st)))).
Proof.
  split; [reflexivity|].
  split; [intros r; apply afterRead_ensureLoaded|].
  split; [|split].
  - intros Hne Hfresh.
    pose proof (ensureLoaded_fresh w now st Hne Hfresh) as F.
    split; [exact F|]. split; [|split; [|split]].
    + intros n. unfold getAgent, hasAgent, bind, gets. now rewrite F.
    + unfold getAllAgents, bind, gets, lift. now rewrite F.
    + intros r. now rewrite afterRead_ensureLoaded, F.
    + intros w' now' r r' Hfresh'.
      rewrite (afterRead_ensureLoaded w now r), F. simpl.
      now rewrite afterRead_ensureLoaded, (ensureLoaded_fresh w' now' st Hne Hfresh').
  - intros He. split; [apply ensureLoaded_stale; now left|].
    intros r. rewrite afterRead_ensureLoaded. apply ensureLoaded_scans. now left.
  - intros Hs. split; [apply ensureLoaded_stale; now right|].
    split.
    + intros r. rewrite afterRead_ensureLoaded. apply ensureLoaded_scans. now right.
    + apply statsListing_scans. now right.
Qed.

(** C4, as the code has it. A forced refresh sets the time of last refresh
    to zero and runs one discovery pass itself, whatever the time of last
    refresh was.  When the pass fails, the time of last refresh stays zero.
    When the pass completes, the time of last refresh is the time of that
    pass, not zero, and the next ensure-fresh step rebuilds exactly when the
    snapshot is empty or older than the time-to-live. *)
Theorem refresh_rebuilds_at_once (w : World) (now : Z) (st : Loader) :
  refresh w now st = loadAgents w now (withLastLoadTime 0 st)
  /\ lastLoadTime (withLastLoadTime 0 st) = 0
  /\ scans (snd (refresh w now st)) = S (scans st)
  /\ (fst (refresh w now st) <> Ok tt ->
      lastLoadTime (snd (refresh w now st)) = 0)
  /\ (fst (refresh w now st) = Ok tt ->
      lastLoadTime (snd (refresh w now st)) = now
      /\ agentCache (snd (refresh w now st)) = mergeAgents (discovered w)
      /\ forall w' now',
           (agentCache (snd (refresh w now st)) <> [] ->
            now' - now <= cacheExpiry ->
            ensureLoaded w' now' (snd (refresh w now st))
            = (Ok tt, snd (refresh w now st)))
           /\ (agentCache (snd (refresh w now st)) = []
               \/ cacheExpiry < now' - now ->
               ensureLoaded w' now' (snd (refresh w now st))
               = loadAgents w' now' (snd (refresh w now st))
               /\ scans (snd (ensureLoaded w' now' (snd (refresh w now st))))
                  = S (S (scans st)))).
Proof.
  assert (E : refresh w now st = loadAgents w now (withLastLoadTime 0 st))
    by reflexivity.
  split; [exact E|]. split; [reflexivity|]. rewrite E.
  destruct (loadAgents_run w now (withLastLoadTime 0 st))
    as (S & _ & _ & _ & C & F).
  split; [exact S|]. split; [exact F|].
  intros Hok. destruct (C Hok) as [Hc Ht].
  split; [exact Ht|]. split; [exact Hc|].
  intros w' now'. split.
  - intros Hne Hfresh. apply ensureLoaded_fresh; [exact Hne|]. now rewrite Ht.
  - intros Hstale.
    assert (Hstale' : agentCache (snd (loadAgents w now (withLastLoadTime 0 st))) = []
                      \/ cacheExpiry
                         < now' - lastLoadTime
                                    (snd (loadAgents w now (withLastLoadTime 0 st))))
      by (rewrite Ht; exact Hstale).
    split; [now apply ensureLoaded_stale|].
    rewrite ensureLoaded_scans by exact Hstale'. now rewrite S.
Qed.

(** A snapshot loaded at time 1000 is served unchanged at time 61000, also
    to a second read, and rebuilt by a read at time 61001; an empty
    snapshot is rebuilt by a read one millisecond after the pass; the two
    steps of [getStats] at time 61001 are one pass where agents are found
    and two where none is. *)
Lemma cache_expiry_witness :
  agentCache (snd (loadAgents Sample.twoRoots 1000 (initial Sample.twoRoots))) <> []
  /\ 61000 - lastLoadTime (snd (loadAgents Sample.twoRoots 1000 (initial Sample.twoRoots)))
     <= cacheExpiry
  /\ getAgent Sample.noRoots 61000 "coder"
       (snd (loadAgents Sample.twoRoots 1000 (initial Sample.twoRoots)))
     = (Ok (Some Sample.customCoder),
        snd (loadAgents Sample.twoRoots 1000 (initial Sample.twoRoots)))
  /\ afterRead Sample.noRoots 61000 (ReadSearch "helper")
       (afterRead Sample.noRoots 61000 (ReadAgent "coder")
          (snd (loadAgents Sample.twoRoots 1000 (initial Sample.twoRoots))))
     = snd (loadAgents Sample.twoRoots 1000 (initial Sample.twoRoots))
  /\ cacheExpiry
     < 61001 - lastLoadTime (snd (loadAgents Sample.twoRoots 1000 (initial Sample.twoRoots)))
  /\ scans
       (afterRead Sample.twoRoots 61001 ReadAllAgents
          (snd (loadAgents Sample.twoRoots 1000 (initial Sample.twoRoots))))
     = 2%nat
  /\ agentCache (snd (loadAgents Sample.noRoots 1000 (initial Sample.noRoots))) = []
  /\ scans
       (afterRead Sample.noRoots 1001 (ReadHasAgent "coder")
          (snd (loadAgents Sample.noRoots 1000 (initial Sample.noRoots))))
     = 2%nat
  /\ scans
       (snd (statsListing Sample.twoRoots 61001
               (snd (loadAgents Sample.twoRoots 1000 (initial Sample.twoRoots)))))
     = 2%nat
  /\ scans
       (snd (statsListing Sample.noRoots 61001
               (snd (loadAgents Sample.twoRoots 1000 (initial Sample.twoRoots)))))
     = 3%nat.
Proof.
  assert (Hne : agentCache (snd (loadAgents Sample.twoRoots 1000
                                   (initial Sample.twoRoots))) <> [])
    by (vm_compute; discriminate).
  assert (Hfresh : 61000 - lastLoadTime (snd (loadAgents Sample.twoRoots 1000
                                               (initial Sample.twoRoots)))
                   <= cacheExpiry)
    by (vm_compute; discriminate).
  assert (Hstale : cacheExpiry
                   < 61001 - lastLoadTime (snd (loadAgents Sample.twoRoots 1000
                                                  (initial Sample.twoRoots))))
    by (vm_compute; reflexivity).
  assert (He : agentCache (snd (loadAgents Sample.noRoots 1000
                                  (initial Sample.noRoots))) = [])
    by (vm_compute; reflexivity).
  split; [exact Hne|]. split; [exact Hfresh|].
  split; [|split; [|split; [exact Hstale|split; [|split; [exact He|split;
    [|split]]]]]].
  - destruct (cache_expiry Sample.noRoots 61000
                (snd (loadAgents Sample.twoRoots 1000 (initial Sample.twoRoots))))
      as (_ & _ & F & _).
    destruct (F Hne Hfresh) as (_ & G & _). exact (proj1 (G "coder")).
  - destruct (cache_expiry Sample.noRoots 61000
                (snd (loadAgents Sample.twoRoots 1000 (initial Sample.twoRoots))))
      as (_ & _ & F & _).
    destruct (F Hne Hfresh) as (_ & _ & _ & _ & T).
    exact (T Sample.noRoots 61000 (ReadAgent "coder") (ReadSearch "helper") Hfresh).
  - destruct (cache_expiry Sample.twoRoots 61001
                (snd (loadAgents Sample.twoRoots 1000 (initial Sample.twoRoots))))
      as (_ & _ & _ & _ & St).
    destruct (St Hstale) as (_ & R & _). exact (R ReadAllAgents).
  - destruct (cache_expiry Sample.noRoots 1001
                (snd (loadAgents Sample.noRoots 1000 (initial Sample.noRoots))))
      as (_ & _ & _ & Em & _).
    destruct (Em He) as (_ & R). exact (R (ReadHasAgent "coder")).
  - destruct (cache_expiry Sample.twoRoots 61001
                (snd (loadAgents Sample.twoRoots 1000 (initial Sample.twoRoots))))
      as (_ & _ & _ & _ & St).
    destruct (St Hstale) as (_ & _ & _ & One & _).
    apply One; [vm_compute; reflexivity | vm_compute; discriminate].
  - destruct (cache_expiry Sample.noRoots 61001
                (snd (loadAgents Sample.twoRoots 1000 (initial Sample.twoRoots))))
      as (_ & _ & _ & _ & St).
    destruct (St Hstale) as (_ & _ & _ & _ & Two).
    apply Two; vm_compute; reflexivity.
Defined.

(** C3 as stated fails twice.  On an empty snapshot: with no agent file
    anywhere, a second lookup one millisecond after the first scans again.
    On a snapshot older than the time-to-live: the two steps [getStats]
    begins with are two passes when no agent file is left. *)
Lemma cache_expiry_empty_snapshot_counterexample :
  lastLoadTime (snd (getAgent Sample.noRoots 100000 "coder" (initial Sample.noRoots)))
  = 100000
  /\ scans (snd (getAgent Sample.noRoots 100000 "coder" (initial Sample.noRoots)))
     = 1%nat
  /\ scans
       (snd (getAgent Sample.noRoots 100001 "coder"
               (snd (getAgent Sample.noRoots 100000 "coder" (initial Sample.noRoots)))))
     = 2%nat
  /\ scans (snd (loadAgents Sample.twoRoots 1000 (initial Sample.twoRoots))) = 1%nat
  /\ scans
       (snd (statsListing Sample.noRoots 61001
               (snd (loadAgents Sample.twoRoots 1000 (initial Sample.twoRoots)))))
     = 3%nat.
Proof. vm_compute. repeat split; reflexivity. Qed.

(** A forced refresh at time 1000 is one pass, and the snapshot it leaves
    is still served at time 61000 and rebuilt at time 61001; a forced
    refresh that fails leaves the time of last refresh at zero. *)
Lemma refresh_rebuilds_at_once_witness :
  fst (refresh Sample.twoRoots 1000 (initial Sample.twoRoots)) = Ok tt
  /\ agentCache (snd (refresh Sample.twoRoots 1000 (initial Sample.twoRoots))) <> []
  /\ 61000 - 1000 <= cacheExpiry
  /\ scans (snd (refresh Sample.twoRoots 1000 (initial Sample.twoRoots))) = 1%nat
  /\ lastLoadTime (snd (refresh Sample.twoRoots 1000 (initial Sample.twoRoots))) = 1000
  /\ ensureLoaded Sample.noRoots 61000
       (snd (refresh Sample.twoRoots 1000 (initial Sample.twoRoots)))
     = (Ok tt, snd (refresh Sample.twoRoots 1000 (initial Sample.twoRoots)))
  /\ scans
       (snd (ensureLoaded Sample.noRoots 61001
               (snd (refresh Sample.twoRoots 1000 (initial Sample.twoRoots)))))
     = 2%nat
  /\ lastLoadTime (snd (refresh Sample.twoRoots 1000 (initial Sample.twoRoots))) <> 0
  /\ fst (refresh Worlds.agentsIsFile 5000
            (snd (refresh Sample.twoRoots 1000 (initial Sample.twoRoots))))
     <> Ok tt
  /\ lastLoadTime
       (snd (refresh Worlds.agentsIsFile 5000
               (snd (refresh Sample.twoRoots 1000 (initial Sample.twoRoots)))))
     = 0.
Proof.
  assert (Hok : fst (refresh Sample.twoRoots 1000 (initial Sample.twoRoots)) = Ok tt)
    by (vm_compute; reflexivity).
  assert (Hne : agentCache (snd (refresh Sample.twoRoots 1000
                                   (initial Sample.twoRoots))) <> [])
    by (vm_compute; discriminate).
  assert (Hfresh : 61000 - 1000 <= cacheExpiry) by (vm_compute; discriminate).
  assert (Hstale : agentCache (snd (refresh Sample.twoRoots 1000
                                      (initial Sample.twoRoots))) = []
                   \/ cacheExpiry < 61001 - 1000)
    by (right; vm_compute; reflexivity).
  assert (Hfail : fst (refresh Worlds.agentsIsFile 5000
                         (snd (refresh Sample.twoRoots 1000 (initial Sample.twoRoots))))
                  <> Ok tt)
    by (vm_compute; discriminate).
  destruct (refresh_rebuilds_at_once Sample.twoRoots 1000 (initial Sample.twoRoots))
    as (_ & _ & Hs & _ & H).
  destruct (H Hok) as (Ht & _ & Hnext).
  split; [exact Hok|]. split; [exact Hne|]. split; [exact Hfresh|].
  split; [exact Hs|]. split; [exact Ht|].
  split; [exact (proj1 (Hnext Sample.noRoots 61000) Hne Hfresh)|].
  split; [exact (proj2 (proj2 (Hnext Sample.noRoots 61001) Hstale))|].
  split; [rewrite Ht; discriminate|].
  split; [exact Hfail|].
  destruct (refresh_rebuilds_at_once Worlds.agentsIsFile 5000
              (snd (refresh Sample.twoRoots 1000 (initial Sample.twoRoots))))
    as (_ & _ & _ & Hz & _).
  exact (Hz Hfail).
Defined.

(** C4 as stated fails: after a forced refresh at time 1000 the time of
    last refresh is 1000, not zero, and the ensure-fresh call of a lookup
    one millisecond later does not rebuild. *)
Lemma refresh_next_read_counterexample :
  lastLoadTime (snd (refresh Sample.twoRoots 1000 (initial Sample.twoRoots))) = 1000
  /\ scans (snd (refresh Sample.twoRoots 1000 (initial Sample.twoRoots))) = 1%nat
  /\ ensureLoaded Sample.twoRoots 1001
       (snd (refresh Sample.twoRoots 1000 (initial Sample.twoRoots)))
     = (Ok tt, snd (refresh Sample.twoRoots 1000 (initial Sample.twoRoots)))
  /\ scans
       (snd (ensureLoaded Sample.twoRoots 1001
               (snd (refresh Sample.twoRoots 1000 (initial Sample.twoRoots)))))
     = 1%nat.
Proof. vm_compute. repeat split; reflexivity. Qed.

End CacheTheorems.

(* ===================================================================== *)
(** ** The frontmatter parser and the definition reader *)
(* ===================================================================== *)

Section ReaderTheorems.
Import CustomAgentLoader Discovery.

Lemma eol_shape (s r : string) :
  eol s = Some r -> exists e, lineBreak e /\ s = e ++ r.
Proof.
  unfold eol, lineBreak. destruct s as [|c s]; [discriminate|].
  destruct (Ascii.eqb c Str.CR) eqn:E1.
  - apply Ascii.eqb_eq in E1. subst c.
    destruct s as [|c' s']; [discriminate|].
    destruct (Ascii.eqb c' Str.LF) eqn:E2; [|discriminate].
    apply Ascii.eqb_eq in E2. subst c'.
    intros H; inversion H; subst. eexists. split; [right; reflexivity | reflexivity].
  - destruct (Ascii.eqb c Str.LF) eqn:E2; [|discriminate].
    apply Ascii.eqb_eq in E2. subst c.
    intros H; inversion H; subst. eexists. split; [left; reflexivity | reflexivity].
Qed.

Lemma closingDelimiter_shape (s b : string) :
  closingDelimiter s = Some b ->
  exists e2 e3, lineBreak e2 /\ lineBreak e3 /\ s = e2 ++ "---" ++ e3 ++ b.
Proof.
  unfold closingDelimiter.
  destruct (eol s) as [r|] eqn:E1; [|discriminate].
  destruct (Str.stripPrefix "---" r) as [r'|] eqn:P; [|discriminate].
  intros E3.
  destruct (eol_shape _ _ E1) as (e2 & L2 & ->).
  destruct (eol_shape _ _ E3) as (e3 & L3 & ->).
  apply stripPrefix_suffix in P. subst r.
  exists e2, e3. auto.
Qed.

(** The header found is followed by a closing delimiter, and no shorter
    header is. *)
Lemma headerAndBody_shape (s h b : string) :
  headerAndBody s = Some (h, b) ->
  (exists e2 e3, lineBreak e2 /\ lineBreak e3 /\ s = h ++ e2 ++ "---" ++ e3 ++ b)
  /\ (forall h1 h2 rest, h = h1 ++ h2 -> h2 <> EmptyString -> s = h1 ++ rest ->
      closingDelimiter rest = None).
Proof.
  revert h b; induction s as [|c s IH]; intros h b; simpl.
  - destruct (closingDelimiter EmptyString) eqn:C; [discriminate|]. discriminate.
  - destruct (closingDelimiter (String c s)) as [body|] eqn:C.
    + intros H; inversion H; subst h b. split.
      * exact (closingDelimiter_shape _ _ C).
      * intros h1 h2 rest E Hne. destruct h1; simpl in E; [congruence|discriminate].
    + destruct (headerAndBody s) as [[h' b']|] eqn:R; [|discriminate].
      intros H; inversion H; subst h b.
      destruct (IH h' b' eq_refl) as ((e2 & e3 & L2 & L3 & E) & Hmin). split.
      * exists e2, e3. split; [exact L2|]. split; [exact L3|].
        rewrite E. reflexivity.
      * intros h1 h2 rest E1 Hne Es. destruct h1 as [|c1 h1].
        -- simpl in Es. subst rest. exact C.
        -- simpl in E1, Es. injection E1 as -> E1'. injection Es as Es'.
           exact (Hmin h1 h2 rest E1' Hne Es').
Qed.

(** C7, as the code has it. The parser is total.  A document that does
    not have the shape of a header followed by a body, and a document whose
    header text makes the YAML parser throw, both give no header and the
    original text.  Whatever value the YAML parser returns for the header
    text, mapping or not, is handed on as the header, with the trimmed
    body.  The header text is what stands between the opening delimiter
    line and the first closing delimiter line. *)
Theorem parseFrontmatter_tolerant (w : World) (content : string) :
  (matchFrontmatter content = None ->
   parseFrontmatter w content = (JNull, content))
  /\ (forall yamlContent markdownBody reason,
        matchFrontmatter content = Some (yamlContent, markdownBody) ->
        parseYaml w yamlContent = YamlError reason ->
        parseFrontmatter w content = (JNull, content))
  /\ (forall yamlContent markdownBody v,
        matchFrontmatter content = Some (yamlContent, markdownBody) ->
        parseYaml w yamlContent = YamlValue v ->
        parseFrontmatter w content = (v, Str.trim markdownBody))
  /\ (forall yamlContent markdownBody,
        matchFrontmatter content = Some (yamlContent, markdownBody) ->
        exists e1 e2 e3,
          lineBreak e1 /\ lineBreak e2 /\ lineBreak e3
          /\ content
             = "---" ++ e1 ++ yamlContent ++ e2 ++ "---" ++ e3 ++ markdownBody).
Proof.
  unfold parseFrontmatter. repeat split.
  - now intros ->.
  - intros y b r -> E. now rewrite E.
  - intros y b v -> E. now rewrite E.
  - intros y b. unfold matchFrontmatter.
    destruct (Str.stripPrefix "---" content) as [r|] eqn:P; [|discriminate].
    destruct (eol r) as [r'|] eqn:E1; [|discriminate].
    intros H. apply stripPrefix_suffix in P. subst content.
    destruct (eol_shape _ _ E1) as (e1 & L1 & ->).
    destruct (headerAndBody_shape _ _ _ H) as ((e2 & e3 & L2 & L3 & ->) & _).
    exists e1, e2, e3. auto.
Qed.

(** A text without a header, a header the YAML parser rejects, and a header
    it accepts. *)
Lemma parseFrontmatter_tolerant_witness :
  matchFrontmatter "no header here" = None
  /\ parseFrontmatter Sample.priorities "no header here" = (JNull, "no header here")
  /\ matchFrontmatter (Sample.document "name: [" "Body.") = Some ("name: [", "Body.")
  /\ parseYaml Sample.priorities "name: [" = YamlError "YAMLParseError"
  /\ parseFrontmatter Sample.priorities (Sample.document "name: [" "Body.")
     = (JNull, Sample.document "name: [" "Body.")
  /\ matchFrontmatter (Sample.document "name: coder" "  Body. ")
     = Some ("name: coder", "  Body. ")
  /\ parseYaml Sample.priorities "name: coder"
     = YamlValue (JObj [("name", JStr "coder")])
  /\ parseFrontmatter Sample.priorities (Sample.document "name: coder" "  Body. ")
     = (JObj [("name", JStr "coder")], Str.trim "  Body. ").
Proof.
  assert (M1 : matchFrontmatter "no header here" = None) by reflexivity.
  assert (M2 : matchFrontmatter (Sample.document "name: [" "Body.")
               = Some ("name: [", "Body.")) by reflexivity.
  assert (Y2 : parseYaml Sample.priorities "name: [" = YamlError "YAMLParseError")
    by reflexivity.
  assert (M3 : matchFrontmatter (Sample.document "name: coder" "  Body. ")
               = Some ("name: coder", "  Body. ")) by reflexivity.
  assert (Y3 : parseYaml Sample.priorities "name: coder"
               = YamlValue (JObj [("name", JStr "coder")])) by reflexivity.
  split; [exact M1|]. split.
  { destruct (parseFrontmatter_tolerant Sample.priorities "no header here")
      as (H & _). exact (H M1). }
  split; [exact M2|]. split; [exact Y2|]. split.
  { destruct (parseFrontmatter_tolerant Sample.priorities
                (Sample.document "name: [" "Body.")) as (_ & H & _).
    exact (H _ _ _ M2 Y2). }
  split; [exact M3|]. split; [exact Y3|].
  destruct (parseFrontmatter_tolerant Sample.priorities
              (Sample.document "name: coder" "  Body. ")) as (_ & _ & H & _).
  exact (H _ _ _ M3 Y3).
Defined.

(** C7 as stated fails: the header text [hello] parses to a string, which
    is not a key-value mapping, and the parser returns that string as the
    header together with the trimmed body. *)
Lemma parseFrontmatter_scalar_header_counterexample :
  matchFrontmatter (Sample.document "hello" "  Body. ") = Some ("hello", "  Body. ")
  /\ parseYaml Sample.priorities "hello" = YamlValue (JStr "hello")
  /\ parseFrontmatter Sample.priorities (Sample.document "hello" "  Body. ")
     = (JStr "hello", "Body.")
  /\ parseFrontmatter Sample.priorities (Sample.document "hello" "  Body. ")
     <> (JNull, Sample.document "hello" "  Body. ").
Proof.
  repeat split; try reflexivity. vm_compute. discriminate.
Qed.

Lemma parseAgentFile_some (w : World) (f b : string) (st : Loader)
  (d : AgentDefinition) :
  fst (parseAgentFile w f b st) = Ok (Some d) -> parsedAgent w f b = Some d.
Proof.
  destruct (parseAgentFile_run w f b st) as (R & _). rewrite R. congruence.
Qed.

(** C2, as the code has it. The priority of a definition is the header's
    priority when that value is truthy, and [medium] otherwise.  So a
    missing or falsy header priority gives [medium], a header priority that
    is one of the four levels is kept, and in both cases the field is one
    of the four levels. *)
Theorem parseAgentFile_priority (w : World) (f b : string) (st : Loader)
  (d : AgentDefinition) :
  fst (parseAgentFile w f b st) = Ok (Some d) ->
  exists content,
    Fs.readFileSync w f = Ok content
    /\ priority d
       = Js.or (Js.prop (fst (parseFrontmatter w content)) "priority") (JStr "medium")
    /\ (Js.truthy (Js.prop (fst (parseFrontmatter w content)) "priority") = false ->
        priority d = JStr "medium")
    /\ (isPriorityLevel (Js.prop (fst (parseFrontmatter w content)) "priority") = true ->
        priority d = Js.prop (fst (parseFrontmatter w content)) "priority")
    /\ (Js.truthy (Js.prop (fst (parseFrontmatter w content)) "priority") = false
        \/ isPriorityLevel (Js.prop (fst (parseFrontmatter w content)) "priority") = true ->
        isPriorityLevel (priority d) = true).
Proof.
  intros H. apply parseAgentFile_some in H.
  destruct (parsedAgent_some w f b d H) as (content & R & _ & _ & _ & P & _).
  exists content. split; [exact R|]. split; [exact P|].
  rewrite P. unfold Js.or.
  set (p := Js.prop (fst (parseFrontmatter w content)) "priority").
  assert (L : isPriorityLevel p = true -> Js.truthy p = true).
  { destruct p; simpl; try discriminate.
    destruct s; simpl; [discriminate | reflexivity]. }
  split; [now intros ->|]. split; [intros Hl; now rewrite (L Hl)|].
  intros [Hf|Hl]; [now rewrite Hf | now rewrite (L Hl)].
Qed.

(** A header with the level [high] gives the priority [high]. *)
Lemma parseAgentFile_priority_witness :
  fst (parseAgentFile Sample.priorities "/proj/.claude/agents/high.md"
         "/proj/.claude/agents" (initial Sample.priorities))
  = Ok (Some
          {| name := JStr "high"; type := JUndefined; color := JUndefined;
             description := JStr "Agent defined in high.md"; capabilities := [];
             priority := JStr "high"; hooks := JUndefined;
             systemPrompt := "Soon.";
             sourcePath := "/proj/.claude/agents/high.md";
             category := "custom"; isCustom := false |})
  /\ exists content,
       Fs.readFileSync Sample.priorities "/proj/.claude/agents/high.md" = Ok content
       /\ Js.prop (fst (parseFrontmatter Sample.priorities content)) "priority"
          = JStr "high".
Proof.
  assert (H : fst (parseAgentFile Sample.priorities "/proj/.claude/agents/high.md"
                     "/proj/.claude/agents" (initial Sample.priorities))
              = Ok (Some
                      {| name := JStr "high"; type := JUndefined; color := JUndefined;
                         description := JStr "Agent defined in high.md";
                         capabilities := [];
                         priority := JStr "high"; hooks := JUndefined;
                         systemPrompt := "Soon.";
                         sourcePath := "/proj/.claude/agents/high.md";
                         category := "custom"; isCustom := false |}))
    by (vm_compute; reflexivity).
  split; [exact H|].
  destruct (parseAgentFile_priority _ _ _ _ _ H) as (content & R & _ & _ & K & _).
  exists content. split; [exact R|].
  assert (C : content = Sample.document "priority: high" "Soon.").
  { vm_compute in R. inversion R. reflexivity. }
  subst content. reflexivity.
Defined.

(** C2 as stated fails: a header whose priority is [urgent] gives a
    definition whose priority is [urgent], which is none of the four
    levels. *)
Lemma parseAgentFile_priority_counterexample :
  Js.prop (fst (parseFrontmatter Sample.priorities
                  (Sample.document "priority: urgent" "Now."))) "priority"
  = JStr "urgent"
  /\ fst (parseAgentFile Sample.priorities "/proj/.claude/agents/urgent.md"
            "/proj/.claude/agents" (initial Sample.priorities))
     = Ok (Some
             {| name := JStr "urgent"; type := JUndefined; color := JUndefined;
                description := JStr "Agent defined in urgent.md"; capabilities := [];
                priority := JStr "urgent"; hooks := JUndefined;
                systemPrompt := "Now.";
                sourcePath := "/proj/.claude/agents/urgent.md";
                category := "custom"; isCustom := false |})
  /\ isPriorityLevel (JStr "urgent") = false.
Proof. vm_compute. repeat split; reflexivity. Qed.


Ltac no_agent :=
  let H := fresh "H" in
  let Ha := fresh "Ha" in
  simpl; intros H Ha; inversion H; subst;
  unfold failWith in Ha; simpl in Ha; discriminate.

(** The definition in a validation result is the one [parseAgentFile]
    reads with the file's directory as the root. *)
Lemma validateAgentFile_agent (w : World) (path : string) (st : Loader)
  (d : AgentDefinition) :
  (forall r, fst (validateAgentFile w path st) = Ok r -> agent r = Some d ->
             parsedAgent w path (Path.dirname path) = Some d).
Proof.
  intros r. unfold validateAgentFile, tryCatch, bind, lift, ret.
  destruct (negb (Fs.existsSync w path)); [no_agent|].
  destruct (Fs.readFileSync w path) as [content|e]; [|no_agent].
  destruct (parseFrontmatter w content) as [fm body].
  destruct (negb (Js.truthy fm)); [no_agent|].
  match goal with |- context [valid ?c] => set (checked := c) end.
  assert (Hnone : agent checked = None).
  { unfold checked, checkHeader.
    repeat match goal with
           | |- context [if ?c then _ else _] => destruct c
           end; reflexivity. }
  destruct (valid checked) eqn:V.
  - destruct (parseAgentFile_run w path (Path.dirname path) st) as (R & _).
    destruct (parseAgentFile w path (Path.dirname path) st) as [r1 st1].
    simpl in R. subst r1.
    destruct (parsedAgent w path (Path.dirname path)) as [a|];
      [|simpl; intros H Ha; inversion H; subst r;
        unfold failWith in Ha; simpl in Ha; congruence].
    simpl. intros H Ha. inversion H; subst r.
    unfold withAgent in Ha. simpl in Ha. exact Ha.
  - simpl. intros H Ha. inversion H; subst r. congruence.
Qed.


(** A backslash in a POSIX file name is a separator for
    [extractCategory]: such a name is split into a category. *)
Example extractCategory_backslash_name :
  extractCategory "/proj/a\b.md" (Path.dirname "/proj/a\b.md") = "a".
Proof. reflexivity. Qed.


End ReaderTheorems.

(* ===================================================================== *)
(** ** Listings *)
(* ===================================================================== *)

Section ListingFacts.
Import CustomAgentLoader Discovery.

Context {A : Type}.
Variable cmp : A -> A -> Result Z.

Lemma insertBy_perm (x : A) (l r : list A) :
  insertBy cmp x l = Ok r -> Permutation r (x :: l).
Proof.
  revert r; induction l as [|y l IH]; intros r; simpl.
  - intros H; inversion H. apply Permutation_refl.
  - unfold rbind. destruct (cmp x y) as [c|e]; [|discriminate].
    destruct (c <=? 0).
    + intros H; inversion H. apply Permutation_refl.
    + destruct (insertBy cmp x l) as [r'|e]; [|discriminate].
      intros H; inversion H; subst r.
      eapply Permutation_trans; [apply perm_skip, IH; reflexivity|].
      apply perm_swap.
Qed.

Lemma sortBy_perm (l r : list A) : sortBy cmp l = Ok r -> Permutation r l.
Proof.
  revert r; induction l as [|x l IH]; intros r; simpl.
  - intros H; inversion H. apply perm_nil.
  - unfold rbind. destruct (sortBy cmp l) as [s|e]; [|discriminate].
    intros H. apply insertBy_perm in H.
    eapply Permutation_trans; [exact H|]. apply perm_skip. now apply IH.
Qed.

Lemma insertBy_total (x : A) (l : list A) :
  (forall y, In y l -> exists c, cmp x y = Ok c) ->
  exists r, insertBy cmp x l = Ok r.
Proof.
  induction l as [|y l IH]; intros H; simpl; [eauto|].
  destruct (H y (or_introl eq_refl)) as [c ->]. simpl.
  destruct (c <=? 0); [eauto|].
  destruct IH as [r ->]; [intros z Hz; apply H; now right|]. simpl. eauto.
Qed.

(** Sorting returns when no comparison throws. *)
Lemma sortBy_total (l : list A) :
  (forall x y, In x l -> In y l -> exists c, cmp x y = Ok c) ->
  exists r, sortBy cmp l = Ok r.
Proof.
  induction l as [|x l IH]; intros H; simpl; [eauto|].
  destruct IH as [s Hs]; [intros a b Ha Hb; apply H; now right|].
  rewrite Hs. simpl. apply insertBy_total.
  intros y Hy. apply H; [now left|]. right.
  apply (Permutation_in _ (sortBy_perm _ _ Hs) Hy).
Qed.

End ListingFacts.

Section SortFacts.
Context {A : Type}.
Variable cmp : A -> A -> Result Z.
Variable le : A -> A -> bool.
Hypothesis le_cmp :
  forall a b, le a b = match cmp a b with Ok c => c <=? 0 | Throw _ => false end.

Lemma insertBy_sorted (x : A) (l r : list A) :
  (forall a b, In a (x :: l) -> In b (x :: l) -> le a b = true \/ le b a = true) ->
  (forall a b c, In a (x :: l) -> In b (x :: l) -> In c (x :: l) ->
                 le a b = true -> le b c = true -> le a c = true) ->
  StronglySorted (fun a b => le a b = true) l ->
  insertBy cmp x l = Ok r ->
  StronglySorted (fun a b => le a b = true) r.
Proof.
  revert r; induction l as [|y l IH]; intros r Htot Htr Hs; simpl.
  - intros H; inversion H. constructor; constructor.
  - unfold rbind. destruct (cmp x y) as [c|e] eqn:Ec; [|discriminate].
    apply StronglySorted_inv in Hs as [Hs Hy].
    destruct (c <=? 0) eqn:El.
    + intros H; inversion H; subst r.
      assert (Lxy : le x y = true) by now rewrite le_cmp, Ec.
      constructor; [constructor; assumption|].
      constructor; [exact Lxy|].
      rewrite Forall_forall in *. intros z Hz.
      apply (Htr x y z); simpl; auto.
    + destruct (insertBy cmp x l) as [r'|e] eqn:Ei; [|discriminate].
      intros H; inversion H; subst r.
      assert (Lyx : le y x = true).
      { destruct (Htot x y) as [L|L]; simpl; auto.
        rewrite le_cmp, Ec, El in L. discriminate. }
      constructor.
      * apply IH; auto.
        -- intros a b Ha Hb. apply Htot; simpl in *; tauto.
        -- intros a b c0 Ha Hb Hc. apply Htr; simpl in *; tauto.
      * rewrite Forall_forall in *. intros z Hz.
        apply (Permutation_in _ (insertBy_perm cmp x l r' Ei)) in Hz.
        destruct Hz as [<-|Hz]; [exact Lyx | now apply Hy].
Qed.

(** Sorting puts the elements in order when the comparator orders them
    consistently. *)
Lemma sortBy_sorted (l r : list A) :
  (forall a b, In a l -> In b l -> le a b = true \/ le b a = true) ->
  (forall a b c, In a l -> In b l -> In c l ->
                 le a b = true -> le b c = true -> le a c = true) ->
  sortBy cmp l = Ok r ->
  StronglySorted (fun a b => le a b = true) r.
Proof.
  revert r; induction l as [|x l IH]; intros r Htot Htr; simpl.
  - intros H; inversion H. constructor.
  - unfold rbind. destruct (sortBy cmp l) as [s|e] eqn:Es; [|discriminate].
    intros H.
    assert (P : Permutation s l) by now apply (sortBy_perm cmp).
    assert (Hin : forall a, In a (x :: s) -> In a (x :: l)).
    { intros a [<-|Ha]; [now left|right]. now apply (Permutation_in _ P). }
    apply (insertBy_sorted x s r); [| | |exact H].
    + intros a b Ha Hb. apply Htot; auto.
    + intros a b c Ha Hb Hc. apply Htr; auto.
    + apply IH; [| |reflexivity].
      * intros a b Ha Hb. apply Htot; now right.
      * intros a b c Ha Hb Hc. apply Htr; now right.
Qed.

End SortFacts.

Section ListingTheorems.
Import CustomAgentLoader Discovery Listing.

Lemma filter_respects_Permutation {A : Type} (f : A -> bool) (l l' : list A) :
  Permutation l l' -> Permutation (filter f l) (filter f l').
Proof.
  induction 1; simpl.
  - apply perm_nil.
  - destruct (f x); [now apply perm_skip | assumption].
  - destruct (f x), (f y); try apply Permutation_refl. apply perm_swap.
  - eapply Permutation_trans; eassumption.
Qed.

Lemma getAllAgents_unfold (w : World) (now : Z) (st : Loader) :
  getAllAgents w now st =
  match ensureLoaded w now st with
  | (Ok _, st1) =>
      (sortBy (fun a b => compareNames w (name a) (name b))
         (JsMap.values (agentCache st1)), st1)
  | (Throw e, st1) => (Throw e, st1)
  end.
Proof.
  unfold getAllAgents, bind, gets, lift.
  destruct (ensureLoaded w now st) as [[u|e] st1]; reflexivity.
Qed.

(** A pass that is due completes when every search path can be listed. *)
Lemma ensureLoaded_ok (w : World) (now : Z) (st : Loader) :
  rootsListable w -> fst (ensureLoaded w now st) = Ok tt.
Proof.
  intros L. destruct (ensureLoaded_cases now st) as [[Hne Hf]|Hs].
  - now rewrite (ensureLoaded_fresh w now st Hne Hf).
  - rewrite (ensureLoaded_stale w now st Hs).
    destruct (loadAgents_run w now st) as (_ & _ & _ & O & _). now apply O.
Qed.

Lemma getAllAgents_ok (w : World) (now : Z) (st st1 : Loader) :
  ensureLoaded w now st = (Ok tt, st1) ->
  stringNames (agentCache st1) ->
  exists agents,
    getAllAgents w now st = (Ok agents, st1)
    /\ Permutation agents (JsMap.values (agentCache st1)).
Proof.
  intros E Hs. rewrite getAllAgents_unfold, E.
  destruct (sortBy_total (fun a b => compareNames w (name a) (name b))
              (JsMap.values (agentCache st1))) as [r Hr].
  { intros x y Hx _. unfold JsMap.values in Hx.
    apply in_map_iff in Hx as ([k d] & <- & Hin). simpl.
    specialize (Hs k d Hin). destruct (name d); try discriminate.
    simpl. eauto. }
  exists r. rewrite Hr. split; [reflexivity|]. now apply sortBy_perm in Hr.
Qed.

(** With the empty query every definition whose name is a string passes
    the filter. *)
Lemma filter_empty_query (l : list AgentDefinition) :
  (forall d, In d l -> Js.isString (name d) = true) ->
  filterR (matchesQuery EmptyString) l = Ok l.
Proof.
  induction l as [|a l IH]; intros H; simpl; [reflexivity|].
  assert (Ha : matchesQuery EmptyString a = Ok true).
  { unfold matchesQuery. specialize (H a (or_introl eq_refl)).
    destruct (name a); try discriminate. simpl.
    now rewrite includes_empty. }
  rewrite Ha. simpl. rewrite IH; [reflexivity|].
  intros d Hd. apply H. now right.
Qed.

Lemma consistentOrder_spec (w : World) (l : list AgentDefinition) :
  consistentOrder w l = true ->
  (forall a b, In a l -> In b l -> notAfter w a b = true \/ notAfter w b a = true)
  /\ (forall a b c, In a l -> In b l -> In c l ->
        notAfter w a b = true -> notAfter w b c = true -> notAfter w a c = true).
Proof.
  unfold consistentOrder. intros H. apply andb_true_iff in H as [T R]. split.
  - intros a b Ha Hb. rewrite forallb_forall in T. specialize (T a Ha).
    rewrite forallb_forall in T. specialize (T b Hb).
    now apply orb_true_iff in T.
  - intros a b c Ha Hb Hc Lab Lbc. rewrite forallb_forall in R.
    specialize (R a Ha). rewrite forallb_forall in R. specialize (R b Hb).
    rewrite forallb_forall in R. specialize (R c Hc).
    now rewrite Lab, Lbc in R.
Qed.

(** The listing is in the comparator's order when the comparator orders
    the snapshot consistently. *)
Lemma getAllAgents_sorted (w : World) (now : Z) (st st1 : Loader)
  (agents : list AgentDefinition) :
  getAllAgents w now st = (Ok agents, st1) ->
  consistentOrder w (JsMap.values (agentCache st1)) = true ->
  StronglySorted (fun a b => notAfter w a b = true) agents.
Proof.
  intros G C. rewrite getAllAgents_unfold in G.
  destruct (ensureLoaded w now st) as [[u|e] st2]; [|discriminate].
  injection G as G <-.
  destruct (consistentOrder_spec w _ C) as [T R].
  apply (sortBy_sorted (fun a b => compareNames w (name a) (name b))
           (notAfter w) (fun a b => eq_refl) _ _ T R G).
Qed.

(** C5, as the code has it. The empty query filters nothing out: when
    every search path can be listed and the names of the snapshot are
    strings, [searchAgents] does not throw and returns the listing of
    [getAllAgents]: every definition of the snapshot once, so an empty
    result only for an empty snapshot, in the order of [localeCompare] on
    the names when that comparator orders the snapshot consistently. *)
Theorem searchAgents_empty_query_lists_all (w : World) (now : Z) (st : Loader) :
  rootsListable w ->
  stringNames (agentCache (snd (ensureLoaded w now st))) ->
  exists agents,
    searchAgents w now EmptyString st = (Ok agents, snd (ensureLoaded w now st))
    /\ getAllAgents w now st = (Ok agents, snd (ensureLoaded w now st))
    /\ Permutation agents (JsMap.values (agentCache (snd (ensureLoaded w now st))))
    /\ (agents = [] <-> agentCache (snd (ensureLoaded w now st)) = [])
    /\ (consistentOrder w (JsMap.values (agentCache (snd (ensureLoaded w now st))))
        = true ->
        StronglySorted (fun a b => notAfter w a b = true) agents).
Proof.
  intros L Hs.
  pose proof (ensureLoaded_ok w now st L) as Hok.
  destruct (ensureLoaded w now st) as [r st1] eqn:E. simpl in Hok, Hs. subst r.
  destruct (getAllAgents_ok w now st st1 E Hs) as (agents & G & P).
  exists agents. simpl snd.
  split; [|split; [exact G|split; [exact P|split]]].
  - unfold searchAgents, bind, lift. rewrite G.
    change (Str.toLowerCase EmptyString) with EmptyString.
    rewrite filter_empty_query; [reflexivity|].
    intros d Hd. apply (Permutation_in _ P) in Hd.
    unfold JsMap.values in Hd. apply in_map_iff in Hd as ([k d'] & <- & Hin).
    exact (Hs k d' Hin).
  - split; intros H.
    + rewrite H in P. apply Permutation_nil in P.
      unfold JsMap.values in P. now apply map_eq_nil in P.
    + rewrite H in P. simpl in P. apply Permutation_sym in P.
      now apply Permutation_nil in P.
  - intros C. exact (getAllAgents_sorted w now st st1 agents G C).
Qed.

Lemma twoRoots_listable : rootsListable Sample.twoRoots.
Proof.
  intros p Hp. vm_compute in Hp.
  destruct Hp as [<-|[<-|[]]]; eexists; vm_compute; reflexivity.
Defined.

Lemma helperFirst_listable : rootsListable Worlds.helperFirst.
Proof.
  intros p Hp. vm_compute in Hp.
  destruct Hp as [<-|[]]; eexists; vm_compute; reflexivity.
Defined.

Lemma helperFirst_stringNames (now : Z) :
  stringNames (agentCache (snd (ensureLoaded Worlds.helperFirst now (initial Worlds.helperFirst)))).
Proof.
  intros k d Hin. vm_compute in Hin.
  destruct Hin as [H|[H|[]]]; inversion H; reflexivity.
Defined.

(** The sample that lists [helper] before [coder]: the snapshot has
    [helper] first, the empty query returns [coder] first. *)
Lemma searchAgents_empty_query_lists_all_witness :
  rootsListable Worlds.helperFirst
  /\ stringNames
       (agentCache (snd (ensureLoaded Worlds.helperFirst 1000 (initial Worlds.helperFirst))))
  /\ consistentOrder Worlds.helperFirst
       (JsMap.values
          (agentCache (snd (ensureLoaded Worlds.helperFirst 1000 (initial Worlds.helperFirst)))))
     = true
  /\ map name
       (JsMap.values
          (agentCache (snd (ensureLoaded Worlds.helperFirst 1000 (initial Worlds.helperFirst)))))
     = [JStr "helper"; JStr "coder"]
  /\ exists agents,
       searchAgents Worlds.helperFirst 1000 EmptyString (initial Worlds.helperFirst)
       = (Ok agents, snd (ensureLoaded Worlds.helperFirst 1000 (initial Worlds.helperFirst)))
       /\ Permutation agents
            (JsMap.values
               (agentCache (snd (ensureLoaded Worlds.helperFirst 1000 (initial Worlds.helperFirst)))))
       /\ StronglySorted (fun a b => notAfter Worlds.helperFirst a b = true) agents
       /\ map name agents = [JStr "coder"; JStr "helper"].
Proof.
  assert (C : consistentOrder Worlds.helperFirst
                (JsMap.values
                   (agentCache
                      (snd (ensureLoaded Worlds.helperFirst 1000 (initial Worlds.helperFirst)))))
              = true) by (vm_compute; reflexivity).
  split; [exact helperFirst_listable|].
  split; [exact (helperFirst_stringNames 1000)|].
  split; [exact C|]. split; [vm_compute; reflexivity|].
  destruct (searchAgents_empty_query_lists_all Worlds.helperFirst 1000 (initial Worlds.helperFirst)
              helperFirst_listable (helperFirst_stringNames 1000))
    as (agents & S & G & P & _ & O).
  exists agents. split; [exact S|]. split; [exact P|]. split; [exact (O C)|].
  vm_compute in G. injection G as <-. reflexivity.
Defined.

(** C5 as stated fails: on a snapshot with two definitions the empty query
    returns both of them, not an empty result. *)
Lemma searchAgents_empty_query_counterexample :
  fst (searchAgents Sample.twoRoots 1000 EmptyString (initial Sample.twoRoots))
  = Ok [Sample.customCoder; Sample.projectHelper]
  /\ [Sample.customCoder; Sample.projectHelper] <> [].
Proof. split; [vm_compute; reflexivity | discriminate]. Qed.

End ListingTheorems.

(* ===================================================================== *)
(** ** The unified registry *)
(* ===================================================================== *)

Section RegistryFacts.
Import Discovery Union UnifiedAgentRegistry.

Variable w : World.

Lemma refresh_cacheOk (now : Z) (st : CustomAgentLoader.Loader) :
  cacheOk (snd (CustomAgentLoader.refresh w now st)).
Proof.
  unfold CustomAgentLoader.refresh, bind, modify.
  destruct (loadAgents_run w now (CustomAgentLoader.withLastLoadTime 0 st))
    as (_ & _ & (ds & D) & _).
  unfold cacheOk. rewrite D. apply mergeAgents_ok.
Qed.

Lemma ensureLoaded_cacheOk (now : Z) (st : CustomAgentLoader.Loader) :
  cacheOk st -> cacheOk (snd (CustomAgentLoader.ensureLoaded w now st)).
Proof.
  intros H. destruct (ensureLoaded_cases now st) as [[Hne Hf]|Hs].
  - now rewrite (ensureLoaded_fresh w now st Hne Hf).
  - rewrite (ensureLoaded_stale w now st Hs).
    destruct (loadAgents_run w now st) as (_ & _ & (ds & D) & _).
    unfold cacheOk. rewrite D. apply mergeAgents_ok.
Qed.

Lemma ensureInitialized_unfold (now : Z) (p : Process) :
  ensureInitialized w now p =
  if initialized p then (Ok tt, p)
  else
    match CustomAgentLoader.refresh w now (loader p) with
    | (Ok _, l) => (Ok tt, {| loader := l; initialized := true |})
    | (Throw e, l) => (Throw e, {| loader := l; initialized := false |})
    end.
Proof.
  unfold ensureInitialized, bind, gets, onLoader, setInitialized, modify, ret.
  destruct p as [l0 [|]]; simpl; [reflexivity|].
  destruct (CustomAgentLoader.refresh w now l0) as [[u|e] l]; reflexivity.
Qed.

Lemma ensureInitialized_cacheOk (now : Z) (p : Process) :
  cacheOk (loader p) -> cacheOk (loader (snd (ensureInitialized w now p))).
Proof.
  intros H. rewrite ensureInitialized_unfold.
  destruct (initialized p); [exact H|].
  pose proof (refresh_cacheOk now (loader p)) as R.
  destruct (CustomAgentLoader.refresh w now (loader p)) as [[u|e] l]; exact R.
Qed.

Lemma ensureInitialized_ok (now : Z) (p : Process) :
  rootsListable w -> fst (ensureInitialized w now p) = Ok tt.
Proof.
  intros L. rewrite ensureInitialized_unfold.
  destruct (initialized p); [reflexivity|].
  unfold CustomAgentLoader.refresh, bind, modify.
  destruct (loadAgents_run w now (CustomAgentLoader.withLastLoadTime 0 (loader p)))
    as (_ & _ & _ & O & _).
  apply O in L.
  destruct (CustomAgentLoader.loadAgents w now
              (CustomAgentLoader.withLastLoadTime 0 (loader p))) as [[[]|e] l];
    simpl in *; [reflexivity | discriminate].
Qed.

Lemma served_cacheOk (now : Z) (p : Process) :
  cacheOk (loader p) -> cacheOk (served w now p).
Proof.
  intros H. apply ensureLoaded_cacheOk. now apply ensureInitialized_cacheOk.
Qed.

Lemma getAgent_unfold (now : Z) (n : string) (p : Process) :
  getAgent w now n p =
  match ensureInitialized w now p with
  | (Ok _, p1) =>
      match CustomAgentLoader.ensureLoaded w now (loader p1) with
      | (Ok _, l2) =>
          (Ok (match JsMap.get (JStr n) (CustomAgentLoader.agentCache l2) with
               | Some d => Some (Discovered d)
               | None => option_map Catalogued (JsMap.get (JStr n) builtInAgents)
               end),
           {| loader := l2; initialized := initialized p1 |})
      | (Throw e, l2) => (Throw e, {| loader := l2; initialized := initialized p1 |})
      end
  | (Throw e, p1) => (Throw e, p1)
  end.
Proof.
  unfold getAgent, bind.
  destruct (ensureInitialized w now p) as [[u|e] p1]; [|reflexivity].
  unfold onLoader, CustomAgentLoader.getAgent, bind, gets.
  destruct (CustomAgentLoader.ensureLoaded w now (loader p1)) as [[u2|e] l2];
    [|reflexivity].
  simpl. destruct (JsMap.get (JStr n) (CustomAgentLoader.agentCache l2)); reflexivity.
Qed.

Lemma loader_getAllAgents_served (now : Z) (p : Process) :
  fst (ensureInitialized w now p) = Ok tt ->
  CustomAgentLoader.getAllAgents w now (loader (snd (ensureInitialized w now p)))
  = match fst (CustomAgentLoader.ensureLoaded w now
                 (loader (snd (ensureInitialized w now p)))) with
    | Ok _ =>
        (sortBy (fun a b => CustomAgentLoader.compareNames w (name a) (name b))
           (JsMap.values (CustomAgentLoader.agentCache (served w now p))),
         served w now p)
    | Throw e => (Throw e, served w now p)
    end.
Proof.
  intros _. rewrite getAllAgents_unfold. unfold served.
  destruct (CustomAgentLoader.ensureLoaded w now
              (loader (snd (ensureInitialized w now p)))) as [[u|e] l2];
    reflexivity.
Qed.

(** What a successful full listing is made of. *)
Lemma getAllAgents_inv (now : Z) (p : Process) (agents : list Agent) :
  fst (getAllAgents w now p) = Ok agents ->
  exists customAgents,
    sortBy (fun a b => CustomAgentLoader.compareNames w (name a) (name b))
      (JsMap.values (CustomAgentLoader.agentCache (served w now p)))
    = Ok customAgents
    /\ sortBy
         (fun a b => CustomAgentLoader.compareNames w (agentName a) (agentName b))
         (JsMap.values (overlay customAgents catalogueCopy))
       = Ok agents.
Proof.
  unfold getAllAgents, bind, onLoader, lift.
  pose proof (loader_getAllAgents_served now p) as G.
  destruct (ensureInitialized w now p) as [[[]|e] p1]; [|discriminate].
  simpl in G. rewrite (G eq_refl).
  destruct (fst (CustomAgentLoader.ensureLoaded w now (loader p1)));
    [|discriminate].
  destruct (sortBy _ (JsMap.values (CustomAgentLoader.agentCache (served w now p))))
    as [customAgents|e]; [|discriminate].
  simpl. intros H. exists customAgents. split; [reflexivity | exact H].
Qed.

(** What successful statistics are made of. *)
Lemma getStats_inv (now : Z) (p : Process) (stats : Stats) :
  fst (getStats w now p) = Ok stats ->
  exists customAgents,
    sortBy (fun a b => CustomAgentLoader.compareNames w (name a) (name b))
      (JsMap.values (CustomAgentLoader.agentCache (served w now p)))
    = Ok customAgents
    /\ overriddenBuiltIns stats
       = filter (setHas (map name customAgents)) (JsMap.keys builtInAgents)
    /\ totalAgents stats
       = Z.of_nat (JsMap.size builtInAgents) + Z.of_nat (length customAgents)
         - Z.of_nat (length (overriddenBuiltIns stats))
    /\ builtInCount stats = JsMap.size builtInAgents
    /\ customCount stats = length customAgents.
Proof.
  unfold getStats, bind, onLoader, ret.
  pose proof (loader_getAllAgents_served now p) as G.
  destruct (ensureInitialized w now p) as [[[]|e] p1]; [|discriminate].
  simpl in G. rewrite (G eq_refl).
  destruct (fst (CustomAgentLoader.ensureLoaded w now (loader p1)));
    [|discriminate].
  destruct (sortBy _ (JsMap.values (CustomAgentLoader.agentCache (served w now p))))
    as [customAgents|e]; [|discriminate].
  simpl. intros H. inversion H; subst stats; clear H.
  exists customAgents. simpl. repeat split; reflexivity.
Qed.

End RegistryFacts.

Section UnionFacts.
Import Discovery Union UnifiedAgentRegistry.

Lemma catalogueCopy_ok :
  distinctKeys catalogueCopy /\ keyedByAgentName catalogueCopy.
Proof.
  unfold catalogueCopy.
  assert (G : forall l m,
             distinctKeys m /\ keyedByAgentName m ->
             (forall k b, In (k, b) l -> k = JStr (BuiltIn.name b)) ->
             distinctKeys
               (fold_left (fun m kv => JsMap.set (fst kv) (Catalogued (snd kv)) m) l m)
             /\ keyedByAgentName
                  (fold_left (fun m kv => JsMap.set (fst kv) (Catalogued (snd kv)) m) l m)).
  { induction l as [|[k b] l IH]; intros m [Hd Hk] Hl; simpl; [auto|].
    apply IH; [|intros k' b' H; apply Hl; now right].
    split; [now apply distinctKeys_set|].
    intros k' a Hin. destruct (in_set _ _ _ _ _ Hin) as [H|[-> ->]]; [auto|].
    simpl. apply Hl. now left. }
  apply G.
  - split; [exact I | intros k a []].
  - intros k b Hin. vm_compute in Hin.
    repeat (destruct Hin as [Hin|Hin]; [inversion Hin; reflexivity|]).
    destruct Hin.
Qed.

Lemma overlay_ok (customAgents : list AgentDefinition) (m : JsMap.t Agent) :
  distinctKeys m /\ keyedByAgentName m ->
  distinctKeys (overlay customAgents m) /\ keyedByAgentName (overlay customAgents m).
Proof.
  revert m; induction customAgents as [|d l IH]; intros m [Hd Hk]; simpl; [auto|].
  apply IH. split; [now apply distinctKeys_set|].
  intros k a Hin. destruct (in_set _ _ _ _ _ Hin) as [H|[-> ->]]; auto.
Qed.

Lemma overlay_app (xs ys : list AgentDefinition) (m : JsMap.t Agent) :
  overlay (xs ++ ys) m = overlay ys (overlay xs m).
Proof. unfold overlay. apply fold_left_app. Qed.

Lemma overlay_other (k : JsValue) (l : list AgentDefinition) (m : JsMap.t Agent) :
  (forall d, In d l -> Js.sameValueZero (name d) k = false) ->
  JsMap.get k (overlay l m) = JsMap.get k m.
Proof.
  revert m; induction l as [|d l IH]; intros m H; simpl; [reflexivity|].
  rewrite IH; [|intros d' Hd'; apply H; now right].
  apply get_set_other. apply H. now left.
Qed.

(** A discovered definition takes the place of whatever had its name. *)
Lemma overlay_get (k : JsValue) (d : AgentDefinition) (l : list AgentDefinition)
  (m : JsMap.t Agent) :
  In d l -> name d = k -> Js.sameValueZero k k = true ->
  (forall d', In d' l -> name d' = k -> d' = d) ->
  JsMap.get k (overlay l m) = Some (Discovered d).
Proof.
  intros Hin Hn Hk Hu.
  destruct (last_satisfying (fun x => Js.sameValueZero (name x) k) l d Hin)
    as (b & d0 & af & E & H0 & Haf); [now rewrite Hn|].
  apply sameValueZero_eq in H0.
  assert (d0 = d) as ->.
  { apply Hu; [|exact H0]. rewrite E. apply in_or_app. right. now left. }
  rewrite E, overlay_app. simpl.
  rewrite overlay_other by exact Haf.
  rewrite Hn. now apply get_set_same.
Qed.

(** In a map with distinct keys, filed by name, a name has one entry. *)
Lemma named_single (k : JsValue) (a : Agent) (m : JsMap.t Agent) :
  distinctKeys m -> keyedByAgentName m ->
  JsMap.get k m = Some a ->
  named k (JsMap.values m) = [a].
Proof.
  unfold named, JsMap.values.
  induction m as [|[k0 a0] m IH]; intros Hd Hk Hg; simpl in *; [discriminate|].
  destruct Hd as [Hd Hm].
  assert (Hk' : keyedByAgentName m) by (intros k' a' H; apply Hk; now right).
  rewrite <- (Hk k0 a0 (or_introl eq_refl)).
  destruct (Js.sameValueZero k0 k) eqn:E.
  - inversion Hg; subst a0. f_equal.
    apply sameValueZero_eq in E. subst k0.
    clear IH Hg Hk. induction m as [|[k1 a1] m IHm]; simpl; [reflexivity|].
    rewrite <- (Hk' k1 a1 (or_introl eq_refl)).
    rewrite sameValueZero_sym, (Hd k1 a1 (or_introl eq_refl)).
    apply IHm.
    + intros k' v' H. apply (Hd k' v'). now right.
    + now destruct Hm.
    + intros k' v' H. apply Hk'. now right.
  - now apply IH.
Qed.

End UnionFacts.

Section Invariant.
Import Discovery Union UnifiedAgentRegistry Session.

Create HintDb keeps discriminated.

Lemma keeps_ret {A : Type} (a : A) : keeps (ret a).
Proof. intros st H. exact H. Qed.

Lemma keeps_bind {A B : Type} (m : M CustomAgentLoader.Loader A)
  (k : A -> M CustomAgentLoader.Loader B) :
  keeps m -> (forall a, keeps (k a)) -> keeps (bind m k).
Proof.
  intros Hm Hk st H. unfold bind. specialize (Hm st H).
  destruct (m st) as [[a|e] st1]; simpl in *; [now apply Hk | exact Hm].
Qed.

Lemma keeps_gets {A : Type} (f : CustomAgentLoader.Loader -> A) : keeps (gets f).
Proof. intros st H. exact H. Qed.

Lemma keeps_lift {A : Type} (r : Result A) : keeps (lift r).
Proof. intros st H. exact H. Qed.

Lemma keeps_tryCatch {A : Type} (body : M CustomAgentLoader.Loader A)
  (handler : Exn -> M CustomAgentLoader.Loader A) :
  keeps body -> (forall e, keeps (handler e)) -> keeps (tryCatch body handler).
Proof.
  intros Hb Hh st H. unfold tryCatch. specialize (Hb st H).
  destruct (body st) as [[a|e] st1]; simpl in *; [exact Hb | now apply Hh].
Qed.

Lemma keeps_pushLoadError (msg : string) : keeps (CustomAgentLoader.pushLoadError msg).
Proof. intros st H. exact H. Qed.

Lemma keeps_setTime (t : Z) : keeps (modify (CustomAgentLoader.withLastLoadTime t)).
Proof. intros st H. exact H. Qed.

Lemma keeps_loadAgents (w : World) (now : Z) : keeps (CustomAgentLoader.loadAgents w now).
Proof.
  intros st _. destruct (loadAgents_run w now st) as (_ & _ & (ds & D) & _).
  unfold cacheOk. rewrite D. apply mergeAgents_ok.
Qed.

Lemma keeps_ensureLoaded (w : World) (now : Z) :
  keeps (CustomAgentLoader.ensureLoaded w now).
Proof. intros st H. now apply ensureLoaded_cacheOk. Qed.

Lemma keeps_parseAgentFile (w : World) (f b : string) :
  keeps (CustomAgentLoader.parseAgentFile w f b).
Proof.
  intros st H. destruct (parseAgentFile_run w f b st) as (_ & C & _).
  unfold cacheOk. now rewrite C.
Qed.

Lemma keeps_clearCache : keeps CustomAgentLoader.clearCache.
Proof. intros st _. split; [exact I | intros k d []]. Qed.

Hint Resolve keeps_ret keeps_gets keeps_lift keeps_pushLoadError keeps_setTime
  keeps_loadAgents keeps_ensureLoaded keeps_parseAgentFile keeps_clearCache : keeps.

Ltac keeps_step :=
  repeat match goal with
         | |- keeps (bind _ _) => apply keeps_bind; [|intros ?]
         | |- keeps (tryCatch _ _) => apply keeps_tryCatch; [|intros ?]
         | |- keeps (if ?c then _ else _) => destruct c
         | |- keeps (match ?o with Some _ => _ | None => _ end) => destruct o
         | |- keeps (let (_, _) := ?x in _) => destruct x
         | |- keeps _ => solve [auto with keeps]
         end.

Lemma keeps_getAgent (w : World) (now : Z) (n : string) :
  keeps (CustomAgentLoader.getAgent w now n).
Proof. unfold CustomAgentLoader.getAgent. keeps_step. Qed.

Lemma keeps_getAllAgents (w : World) (now : Z) :
  keeps (CustomAgentLoader.getAllAgents w now).
Proof. unfold CustomAgentLoader.getAllAgents. keeps_step. Qed.

Lemma keeps_hasAgent (w : World) (now : Z) (n : string) :
  keeps (CustomAgentLoader.hasAgent w now n).
Proof. unfold CustomAgentLoader.hasAgent. keeps_step. Qed.

Lemma keeps_searchAgents (w : World) (now : Z) (q : string) :
  keeps (CustomAgentLoader.searchAgents w now q).
Proof.
  unfold CustomAgentLoader.searchAgents.
  pose proof (keeps_getAllAgents w now). keeps_step.
Qed.

Lemma keeps_validateAgentFile (w : World) (f : string) :
  keeps (CustomAgentLoader.validateAgentFile w f).
Proof. unfold CustomAgentLoader.validateAgentFile. keeps_step. Qed.

Lemma keeps_refresh (w : World) (now : Z) : keeps (CustomAgentLoader.refresh w now).
Proof. unfold CustomAgentLoader.refresh. keeps_step. Qed.

Hint Resolve keeps_getAgent keeps_getAllAgents keeps_hasAgent keeps_searchAgents
  keeps_validateAgentFile keeps_refresh : keeps.

Lemma keepsCache_onLoader {A : Type} (m : M CustomAgentLoader.Loader A) :
  keeps m -> keepsCache (onLoader m).
Proof.
  intros Hm p H. unfold onLoader. specialize (Hm (loader p) H).
  destruct (m (loader p)) as [r l]. exact Hm.
Qed.

Lemma keepsCache_ret {A : Type} (a : A) : keepsCache (ret a).
Proof. intros p H. exact H. Qed.

Lemma keepsCache_bind {A B : Type} (m : M Process A) (k : A -> M Process B) :
  keepsCache m -> (forall a, keepsCache (k a)) -> keepsCache (bind m k).
Proof.
  intros Hm Hk p H. unfold bind. specialize (Hm p H).
  destruct (m p) as [[a|e] p1]; simpl in *; [now apply Hk | exact Hm].
Qed.

Lemma keepsCache_setInitialized : keepsCache setInitialized.
Proof. intros p H. exact H. Qed.

Lemma keepsCache_gets {A : Type} (f : Process -> A) : keepsCache (gets f).
Proof. intros p H. exact H. Qed.

Lemma keepsCache_lift {A : Type} (r : Result A) : keepsCache (lift r).
Proof. intros p H. exact H. Qed.

Hint Resolve keepsCache_ret keepsCache_setInitialized keepsCache_gets
  keepsCache_lift : keeps.

Ltac keepsCache_step :=
  repeat match goal with
         | |- keepsCache (bind _ _) => apply keepsCache_bind; [|intros ?]
         | |- keepsCache (onLoader _) => apply keepsCache_onLoader
         | |- keepsCache (if ?c then _ else _) => destruct c
         | |- keepsCache (match ?o with Some _ => _ | None => _ end) => destruct o
         | |- keepsCache _ => solve [auto with keeps]
         | |- keeps _ => solve [auto with keeps]
         end.

Lemma keepsCache_ensureInitialized (w : World) (now : Z) :
  keepsCache (ensureInitialized w now).
Proof. unfold ensureInitialized. keepsCache_step. Qed.

Hint Resolve keepsCache_ensureInitialized : keeps.

Lemma keepsCache_getAgent (w : World) (now : Z) (n : string) :
  keepsCache (getAgent w now n).
Proof. unfold getAgent. keepsCache_step. Qed.

Hint Resolve keepsCache_getAgent : keeps.

Lemma keepsCache_hasAgent (w : World) (now : Z) (n : string) :
  keepsCache (hasAgent w now n).
Proof. unfold hasAgent. keepsCache_step. Qed.

Lemma keepsCache_getAllAgents (w : World) (now : Z) :
  keepsCache (getAllAgents w now).
Proof. unfold getAllAgents. keepsCache_step. Qed.

Lemma keepsCache_getAgentCapabilities (w : World) (now : Z) (n : string) :
  keepsCache (getAgentCapabilities w now n).
Proof. unfold getAgentCapabilities. keepsCache_step. Qed.

Lemma keepsCache_getStats (w : World) (now : Z) : keepsCache (getStats w now).
Proof. unfold getStats. keepsCache_step. Qed.

Lemma keepsCache_refresh (w : World) (now : Z) : keepsCache (refresh w now).
Proof. unfold refresh. keepsCache_step. Qed.

Hint Resolve keepsCache_hasAgent keepsCache_getAllAgents
  keepsCache_getAgentCapabilities keepsCache_getStats keepsCache_refresh : keeps.


End Invariant.

Section RegistryTheorems.
Import Discovery Union UnifiedAgentRegistry.

(** C6, as the code has it. The capabilities returned for a name are
    those of the discovered definition of that name in the snapshot the read
    is answered from; without one, those of the catalogue entry of that
    name; without either, the fixed default sequence.  The call returns when
    every search path can be listed. *)
Theorem getAgentCapabilities_sources (w : World) (now : Z) (n : string) (p : Process) :
  (forall caps,
      fst (getAgentCapabilities w now n p) = Ok caps ->
      caps =
      match JsMap.get (JStr n) (CustomAgentLoader.agentCache (served w now p)) with
      | Some d => capabilities d
      | None =>
          match JsMap.get (JStr n) builtInAgents with
          | Some b => map JStr (BuiltIn.capabilities b)
          | None => defaultCapabilities
          end
      end)
  /\ (rootsListable w -> exists caps, fst (getAgentCapabilities w now n p) = Ok caps).
Proof.
  unfold getAgentCapabilities, bind, ret. rewrite getAgent_unfold. unfold served.
  generalize (JsMap.get (JStr n) builtInAgents). intros bi.
  pose proof (ensureInitialized_ok w now p) as I.
  destruct (ensureInitialized w now p) as [[u|e] p1]; simpl in *.
  - pose proof (ensureLoaded_ok w now (loader p1)) as L.
    destruct (CustomAgentLoader.ensureLoaded w now (loader p1)) as [[u2|e] l2];
      simpl in *.
    + split.
      * intros caps.
        destruct (JsMap.get (JStr n) (CustomAgentLoader.agentCache l2)) as [d|];
          simpl; [congruence|].
        destruct bi as [b|]; simpl; congruence.
      * intros _.
        destruct (JsMap.get (JStr n) (CustomAgentLoader.agentCache l2)) as [d|];
          simpl; [eauto|].
        destruct bi as [b|]; simpl; eauto.
    + split; [discriminate|]. intros R. specialize (L R). discriminate.
  - split; [discriminate|]. intros R. specialize (I R). discriminate.
Qed.

(** A discovered name gets its own capabilities, an unknown name the
    default ones. *)
Lemma getAgentCapabilities_sources_witness :
  rootsListable Sample.twoRoots
  /\ fst (getAgentCapabilities Sample.twoRoots 1000 "helper"
            (initial Sample.twoRoots))
     = Ok (capabilities Sample.projectHelper)
  /\ JsMap.get (JStr "helper")
       (CustomAgentLoader.agentCache
          (served Sample.twoRoots 1000 (initial Sample.twoRoots)))
     = Some Sample.projectHelper
  /\ exists caps,
       fst (getAgentCapabilities Sample.twoRoots 1000 "nobody"
              (initial Sample.twoRoots)) = Ok caps
       /\ caps = defaultCapabilities.
Proof.
  split; [exact twoRoots_listable|].
  split; [vm_compute; reflexivity|]. split; [vm_compute; reflexivity|].
  destruct (getAgentCapabilities_sources Sample.twoRoots 1000 "nobody"
              (initial Sample.twoRoots)) as [H T].
  destruct (T twoRoots_listable) as [caps E].
  exists caps. split; [exact E|]. exact (H caps E).
Defined.

(** C6 as stated fails: no definition named [coder] is discovered, and
    the capabilities returned for [coder] are those of the catalogue entry,
    not the default sequence. *)
Lemma getAgentCapabilities_builtin_counterexample :
  JsMap.get (JStr "coder")
    (CustomAgentLoader.agentCache (served Sample.noRoots 1000 (initial Sample.noRoots)))
  = None
  /\ fst (getAgentCapabilities Sample.noRoots 1000 "coder" (initial Sample.noRoots))
     = Ok [JStr "Code Generation"; JStr "Implementation"; JStr "Refactoring";
           JStr "Debugging"]
  /\ [JStr "Code Generation"; JStr "Implementation"; JStr "Refactoring";
      JStr "Debugging"] <> defaultCapabilities.
Proof. split; [|split]; try (vm_compute; reflexivity). discriminate. Qed.






End RegistryTheorems.

(* ===================================================================== *)
(** ** The enumeration of a root *)
(* ===================================================================== *)

Section EnumerationFacts.
Import Str CustomAgentLoader Discovery Report.

(** Induction on a tree, with the hypothesis for every entry of a
    directory. *)
Lemma Node_entries_ind (P : Node -> Prop) :
  (forall data, P (NFile data)) ->
  P NOther ->
  (forall entries, Forall (fun entry => P (snd entry)) entries -> P (NDir entries)) ->
  forall n, P n.
Proof.
  intros Hf Ho Hd. fix IH 1. intros [data|entries|]; [apply Hf| |apply Ho].
  apply Hd. induction entries as [|[k child] es IHes]; constructor.
  - apply IH.
  - exact IHes.
Qed.

Lemma join_prefix (dir entryName : string) :
  exists rest, Path.join dir entryName = dir ++ rest.
Proof.
  unfold Path.join. destruct (String.eqb dir "/") eqn:E.
  - apply String.eqb_eq in E. subst dir. now exists entryName.
  - now exists ("/" ++ entryName).
Qed.

Lemma basename_join (dir entryName : string) :
  noSlash entryName = true -> entryName <> EmptyString ->
  Path.basename (Path.join dir entryName) = entryName.
Proof.
  intros Hs Hn. unfold Path.join. destruct (String.eqb dir "/").
  - apply (basename_of_join EmptyString entryName Hs Hn).
  - apply (basename_of_join dir entryName Hs Hn).
Qed.

Lemma plainNames_entry (seg : string) (entries : list (string * Node)) (child : Node) :
  plainNames (NDir entries) = true ->
  Fs.entryNamed seg entries = Some child ->
  plainNames child = true.
Proof.
  simpl. induction entries as [|[k c] es IH]; simpl; [discriminate|].
  intros H E. apply andb_prop in H as [Hc Hes].
  destruct (String.eqb k seg).
  - injection E as <-. now apply andb_prop in Hc as [_ Hc].
  - now apply IH.
Qed.

Lemma plainNames_lookupIn (segs : list string) (n n' : Node) :
  plainNames n = true -> Fs.lookupIn n segs = Some n' -> plainNames n' = true.
Proof.
  revert n. induction segs as [|seg segs IH]; intros n Hp; simpl.
  - now intros [= <-].
  - destruct n as [data|entries|]; try discriminate.
    destruct (Fs.entryNamed seg entries) as [child|] eqn:E; [|discriminate].
    apply IH. exact (plainNames_entry seg entries child Hp E).
Qed.

Lemma findMarkdownFilesIn_sound (n : Node) :
  forall dir f,
    plainNames n = true -> In f (findMarkdownFilesIn dir n) ->
    eligible (Path.basename f) = true /\ exists rest, f = dir ++ rest.
Proof.
  induction n as [data| |entries IH] using Node_entries_ind;
    intros dir f Hp Hin; try contradiction.
  simpl in Hin. apply in_flat_map in Hin as ([k child] & Hentry & Hf).
  simpl in Hp. rewrite forallb_forall in Hp. specialize (Hp _ Hentry).
  simpl in Hp, Hf.
  apply andb_prop in Hp as [Hk Hchild]. apply andb_prop in Hk as [Hne Hslash].
  rewrite Forall_forall in IH. specialize (IH _ Hentry). simpl in IH.
  destruct child as [data|sub|].
  - destruct (eligible k) eqn:E; [|contradiction].
    destruct Hf as [<-|[]]. split.
    + rewrite basename_join; auto. now destruct k.
    + apply join_prefix.
  - destruct (IH (Path.join dir k) f Hchild Hf) as [He [rest ->]].
    split; [exact He|].
    destruct (join_prefix dir k) as [r ->].
    exists (r ++ rest). apply append_assoc.
  - contradiction.
Qed.

End EnumerationFacts.

Section EnumerationTheorems.
Import Str CustomAgentLoader Discovery Report.

(** X1. In a tree whose entry names are plain, every path [findMarkdownFiles]
    returns for a directory starts with that directory and ends in a file
    name that has the extension [.md] in any letter case, is not
    [readme.md] in any letter case and does not contain [migration] in any
    letter case. *)
Theorem findMarkdownFiles_only_agent_files (w : World) (dir : string)
  (files : list string) (f : string) :
  plainNames (root w) = true ->
  findMarkdownFiles w dir = Ok files ->
  In f files ->
  (exists rest, f = dir ++ rest)
  /\ toLowerCase (Path.extname (Path.basename f)) = ".md"
  /\ toLowerCase (Path.basename f) <> "readme.md"
  /\ includes (toLowerCase (Path.basename f)) "migration" = false.
Proof.
  intros Hp Hfiles Hin. unfold findMarkdownFiles in Hfiles.
  destruct (negb (Fs.existsSync w dir)).
  - injection Hfiles as <-. contradiction.
  - unfold Fs.readdirSync in Hfiles.
    destruct (Fs.lookup w dir) as [[data|entries|]|] eqn:El; try discriminate.
    simpl in Hfiles. injection Hfiles as <-.
    assert (Hn : plainNames (NDir entries) = true).
    { unfold Fs.lookup in El. destruct (isEmpty dir); [discriminate|].
      exact (plainNames_lookupIn _ _ _ Hp El). }
    destruct (findMarkdownFilesIn_sound (NDir entries) dir f Hn Hin) as [He Hrest].
    split; [exact Hrest|].
    unfold eligible in He. apply andb_prop in He as [Hext Hname].
    apply andb_prop in Hname as [Hreadme Hmig].
    apply String.eqb_eq in Hext. apply negb_true_iff in Hreadme, Hmig.
    apply String.eqb_neq in Hreadme. auto.
Qed.

Lemma findMarkdownFiles_only_agent_files_witness :
  plainNames (root Worlds.mixedFiles) = true
  /\ findMarkdownFiles Worlds.mixedFiles "/proj/.claude/agents"
     = Ok ["/proj/.claude/agents/core/Coder.MD";
           "/proj/.claude/agents/core/broken.md";
           "/proj/.claude/agents/core/locked.md"]
  /\ toLowerCase (Path.extname (Path.basename "/proj/.claude/agents/core/Coder.MD"))
     = ".md"
  /\ includes (toLowerCase (Path.basename "/proj/.claude/agents/core/Coder.MD"))
       "migration" = false.
Proof.
  assert (Hp : plainNames (root Worlds.mixedFiles) = true) by reflexivity.
  assert (Hf : findMarkdownFiles Worlds.mixedFiles "/proj/.claude/agents"
               = Ok ["/proj/.claude/agents/core/Coder.MD";
                     "/proj/.claude/agents/core/broken.md";
                     "/proj/.claude/agents/core/locked.md"])
    by (vm_compute; reflexivity).
  destruct (findMarkdownFiles_only_agent_files Worlds.mixedFiles
              "/proj/.claude/agents" _ "/proj/.claude/agents/core/Coder.MD"
              Hp Hf (or_introl eq_refl)) as (_ & Hext & _ & Hmig).
  repeat split; assumption.
Defined.





End EnumerationTheorems.

(* ===================================================================== *)
(** ** The header block and the definition built from it *)
(* ===================================================================== *)

Section HeaderFacts.
Import Str CustomAgentLoader Discovery.

Lemma eol_lineBreak (e r : string) : lineBreak e -> eol (e ++ r) = Some r.
Proof. intros [->| ->]; reflexivity. Qed.

Lemma closingDelimiter_at (e2 e3 b : string) :
  lineBreak e2 -> lineBreak e3 ->
  closingDelimiter (e2 ++ "---" ++ e3 ++ b) = Some b.
Proof.
  intros H2 H3. unfold closingDelimiter.
  rewrite (eol_lineBreak e2 _ H2), (stripPrefix_app "---" (e3 ++ b)).
  apply (eol_lineBreak e3 b H3).
Qed.

(** Three hyphens do not start where the header text runs out and a line
    break follows. *)
Lemma stripPrefix_hyphens (h e2 t : string) :
  stripPrefix "---" h = None -> lineBreak e2 ->
  stripPrefix "---" (h ++ e2 ++ t) = None.
Proof.
  intros Hh He.
  assert (HL : Ascii.eqb "-" LF = false) by reflexivity.
  assert (HC : Ascii.eqb "-" CR = false) by reflexivity.
  destruct h as [|c1 [|c2 [|c3 h3]]]; destruct He as [->| ->];
    cbn [stripPrefix append] in *;
    repeat match goal with
           | |- context [Ascii.eqb "-" LF] => rewrite HL
           | |- context [Ascii.eqb "-" CR] => rewrite HC
           | |- context [Ascii.eqb "-" ?c] => destruct (Ascii.eqb "-" c)
           end;
    try reflexivity; try discriminate.
Qed.

Lemma headerAndBody_unfold (s : string) :
  headerAndBody s =
  match closingDelimiter s with
  | Some body => Some (EmptyString, body)
  | None =>
      match s with
      | EmptyString => None
      | String c s' =>
          match headerAndBody s' with
          | Some (h, b) => Some (String c h, b)
          | None => None
          end
      end
  end.
Proof. destruct s; reflexivity. Qed.

(** No closing delimiter starts inside a header that holds no line feed
    followed by three hyphens and does not end in a carriage return. *)
Lemma closingDelimiter_inside (c : ascii) (h e2 t : string) :
  includes (String c h) (String LF "---") = false ->
  stripSuffix (String CR EmptyString) (String c h) = None ->
  lineBreak e2 ->
  closingDelimiter (String c h ++ e2 ++ t) = None.
Proof.
  intros Hi Hs He. rewrite includes_unfold in Hi.
  destruct (stripPrefix (String LF "---") (String c h)) eqn:Ep; [discriminate|].
  cbn [stripPrefix] in Ep.
  unfold closingDelimiter. cbn [append eol].
  destruct (Ascii.eqb c CR) eqn:Ecr.
  - apply Ascii.eqb_eq in Ecr. subst c.
    destruct h as [|c' h'].
    + vm_compute in Hs. discriminate.
    + cbn [append]. destruct (Ascii.eqb c' LF) eqn:Elf; [|reflexivity].
      apply Ascii.eqb_eq in Elf. subst c'.
      rewrite includes_unfold in Hi.
      destruct (stripPrefix (String LF "---") (String LF h')) eqn:Ep'; [discriminate|].
      cbn [stripPrefix] in Ep'. rewrite Ascii.eqb_refl in Ep'.
      now rewrite (stripPrefix_hyphens h' e2 t Ep' He).
  - destruct (Ascii.eqb c LF) eqn:Elf; [|reflexivity].
    apply Ascii.eqb_eq in Elf. subst c. rewrite Ascii.eqb_refl in Ep.
    now rewrite (stripPrefix_hyphens h e2 t Ep He).
Qed.

Lemma headerAndBody_document (h e2 e3 b : string) :
  includes h (String LF "---") = false ->
  stripSuffix (String CR EmptyString) h = None ->
  lineBreak e2 -> lineBreak e3 ->
  headerAndBody (h ++ e2 ++ "---" ++ e3 ++ b) = Some (h, b).
Proof.
  intros Hi Hs H2 H3. induction h as [|c h IH].
  - change (EmptyString ++ e2 ++ "---" ++ e3 ++ b) with (e2 ++ "---" ++ e3 ++ b).
    rewrite headerAndBody_unfold.
    now rewrite (closingDelimiter_at e2 e3 b H2 H3).
  - rewrite headerAndBody_unfold.
    rewrite (closingDelimiter_inside c h e2 _ Hi Hs H2).
    change (String c h ++ e2 ++ "---" ++ e3 ++ b)
      with (String c (h ++ e2 ++ "---" ++ e3 ++ b)).
    cbv beta iota. rewrite IH; [reflexivity| |].
    + rewrite includes_unfold in Hi.
      now destruct (stripPrefix (String LF "---") (String c h)).
    + cbn [stripSuffix] in Hs.
      destruct (String.eqb (String c h) (String CR EmptyString)); [discriminate|].
      now destruct (stripSuffix (String CR EmptyString) h).
Qed.

Lemma headerAndBody_unterminated (h e2 : string) :
  includes h (String LF "---") = false ->
  stripSuffix (String CR EmptyString) h = None ->
  lineBreak e2 ->
  headerAndBody (h ++ e2 ++ "---") = None.
Proof.
  intros Hi Hs H2. induction h as [|c h IH].
  - destruct H2 as [->| ->]; reflexivity.
  - rewrite headerAndBody_unfold.
    rewrite (closingDelimiter_inside c h e2 _ Hi Hs H2).
    change (String c h ++ e2 ++ "---") with (String c (h ++ e2 ++ "---")).
    cbv beta iota. rewrite IH; [reflexivity| |].
    + rewrite includes_unfold in Hi.
      now destruct (stripPrefix (String LF "---") (String c h)).
    + cbn [stripSuffix] in Hs.
      destruct (String.eqb (String c h) (String CR EmptyString)); [discriminate|].
      now destruct (stripSuffix (String CR EmptyString) h).
Qed.

Lemma trimEnd_trimEnd (s : string) : trimEnd (trimEnd s) = trimEnd s.
Proof.
  induction s as [|c s IH]; [reflexivity|].
  cbn [trimEnd]. destruct (isSpace c && isEmpty (trimEnd s)) eqn:E; [reflexivity|].
  cbn [trimEnd]. now rewrite IH, E.
Qed.

Lemma trim_trim (s : string) : trim (trim s) = trim s.
Proof.
  unfold trim.
  assert (H : trimStart s = EmptyString
              \/ exists c r, trimStart s = String c r /\ isSpace c = false).
  { induction s as [|c s IH]; [now left|].
    cbn [trimStart]. destruct (isSpace c) eqn:E; [exact IH|].
    right. now exists c, s. }
  destruct H as [->|(c & r & -> & Hc)]; [reflexivity|].
  cbn [trimEnd]. rewrite Hc. cbn [andb trimStart]. rewrite Hc.
  cbn [trimEnd]. rewrite Hc. cbn [andb]. now rewrite trimEnd_trimEnd.
Qed.

(** The text that replaces a missing name holds no white space. *)
Lemma hyphenateFrom_no_space (inRun : bool) (s : string) :
  allChars (fun c => negb (isSpace c)) (hyphenateFrom inRun s) = true.
Proof.
  revert inRun. induction s as [|c s IH]; intros inRun; [reflexivity|].
  cbn [hyphenateFrom]. destruct (isSpace c) eqn:E.
  - destruct inRun; [apply IH|]. cbn [allChars]. now rewrite IH.
  - cbn [allChars]. now rewrite E, IH.
Qed.

End HeaderFacts.

Section HeaderTheorems.
Import Str CustomAgentLoader Discovery.

(** X3. A document made of three hyphens, a header, three hyphens and a
    body, with line breaks (a line feed, with or without a carriage return
    before it) in between, is split back into that header and that body
    when the header holds no line feed followed by three hyphens and does
    not end in a carriage return; [parseFrontmatter] then returns what the
    YAML parser makes of the header, and the body without the white space
    around it. *)
Theorem frontmatter_round_trip (w : World) (e1 e2 e3 header body : string)
  (v : JsValue) :
  lineBreak e1 -> lineBreak e2 -> lineBreak e3 ->
  includes header (String LF "---") = false ->
  stripSuffix (String CR EmptyString) header = None ->
  matchFrontmatter ("---" ++ e1 ++ header ++ e2 ++ "---" ++ e3 ++ body)
  = Some (header, body)
  /\ (parseYaml w header = YamlValue v ->
      parseFrontmatter w ("---" ++ e1 ++ header ++ e2 ++ "---" ++ e3 ++ body)
      = (v, trim body)).
Proof.
  intros H1 H2 H3 Hi Hs.
  assert (Hm : matchFrontmatter ("---" ++ e1 ++ header ++ e2 ++ "---" ++ e3 ++ body)
               = Some (header, body)).
  { unfold matchFrontmatter.
    rewrite (stripPrefix_app "---"), (eol_lineBreak e1 _ H1).
    now apply headerAndBody_document. }
  split; [exact Hm|].
  intros Hy. unfold parseFrontmatter. now rewrite Hm, Hy.
Qed.

Lemma frontmatter_round_trip_witness :
  lineBreak Sample.nl
  /\ includes "name: coder" (String LF "---") = false
  /\ stripSuffix (String CR EmptyString) "name: coder" = None
  /\ parseYaml Sample.twoRoots "name: coder" = YamlValue (JObj [("name", JStr "coder")])
  /\ parseFrontmatter Sample.twoRoots (Sample.document "name: coder" " Custom coder. ")
     = (JObj [("name", JStr "coder")], "Custom coder.").
Proof.
  assert (Hl : lineBreak Sample.nl) by (left; reflexivity).
  split; [exact Hl|]. split; [reflexivity|]. split; [reflexivity|].
  split; [reflexivity|].
  exact (proj2 (frontmatter_round_trip Sample.twoRoots Sample.nl Sample.nl Sample.nl
                  "name: coder" " Custom coder. " (JObj [("name", JStr "coder")])
                  Hl Hl Hl eq_refl eq_refl) eq_refl).
Defined.

(** X4. A document that ends with the closing three hyphens, without a
    line break after them, has no header for the loader: the pattern asks
    for a line break after the closing delimiter, so [parseFrontmatter]
    returns no header and the whole text as the body, and [parseAgentFile]
    builds no definition from such a file. *)
Theorem frontmatter_needs_a_line_break_at_the_end (w : World) (e1 e2 header : string)
  (f b : string) :
  lineBreak e1 -> lineBreak e2 ->
  includes header (String LF "---") = false ->
  stripSuffix (String CR EmptyString) header = None ->
  matchFrontmatter ("---" ++ e1 ++ header ++ e2 ++ "---") = None
  /\ parseFrontmatter w ("---" ++ e1 ++ header ++ e2 ++ "---")
     = (JNull, "---" ++ e1 ++ header ++ e2 ++ "---")
  /\ (Fs.readFileSync w f = Ok ("---" ++ e1 ++ header ++ e2 ++ "---") ->
      parsedAgent w f b = None).
Proof.
  intros H1 H2 Hi Hs.
  assert (Hm : matchFrontmatter ("---" ++ e1 ++ header ++ e2 ++ "---") = None).
  { unfold matchFrontmatter.
    rewrite (stripPrefix_app "---"), (eol_lineBreak e1 _ H1).
    now apply headerAndBody_unterminated. }
  assert (Hp : parseFrontmatter w ("---" ++ e1 ++ header ++ e2 ++ "---")
               = (JNull, "---" ++ e1 ++ header ++ e2 ++ "---")).
  { unfold parseFrontmatter. now rewrite Hm. }
  split; [exact Hm|]. split; [exact Hp|].
  intros Hr. unfold parsedAgent, parseAgentFile, tryCatch, bind, lift.
  rewrite Hr, Hp. reflexivity.
Qed.

Lemma frontmatter_needs_a_line_break_at_the_end_witness :
  lineBreak Sample.nl
  /\ includes "name: coder" (String LF "---") = false
  /\ stripSuffix (String CR EmptyString) "name: coder" = None
  /\ parseFrontmatter Sample.twoRoots ("---" ++ Sample.nl ++ "name: coder" ++ Sample.nl ++ "---")
     = (JNull, "---" ++ Sample.nl ++ "name: coder" ++ Sample.nl ++ "---").
Proof.
  assert (Hl : lineBreak Sample.nl) by (left; reflexivity).
  split; [exact Hl|]. split; [reflexivity|]. split; [reflexivity|].
  exact (proj1 (proj2 (frontmatter_needs_a_line_break_at_the_end Sample.twoRoots
                         Sample.nl Sample.nl "name: coder" EmptyString EmptyString
                         Hl Hl eq_refl eq_refl))).
Defined.

(** X5. Every definition [parseAgentFile] builds has a truthy name, a
    truthy description and a truthy priority, names the file it was read
    from, and has a system prompt without white space at either end; when
    the header gives no truthy name, the name is a string derived from the
    file name that holds no white space. *)
Theorem parsed_definition_is_well_formed (w : World) (f b : string)
  (d : AgentDefinition) :
  parsedAgent w f b = Some d ->
  Js.truthy (name d) = true
  /\ Js.truthy (description d) = true
  /\ Js.truthy (priority d) = true
  /\ sourcePath d = f
  /\ trim (systemPrompt d) = systemPrompt d
  /\ exists content,
       Fs.readFileSync w f = Ok content
       /\ (Js.truthy (Js.prop (fst (parseFrontmatter w content)) "name") = true ->
           name d = Js.prop (fst (parseFrontmatter w content)) "name")
       /\ (Js.truthy (Js.prop (fst (parseFrontmatter w content)) "name") = false ->
           exists s, name d = JStr s
                     /\ allChars (fun c => negb (isSpace c)) s = true
                     /\ s = hyphenate (toLowerCase (Path.basenameExt f ".md"))).
Proof.
  unfold parsedAgent, parseAgentFile, tryCatch, bind, lift, pushLoadError,
    modify, ret.
  destruct (Fs.readFileSync w f) as [content|e]; [|simpl; discriminate].
  assert (Hbody : Js.truthy (fst (parseFrontmatter w content)) = true ->
                  trim (snd (parseFrontmatter w content))
                  = snd (parseFrontmatter w content)).
  { unfold parseFrontmatter.
    destruct (matchFrontmatter content) as [[y m]|]; [|simpl; discriminate].
    destruct (parseYaml w y); [|simpl; discriminate].
    intros _. apply trim_trim. }
  destruct (parseFrontmatter w content) as [fm body] eqn:Epf.
  simpl fst in *. simpl snd in *.
  destruct (Js.truthy fm) eqn:Efm; [|simpl; discriminate].
  cbn [negb].
  match goal with |- context [negb (Js.truthy ?n)] =>
    destruct (Js.truthy n) eqn:En end; [|simpl; discriminate].
  cbn [negb fst]. intros [= <-]. cbn [name description priority sourcePath systemPrompt].
  split; [exact En|]. split.
  { unfold Js.or.
    destruct (Js.truthy (Js.prop fm "description")) eqn:E1; [exact E1|].
    destruct (Js.truthy (Js.optProp (Js.prop fm "metadata") "description")) eqn:E2;
      [exact E2|reflexivity]. }
  split.
  { unfold Js.or. destruct (Js.truthy (Js.prop fm "priority")) eqn:E1;
      [exact E1|reflexivity]. }
  split; [reflexivity|]. split; [now apply Hbody|].
  exists content. split; [reflexivity|]. rewrite Epf. cbn [fst].
  unfold Js.or. split; intros Hn; rewrite Hn.
  - reflexivity.
  - eexists. split; [reflexivity|]. split; [|reflexivity].
    apply hyphenateFrom_no_space.
Qed.

Lemma parsed_definition_is_well_formed_witness :
  parsedAgent Sample.priorities "/proj/.claude/agents/high.md" "/proj/.claude/agents"
  = Some {| name := JStr "high"; type := JUndefined; color := JUndefined;
            description := JStr "Agent defined in high.md"; capabilities := [];
            priority := JStr "high"; hooks := JUndefined;
            systemPrompt := "Soon.";
            sourcePath := "/proj/.claude/agents/high.md";
            category := "custom"; isCustom := false |}
  /\ trim "Soon." = "Soon.".
Proof.
  assert (H : parsedAgent Sample.priorities "/proj/.claude/agents/high.md"
                "/proj/.claude/agents"
              = Some {| name := JStr "high"; type := JUndefined; color := JUndefined;
                        description := JStr "Agent defined in high.md";
                        capabilities := [];
                        priority := JStr "high"; hooks := JUndefined;
                        systemPrompt := "Soon.";
                        sourcePath := "/proj/.claude/agents/high.md";
                        category := "custom"; isCustom := false |})
    by (vm_compute; reflexivity).
  split; [exact H|].
  exact (proj1 (proj2 (proj2 (proj2 (proj2
           (parsed_definition_is_well_formed _ _ _ _ H)))))).
Defined.

End HeaderTheorems.

(* ===================================================================== *)
(** ** What a pass reports and what it keeps *)
(* ===================================================================== *)

Section PassFacts.
Import Str CustomAgentLoader Discovery Report.

Variable w : World.

Lemma includes_at_head (f q : string) : includes (f ++ q) f = true.
Proof. now rewrite includes_unfold, stripPrefix_app. Qed.

Lemma includes_self (f : string) : includes f f = true.
Proof.
  rewrite includes_unfold.
  assert (H : stripPrefix f f = Some EmptyString).
  { induction f as [|c f IH]; simpl; [reflexivity|]. now rewrite Ascii.eqb_refl. }
  now rewrite H.
Qed.

(** [parseAgentFile] appends its own errors to the list. *)
Lemma parseAgentFile_errors (f b : string) (st : Loader) :
  loadErrors (snd (parseAgentFile w f b st))
  = (loadErrors st ++ parseErrors w f b)%list.
Proof.
  unfold parseErrors, parseAgentFile, tryCatch, bind, lift, pushLoadError,
    modify, ret.
  destruct (Fs.readFileSync w f) as [content|e]; [|reflexivity].
  destruct (parseFrontmatter w content) as [fm body].
  destruct (negb (Js.truthy fm)); [reflexivity|].
  match goal with |- context [negb (Js.truthy ?n)] =>
    destruct (negb (Js.truthy n)) end; [reflexivity|].
  simpl. now rewrite app_nil_r.
Qed.

(** A file gives a definition and no error, or no definition and one
    error that names the file. *)
Lemma parse_outcome (f b : string) :
  (exists d, parsedAgent w f b = Some d /\ parseErrors w f b = [])
  \/ (parsedAgent w f b = None
      /\ exists msg, parseErrors w f b = [msg] /\ includes msg f = true).
Proof.
  unfold parsedAgent, parseErrors, parseAgentFile, tryCatch, bind, lift,
    pushLoadError, modify, ret.
  destruct (Fs.readFileSync w f) as [content|e].
  - destruct (parseFrontmatter w content) as [fm body].
    destruct (negb (Js.truthy fm)).
    + right. split; [reflexivity|]. eexists. split; [reflexivity|].
      apply includes_app_r, includes_self.
    + match goal with |- context [negb (Js.truthy ?n)] =>
        destruct (negb (Js.truthy n)) end.
      * right. split; [reflexivity|]. eexists. split; [reflexivity|].
        apply includes_app_r, includes_self.
      * left. eexists. split; reflexivity.
  - right. split; [reflexivity|]. eexists. split; [reflexivity|].
    apply includes_app_r, includes_at_head.
Qed.

Lemma cacheAgent_errors (a : AgentDefinition) (st : Loader) :
  loadErrors (snd (cacheAgent a st)) = loadErrors st.
Proof.
  unfold cacheAgent, bind, gets, modify, ret.
  destruct (JsMap.get (name a) (agentCache st)); [destruct (isCustom a)|]; reflexivity.
Qed.

Lemma fileBody_errors (root f : string) (st : Loader) :
  loadErrors (snd (fileBody w root f st))
  = (loadErrors st ++ parseErrors w f root)%list.
Proof.
  unfold fileBody, bind.
  pose proof (parseAgentFile_errors f root st) as E.
  destruct (parseAgentFile_run w f root st) as (R & _).
  destruct (parseAgentFile w f root st) as [r st1]. simpl in R, E. subst r.
  destruct (parsedAgent w f root) as [a|]; [|exact E].
  now rewrite cacheAgent_errors.
Qed.

Lemma files_loop_errors (root : string) (files : list string) (st : Loader) :
  loadErrors (snd (forEach files (fileBody w root) st))
  = (loadErrors st ++ flat_map (fun f => parseErrors w f root) files)%list.
Proof.
  revert st; induction files as [|f files IH]; intros st; simpl.
  - now rewrite app_nil_r.
  - unfold bind.
    pose proof (fileBody_errors root f st) as E.
    destruct (fileBody_run w root f st) as (R & _).
    destruct (fileBody w root f st) as [r st1]. simpl in R, E. subst r.
    now rewrite IH, E, app_assoc.
Qed.

Lemma rootBody_errors (root : string) (files : list string) (st : Loader) :
  findMarkdownFiles w root = Ok files ->
  loadErrors (snd (rootBody w root st))
  = (loadErrors st ++ errorsUnder w root)%list.
Proof.
  intros F. unfold rootBody, bind, lift, errorsUnder, filesOf. rewrite F.
  apply files_loop_errors.
Qed.

Lemma roots_loop_errors (roots : list string) (st : Loader) :
  (forall p, In p roots -> exists files, findMarkdownFiles w p = Ok files) ->
  loadErrors (snd (forEach roots (rootBody w) st))
  = (loadErrors st ++ flat_map (errorsUnder w) roots)%list.
Proof.
  revert st; induction roots as [|root roots IH]; intros st Hall; simpl.
  - now rewrite app_nil_r.
  - unfold bind.
    destruct (Hall root (or_introl eq_refl)) as [files F].
    pose proof (rootBody_errors root files st F) as E.
    destruct (rootBody_run w root st) as (_ & _ & _ & H). rewrite F in H.
    destruct H as [R _].
    destruct (rootBody w root st) as [r st1]. simpl in R, E. subst r.
    rewrite IH, E, app_assoc; [reflexivity|].
    intros p Hp. apply Hall. now right.
Qed.

Lemma flat_map_census {A B C : Type} (f : A -> list B) (g : A -> list C)
  (h : A -> nat) (l : list A) :
  (forall x, In x l -> (length (f x) + length (g x) = h x)%nat) ->
  (length (flat_map f l) + length (flat_map g l) = list_sum (map h l))%nat.
Proof.
  induction l as [|x l IH]; intros H; simpl; [reflexivity|].
  rewrite !length_app, <- IH, <- (H x (or_introl eq_refl)); [lia|].
  intros y Hy. apply H. now right.
Qed.

Lemma length_flat_map_sum {A B : Type} (f : A -> list B) (l : list A) :
  length (flat_map f l) = list_sum (map (fun x => length (f x)) l).
Proof.
  induction l as [|x l IH]; simpl; [reflexivity|]. now rewrite length_app, IH.
Qed.

Lemma mergeInto_other (k : JsValue) (ds : list AgentDefinition)
  (c : JsMap.t AgentDefinition) :
  (forall d, In d ds -> Js.sameValueZero (name d) k = false) ->
  JsMap.get k (mergeInto c ds) = JsMap.get k c.
Proof.
  revert c; induction ds as [|a ds IH]; intros c H; [reflexivity|].
  change (mergeInto c (a :: ds)) with (mergeInto (insertAgent a c) ds).
  rewrite IH by (intros d Hd; apply H; now right).
  apply insertAgent_get_other, H. now left.
Qed.

Lemma mergeInto_in (k : JsValue) (d : AgentDefinition) (ds : list AgentDefinition)
  (c : JsMap.t AgentDefinition) :
  In (k, d) (mergeInto c ds) -> In (k, d) c \/ In d ds.
Proof.
  revert c; induction ds as [|a ds IH]; intros c H; [now left|].
  change (mergeInto c (a :: ds)) with (mergeInto (insertAgent a c) ds) in H.
  destruct (IH _ H) as [H1|H1]; [|right; now right].
  destruct (insertAgent_in a c k d H1) as [H2| ->]; [now left|right; now left].
Qed.

(** A name that has an entry keeps having one. *)
Lemma mergeInto_present (k : JsValue) (ds : list AgentDefinition)
  (c : JsMap.t AgentDefinition) (d0 : AgentDefinition) :
  JsMap.get k c = Some d0 ->
  exists d, JsMap.get k (mergeInto c ds) = Some d.
Proof.
  revert c d0; induction ds as [|a ds IH]; intros c d0 H; [now exists d0|].
  change (mergeInto c (a :: ds)) with (mergeInto (insertAgent a c) ds).
  destruct (Js.sameValueZero (name a) k) eqn:E.
  - pose proof (sameValueZero_eq _ _ E) as N.
    unfold insertAgent. rewrite N, H.
    destruct (isCustom a); [|now apply (IH c d0)].
    apply (IH _ a), get_set_same. now rewrite N in E.
  - apply (IH _ d0). now rewrite insertAgent_get_other.
Qed.

Lemma mergeInto_defined (d : AgentDefinition) (ds : list AgentDefinition)
  (c : JsMap.t AgentDefinition) :
  In d ds -> Js.sameValueZero (name d) (name d) = true ->
  exists d', JsMap.get (name d) (mergeInto c ds) = Some d'.
Proof.
  intros Hin Hk. apply in_split in Hin as (l1 & l2 & ->).
  rewrite mergeInto_app.
  change (mergeInto (mergeInto c l1) (d :: l2))
    with (mergeInto (insertAgent d (mergeInto c l1)) l2).
  assert (H : exists d0, JsMap.get (name d) (insertAgent d (mergeInto c l1)) = Some d0).
  { unfold insertAgent.
    destruct (JsMap.get (name d) (mergeInto c l1)) as [d0|] eqn:G.
    - destruct (isCustom d); [|now exists d0].
      exists d. now apply get_set_same.
    - exists d. now apply get_set_same. }
  destruct H as [d0 H]. exact (mergeInto_present _ l2 _ d0 H).
Qed.

Lemma stripPrefix_app_l (sub s r x : string) :
  stripPrefix sub s = Some x -> stripPrefix sub (s ++ r) = Some (x ++ r).
Proof.
  revert s; induction sub as [|a sub IH]; intros s; simpl.
  - now intros [= <-].
  - destruct s as [|c s]; [discriminate|]. simpl.
    destruct (Ascii.eqb a c); [apply IH|discriminate].
Qed.

Lemma includes_app_l (s r sub : string) :
  includes s sub = true -> includes (s ++ r) sub = true.
Proof.
  induction s as [|c s IH]; intros H.
  - rewrite includes_unfold in H.
    destruct (stripPrefix sub EmptyString) as [x|] eqn:E; [|discriminate].
    rewrite includes_unfold, (stripPrefix_app_l _ _ r _ E). reflexivity.
  - rewrite includes_unfold in H. rewrite includes_unfold.
    destruct (stripPrefix sub (String c s)) as [x|] eqn:E.
    + now rewrite (stripPrefix_app_l _ _ r _ E).
    + change (String c s ++ r) with (String c (s ++ r)).
      destruct (stripPrefix sub (String c (s ++ r))); [reflexivity|]. now apply IH.
Qed.

Lemma searchPath_exists (p : string) :
  In p (getSearchPaths w) -> Fs.existsSync w p = true.
Proof.
  destruct (getSearchPaths_shape w) as [dir ->]. unfold rootsAt.
  intros H. apply in_app_or in H as [H|H].
  - destruct (Fs.existsSync w (Path.resolve dir ".claude-flow" "agents")) eqn:E;
      [|contradiction].
    destruct H as [<-|[]]. exact E.
  - destruct (Fs.existsSync w (Path.resolve dir ".claude" "agents")) eqn:E;
      [|contradiction].
    destruct H as [<-|[]]. exact E.
Qed.

End PassFacts.

Section PassTheorems.
Import Str CustomAgentLoader Discovery Report.

(** X6. After a pass that completes, the load errors are those of this
    pass alone, in processing order: every markdown file the pass found
    gave either a definition or exactly one load error that names the file,
    so the errors and the definitions read add up to the files found. *)
Theorem every_file_is_loaded_or_reported (w : World) (now : Z) (st : Loader) :
  fst (loadAgents w now st) = Ok tt ->
  loadErrors (snd (loadAgents w now st)) = passErrors w
  /\ fst (getLoadErrors (snd (loadAgents w now st))) = Ok (passErrors w)
  /\ (length (passErrors w) + length (discovered w) = length (passFiles w))%nat
  /\ (forall root f,
        (exists d, parsedAgent w f root = Some d /\ parseErrors w f root = [])
        \/ (parsedAgent w f root = None
            /\ exists msg, parseErrors w f root = [msg] /\ includes msg f = true)).
Proof.
  intros Hok.
  assert (Hl : rootsListable w) by (now apply (loadAgents_run w now st)).
  assert (He : loadErrors (snd (loadAgents w now st)) = passErrors w).
  { rewrite loadAgents_unfold in *.
    match goal with |- context [forEach ?r ?b ?s] =>
      pose proof (roots_loop_errors w r s) as E;
      destruct (forEach r b s) as [[u|e] st2] end; [|discriminate].
    simpl in *. apply E. intros p Hp. apply Hl. now apply in_rev. }
  split; [exact He|]. split; [unfold getLoadErrors, gets; simpl; now rewrite He|].
  split; [|intros root f; apply parse_outcome].
  unfold passErrors, discovered, discoveredIn, passFiles.
  rewrite (length_flat_map_sum (filesOf w)).
  apply flat_map_census. intros root _.
  unfold errorsUnder, agentsUnder.
  rewrite (flat_map_census _ _ (fun _ => 1%nat)).
  - clear. induction (filesOf w root) as [|f l IH]; simpl; [reflexivity|]. now rewrite IH.
  - intros f _. destruct (parse_outcome w f root) as [(d & -> & ->)|(-> & msg & -> & _)];
      reflexivity.
Qed.

Lemma every_file_is_loaded_or_reported_witness :
  fst (loadAgents Worlds.mixedFiles 1000 (initial Worlds.mixedFiles)) = Ok tt
  /\ loadErrors (snd (loadAgents Worlds.mixedFiles 1000 (initial Worlds.mixedFiles)))
     = ["No frontmatter found in /proj/.claude/agents/core/broken.md";
        "Error parsing /proj/.claude/agents/core/locked.md: EACCES: permission denied"]
  /\ (length (passErrors Worlds.mixedFiles) + length (discovered Worlds.mixedFiles)
      = length (passFiles Worlds.mixedFiles))%nat.
Proof.
  assert (H : fst (loadAgents Worlds.mixedFiles 1000 (initial Worlds.mixedFiles)) = Ok tt)
    by (vm_compute; reflexivity).
  destruct (every_file_is_loaded_or_reported Worlds.mixedFiles 1000
              (initial Worlds.mixedFiles) H) as (He & _ & Hc & _).
  split; [exact H|]. split; [|exact Hc].
  rewrite He. vm_compute. reflexivity.
Defined.

(** X7. The snapshot of a pass that completes holds nothing but
    definitions read in this pass, each under its own name, and it has an
    entry for every name some definition of the pass carries (a name being
    a string, a number, a boolean, [null] or [undefined]). *)
Theorem snapshot_is_what_was_discovered (w : World) (now : Z) (st : Loader) :
  fst (loadAgents w now st) = Ok tt ->
  (forall k d,
      In (k, d) (agentCache (snd (loadAgents w now st))) ->
      k = name d /\ In d (discovered w)
      /\ exists searchPath,
           In searchPath (getSearchPaths w)
           /\ In (sourcePath d) (filesOf w searchPath)
           /\ isCustom d = includes searchPath ".claude-flow")
  /\ (forall d,
        In d (discovered w) -> Js.sameValueZero (name d) (name d) = true ->
        exists d',
          JsMap.get (name d) (agentCache (snd (loadAgents w now st))) = Some d'
          /\ name d' = name d).
Proof.
  intros Hok.
  destruct (loadAgents_run w now st) as (_ & _ & _ & _ & Hc & _).
  destruct (Hc Hok) as [-> _]. clear Hc.
  destruct (mergeAgents_ok (discovered w)) as [_ Hkeyed].
  split.
  - intros k d Hin. split; [now apply Hkeyed|].
    destruct (mergeInto_in k d _ _ Hin) as [[]|Hd]. split; [exact Hd|].
    unfold discovered, discoveredIn in Hd.
    apply in_flat_map in Hd as (p & Hp & Hd). apply in_rev in Hp.
    destruct (agentsUnder_origin w p d Hd) as [Hc Hs].
    exists p. auto.
  - intros d Hd Hk.
    destruct (mergeInto_defined d (discovered w) JsMap.empty Hd Hk) as [d' G].
    exists d'. split; [exact G|].
    destruct (get_in _ _ _ G) as (k' & Hin & E).
    apply sameValueZero_eq in E. rewrite <- E. symmetry. now apply Hkeyed.
Qed.

Lemma snapshot_is_what_was_discovered_witness :
  fst (loadAgents Sample.twoRoots 1000 (initial Sample.twoRoots)) = Ok tt
  /\ In Sample.projectHelper (discovered Sample.twoRoots)
  /\ Js.sameValueZero (name Sample.projectHelper) (name Sample.projectHelper) = true
  /\ exists d',
       JsMap.get (JStr "helper")
         (agentCache (snd (loadAgents Sample.twoRoots 1000 (initial Sample.twoRoots))))
       = Some d'
       /\ name d' = JStr "helper".
Proof.
  assert (H : fst (loadAgents Sample.twoRoots 1000 (initial Sample.twoRoots)) = Ok tt)
    by (vm_compute; reflexivity).
  assert (Hd : In Sample.projectHelper (discovered Sample.twoRoots))
    by (vm_compute; right; left; reflexivity).
  split; [exact H|]. split; [exact Hd|]. split; [reflexivity|].
  exact (proj2 (snapshot_is_what_was_discovered Sample.twoRoots 1000
                  (initial Sample.twoRoots) H) Sample.projectHelper Hd eq_refl).
Defined.

(** X8. A definition that is the first the pass reads under its name is
    the one the snapshot keeps, unless a definition marked custom that is
    read after it carries that name: a later definition that is not custom
    never replaces an entry. *)
Theorem first_definition_wins_without_custom (w : World) (now : Z) (st : Loader)
  (before after : list AgentDefinition) (d : AgentDefinition) (k : JsValue) :
  fst (loadAgents w now st) = Ok tt ->
  discovered w = (before ++ d :: after)%list ->
  name d = k -> Js.sameValueZero k k = true ->
  (forall d', In d' before -> Js.sameValueZero (name d') k = false) ->
  (forall d', In d' after -> isCustom d' = true ->
              Js.sameValueZero (name d') k = false) ->
  JsMap.get k (agentCache (snd (loadAgents w now st))) = Some d.
Proof.
  intros Hok E Hn Hk Hb Ha.
  destruct (loadAgents_run w now st) as (_ & _ & _ & _ & Hc & _).
  destruct (Hc Hok) as [-> _]. rewrite E. unfold mergeAgents.
  rewrite mergeInto_app.
  change (mergeInto (mergeInto JsMap.empty before) (d :: after))
    with (mergeInto (insertAgent d (mergeInto JsMap.empty before)) after).
  apply mergeInto_stays; [|exact Ha].
  unfold insertAgent. rewrite Hn, (mergeInto_other k before JsMap.empty Hb).
  simpl JsMap.get. cbv iota. now apply get_set_same.
Qed.

Lemma first_definition_wins_without_custom_witness :
  fst (loadAgents Sample.twoRoots 1000 (initial Sample.twoRoots)) = Ok tt
  /\ discovered Sample.twoRoots
     = ([Sample.projectCoder] ++ Sample.projectHelper :: [Sample.customCoder])%list
  /\ JsMap.get (JStr "helper")
       (agentCache (snd (loadAgents Sample.twoRoots 1000 (initial Sample.twoRoots))))
     = Some Sample.projectHelper.
Proof.
  assert (H : fst (loadAgents Sample.twoRoots 1000 (initial Sample.twoRoots)) = Ok tt)
    by (vm_compute; reflexivity).
  assert (E : discovered Sample.twoRoots
              = ([Sample.projectCoder] ++ Sample.projectHelper :: [Sample.customCoder])%list)
    by (vm_compute; reflexivity).
  split; [exact H|]. split; [exact E|].
  apply (first_definition_wins_without_custom Sample.twoRoots 1000
           (initial Sample.twoRoots) [Sample.projectCoder] [Sample.customCoder]
           Sample.projectHelper (JStr "helper") H E eq_refl eq_refl).
  - intros d' [<-|[]]. reflexivity.
  - intros d' [<-|[]] _. reflexivity.
Defined.

(** X9. The custom mark is read off the text of the search path: below a
    directory whose own path contains [.claude-flow], the definitions of
    the project root [.claude/agents] are marked custom as well, so among
    them the last one read under a name replaces the earlier ones. *)
Theorem project_root_below_a_marked_directory_is_custom (w : World) (dir : string)
  (d : AgentDefinition) :
  includes dir ".claude-flow" = true ->
  In d (agentsUnder w (Path.resolve dir ".claude" "agents")) ->
  isCustom d = true
  /\ forall st,
       Js.sameValueZero (name d) (name d) = true ->
       JsMap.get (name d) (agentCache (snd (cacheAgent d st))) = Some d.
Proof.
  intros Hi Hd.
  destruct (agentsUnder_origin w _ d Hd) as [Hc _].
  assert (Hm : includes (Path.resolve dir ".claude" "agents") ".claude-flow" = true).
  { unfold Path.resolve.
    destruct (join_prefix dir ".claude") as [r1 ->].
    destruct (join_prefix (dir ++ r1) "agents") as [r2 ->].
    now apply includes_app_l, includes_app_l. }
  rewrite Hm in Hc. split; [exact Hc|].
  intros st Hk. destruct (cacheAgent_run d st) as (_ & -> & _).
  now apply insertAgent_get_custom.
Qed.

Lemma project_root_below_a_marked_directory_is_custom_witness :
  includes (cwd Worlds.markedDirectory) ".claude-flow" = true
  /\ discovered Worlds.markedDirectory
     = [Sample.coderFrom "/work/.claude-flow-demo/.claude/agents/a.md" "First." true;
        Sample.coderFrom "/work/.claude-flow-demo/.claude/agents/b.md" "Second." true]
  /\ JsMap.get (JStr "coder")
       (agentCache
          (snd (cacheAgent
                  (Sample.coderFrom "/work/.claude-flow-demo/.claude/agents/b.md"
                     "Second." true)
                  (withCache
                     (fun _ =>
                        [(JStr "coder",
                          Sample.coderFrom "/work/.claude-flow-demo/.claude/agents/a.md"
                            "First." true)])
                     (initial Worlds.markedDirectory)))))
     = Some (Sample.coderFrom "/work/.claude-flow-demo/.claude/agents/b.md"
               "Second." true).
Proof.
  assert (Hi : includes (cwd Worlds.markedDirectory) ".claude-flow" = true)
    by reflexivity.
  assert (Hd : In (Sample.coderFrom "/work/.claude-flow-demo/.claude/agents/b.md"
                     "Second." true)
                 (agentsUnder Worlds.markedDirectory
                    (Path.resolve (cwd Worlds.markedDirectory) ".claude" "agents")))
    by (vm_compute; right; left; reflexivity).
  destruct (project_root_below_a_marked_directory_is_custom Worlds.markedDirectory
              _ _ Hi Hd) as [_ H].
  split; [exact Hi|]. split; [vm_compute; reflexivity|].
  apply (H _ eq_refl).
Defined.

End PassTheorems.

(* ===================================================================== *)
(** ** Validation *)
(* ===================================================================== *)

Section ValidationFacts.
Import Str CustomAgentLoader Discovery Report.

Lemma checked_failWith (path msg : string) (r : AgentValidationResult) :
  msg <> parseFailure -> checked path r -> checked path (failWith msg r).
Proof.
  intros Hm (Hp & Ha & Hv & Hd). unfold checked, failWith; simpl.
  split; [exact Hp|]. split; [exact Ha|]. split.
  - split; [discriminate|]. intros E. now destruct (errors r).
  - intros H. apply in_app_or in H as [H|[H|[]]]; [now apply Hd|now apply Hm].
Qed.

Lemma checked_warn (path msg : string) (r : AgentValidationResult) :
  checked path r -> checked path (warn msg r).
Proof. intros H. exact H. Qed.

Lemma checkHeader_checked (path : string) (fm : JsValue) (body : string)
  (r : AgentValidationResult) :
  checked path r -> checked path (checkHeader path fm body r).
Proof.
  intros H. unfold checkHeader. cbv zeta.
  repeat match goal with
         | |- checked _ (if ?b then _ else _) => destruct b
         | |- checked _ (warn _ _) => apply checked_warn
         | |- checked _ (failWith _ _) => apply checked_failWith; [discriminate|]
         end; exact H.
Qed.

Lemma valid_warn (msg : string) (r : AgentValidationResult) :
  valid (warn msg r) = valid r.
Proof. reflexivity. Qed.

(** Once a check has failed, the result stays invalid. *)
Lemma checkHeader_valid (path : string) (fm : JsValue) (body : string)
  (r : AgentValidationResult) :
  valid (checkHeader path fm body r) = true ->
  valid r = true
  /\ (negb (Js.truthy (Js.prop fm "name")) && isEmpty (Path.basenameExt path ".md")
      = false).
Proof.
  unfold checkHeader. cbv zeta.
  destruct (negb (Js.truthy (Js.prop fm "name"))
            && isEmpty (Path.basenameExt path ".md")) eqn:E1.
  - intros H. exfalso. revert H.
    repeat match goal with
           | |- context [if ?b then _ else _] => destruct b
           end; simpl; discriminate.
  - destruct (valid r) eqn:Ev; [auto|].
    intros H. exfalso. revert H.
    repeat match goal with
           | |- context [if ?b then _ else _] => destruct b
           end; simpl; congruence.
Qed.

Lemma derived_name_nonempty (s : string) :
  isEmpty s = false -> isEmpty (hyphenate (toLowerCase s)) = false.
Proof.
  destruct s as [|c s]; [discriminate|]. intros _.
  unfold hyphenate. cbn [toLowerCase hyphenateFrom].
  now destruct (isSpace (lowerChar c)).
Qed.

(** [validateAgentFile] returns one of three results and leaves the loader
    as it was: the fresh result with one error that is not [parseFailure],
    the checked result when a check failed, or the checked result with the
    definition attached. *)
Lemma validateAgentFile_cases (w : World) (path : string) (st : Loader) :
  exists r,
    validateAgentFile w path st = (Ok r, st)
    /\ ((exists msg,
           msg <> parseFailure
           /\ r = failWith msg
                   {| valid := true; filePath := path; errors := []; warnings := [];
                      agent := None |})
        \/ (exists fm body,
              valid (checkHeader path fm body
                       {| valid := true; filePath := path; errors := [];
                          warnings := []; agent := None |}) = false
              /\ r = checkHeader path fm body
                       {| valid := true; filePath := path; errors := [];
                          warnings := []; agent := None |})
        \/ (exists fm body a,
              valid (checkHeader path fm body
                       {| valid := true; filePath := path; errors := [];
                          warnings := []; agent := None |}) = true
              /\ r = withAgent a
                       (checkHeader path fm body
                          {| valid := true; filePath := path; errors := [];
                             warnings := []; agent := None |}))).
Proof.
  set (r0 := {| valid := true; filePath := path; errors := []; warnings := [];
                agent := None |}).
  unfold validateAgentFile. fold r0.
  destruct (negb (Fs.existsSync w path)).
  { eexists. split; [reflexivity|]. left. eexists. split; [|reflexivity]. discriminate. }
  unfold tryCatch, bind, lift, ret.
  destruct (Fs.readFileSync w path) as [content|e] eqn:Er.
  2:{ eexists. split; [reflexivity|]. left. eexists. split; [|reflexivity].
      discriminate. }
  destruct (parseFrontmatter w content) as [fm body] eqn:Ep.
  destruct (Js.truthy fm) eqn:Efm; cbn [negb].
  2:{ eexists. split; [reflexivity|]. left. eexists. split; [|reflexivity].
      discriminate. }
  destruct (valid (checkHeader path fm body r0)) eqn:Ev.
  - destruct (checkHeader_valid path fm body r0 Ev) as [_ Hn].
    assert (Hname : Js.truthy
                      (Js.or (Js.prop fm "name")
                         (JStr (hyphenate (toLowerCase (Path.basenameExt path ".md")))))
                    = true).
    { unfold Js.or. destruct (Js.truthy (Js.prop fm "name")) eqn:E; [exact E|].
      cbn [negb andb] in Hn. cbn [Js.truthy].
      now rewrite (derived_name_nonempty _ Hn). }
    unfold parseAgentFile, tryCatch, bind, lift, ret.
    rewrite Er, Ep, Efm. cbn [negb]. rewrite Hname. cbn [negb].
    eexists. split; [reflexivity|]. right. right.
    exists fm, body. eexists. split; [exact Ev|reflexivity].
  - eexists. split; [reflexivity|]. right. left.
    exists fm, body. split; [exact Ev|reflexivity].
Qed.

(** [validateAgentFile] returns, for the path it was given. *)
Lemma validateAgentFile_total (w : World) (path : string) (st : Loader) :
  exists r, validateAgentFile w path st = (Ok r, st) /\ filePath r = path.
Proof.
  assert (H0 : checked path
                 {| valid := true; filePath := path; errors := []; warnings := [];
                    agent := None |}) by (repeat split; auto).
  destruct (validateAgentFile_cases w path st)
    as (r & E & [(msg & _ & ->)|[(fm & body & _ & ->)|(fm & body & a & _ & ->)]]);
    eexists; (split; [exact E|]); try reflexivity;
    apply (checkHeader_checked path fm body _ H0).
Qed.

(** The definition read from a file under another root differs in the
    category and in the custom mark only. *)
Lemma parsedAgent_other_root (w : World) (f b b' : string) (a : AgentDefinition) :
  parsedAgent w f b = Some a ->
  parsedAgent w f b'
  = Some {| name := name a; type := type a; color := color a;
            description := description a; capabilities := capabilities a;
            priority := priority a; hooks := hooks a;
            systemPrompt := systemPrompt a; sourcePath := sourcePath a;
            category := extractCategory f b';
            isCustom := includes b' ".claude-flow" |}.
Proof.
  unfold parsedAgent, parseAgentFile, tryCatch, bind, lift, pushLoadError,
    modify, ret.
  destruct (Fs.readFileSync w f) as [content|e]; [|simpl; discriminate].
  destruct (parseFrontmatter w content) as [fm body].
  destruct (negb (Js.truthy fm)); [simpl; discriminate|].
  match goal with |- context [negb (Js.truthy ?n)] =>
    destruct (negb (Js.truthy n)) end; [simpl; discriminate|].
  simpl. intros [= <-]. reflexivity.
Qed.

Lemma foldM_validate (w : World) (st : Loader) (files : list string)
  (acc : list AgentValidationResult) :
  exists rs,
    foldM (fun results filePath =>
             r <- validateAgentFile w filePath ;; ret (results ++ [r])%list)
      files acc st
    = (Ok (acc ++ rs)%list, st)
    /\ Forall2 (fun r f => validateAgentFile w f st = (Ok r, st)) rs files.
Proof.
  revert acc; induction files as [|f files IH]; intros acc.
  - exists []. split; [|constructor]. simpl. unfold ret. now rewrite app_nil_r.
  - destruct (validateAgentFile_total w f st) as (r & Hr & _).
    destruct (IH (acc ++ [r])%list) as (rs & Hrs & Hall).
    exists (r :: rs). split; [|now constructor].
    cbn [foldM]. unfold bind at 1. unfold bind at 1. rewrite Hr. unfold ret at 1.
    rewrite Hrs. now rewrite <- app_assoc.
Qed.

End ValidationFacts.

Section ValidationTheorems.
Import Str CustomAgentLoader Discovery Report.

(** X10. [validateAgentFile] never throws and never changes the loader, not
    even its list of load errors.  Its result names the path it was given,
    is valid exactly when it lists no error and exactly when it carries a
    definition, and never lists the error of the branch for a definition
    that fails to parse after its header passed the checks: that branch is
    never taken. *)
Theorem validateAgentFile_only_reports (w : World) (path : string) (st : Loader) :
  exists r,
    validateAgentFile w path st = (Ok r, st)
    /\ filePath r = path
    /\ (valid r = true <-> errors r = [])
    /\ (valid r = true <-> agent r <> None)
    /\ ~ In parseFailure (errors r).
Proof.
  assert (H0 : checked path
                 {| valid := true; filePath := path; errors := []; warnings := [];
                    agent := None |}) by (repeat split; auto).
  destruct (validateAgentFile_cases w path st)
    as (r & E & [(msg & Hm & ->)|[(fm & body & Ev & ->)|(fm & body & a & Ev & ->)]]);
    eexists; (split; [exact E|]).
  - destruct (checked_failWith path msg _ Hm H0) as (P & A & V & D).
    split; [exact P|]. split; [exact V|]. split; [|exact D].
    rewrite A. split; [discriminate|congruence].
  - destruct (checkHeader_checked path fm body _ H0) as (P & A & V & D).
    split; [exact P|]. split; [exact V|]. split; [|exact D].
    rewrite A, Ev. split; [discriminate|congruence].
  - destruct (checkHeader_checked path fm body _ H0) as (P & A & V & D).
    unfold withAgent; simpl.
    split; [exact P|]. split; [exact V|]. split; [|exact D].
    split; [discriminate|]. intros _. exact Ev.
Qed.

(** X11. A file that validates is a file a pass loads: under every search
    root, [parseAgentFile] builds from it the definition the validation
    carries, with the category and the custom mark worked out for that
    root, and records no load error. *)
Theorem valid_file_is_loaded (w : World) (path searchRoot : string) (st : Loader)
  (r : AgentValidationResult) :
  fst (validateAgentFile w path st) = Ok r ->
  valid r = true ->
  exists a,
    agent r = Some a
    /\ parsedAgent w path searchRoot
       = Some {| name := name a; type := type a; color := color a;
                 description := description a; capabilities := capabilities a;
                 priority := priority a; hooks := hooks a;
                 systemPrompt := systemPrompt a; sourcePath := path;
                 category := extractCategory path searchRoot;
                 isCustom := includes searchRoot ".claude-flow" |}
    /\ parseErrors w path searchRoot = [].
Proof.
  intros Hr Hv.
  destruct (validateAgentFile_cases w path st) as (r' & E & Hcases).
  rewrite E in Hr. simpl in Hr. injection Hr as ->.
  assert (Ha : exists a, agent r = Some a).
  { destruct Hcases as [(msg & _ & ->)|[(fm & body & Ev & ->)|(fm & body & a' & _ & ->)]].
    - discriminate Hv.
    - congruence.
    - now exists a'. }
  destruct Ha as [a Ea]. exists a. split; [exact Ea|].
  pose proof (validateAgentFile_agent w path st a r) as Hp.
  rewrite E in Hp. specialize (Hp eq_refl Ea).
  pose proof (parsedAgent_other_root w path _ searchRoot a Hp) as Hq.
  destruct (parsedAgent_some w path _ a Hp) as (_ & _ & _ & _ & _ & _ & _ & Hs & _).
  rewrite Hs in Hq. split; [exact Hq|].
  destruct (parse_outcome w path searchRoot) as [(d & _ & He)|(Hn & _)];
    [exact He|congruence].
Qed.

Lemma valid_file_is_loaded_witness :
  exists r a,
    fst (validateAgentFile Sample.priorities "/proj/.claude/agents/core/plain.md"
           (initial Sample.priorities)) = Ok r
    /\ valid r = true
    /\ agent r = Some a
    /\ category a = "custom"
    /\ option_map category
         (parsedAgent Sample.priorities "/proj/.claude/agents/core/plain.md"
            "/proj/.claude/agents") = Some "core".
Proof.
  destruct (validateAgentFile Sample.priorities "/proj/.claude/agents/core/plain.md"
              (initial Sample.priorities)) as [[r|e] st] eqn:E;
    [|vm_compute in E; discriminate].
  assert (Hv : valid r = true) by (vm_compute in E; now injection E as <- _).
  assert (Hc : forall a, agent r = Some a -> category a = "custom")
    by (vm_compute in E; injection E as <- _; now intros a [= <-]).
  pose proof (valid_file_is_loaded Sample.priorities
                "/proj/.claude/agents/core/plain.md" "/proj/.claude/agents"
                (initial Sample.priorities) r) as H.
  rewrite E in H. destruct (H eq_refl Hv) as (a & Ha & Hp & _).
  exists r, a. split; [reflexivity|]. split; [exact Hv|]. split; [exact Ha|].
  split; [now apply Hc|]. rewrite Hp. reflexivity.
Defined.

(** X12. [validateAllAgents] works on the search paths the loader holds,
    those [getSearchDirectories] returns, and does not resolve them anew.
    When each of them can be listed, it returns one result for every
    markdown file found under them, in the order of the paths and of the
    enumeration, each being what [validateAgentFile] returns for that file,
    and it leaves the loader as it was. *)
Theorem validateAllAgents_one_result_per_file (w : World) (st : Loader) :
  (forall p, In p (searchPaths st) -> exists files, findMarkdownFiles w p = Ok files) ->
  exists results,
    validateAllAgents w st = (Ok results, st)
    /\ Forall2 (fun r f => validateAgentFile w f st = (Ok r, st))
         results (flat_map (filesOf w) (searchPaths st))
    /\ map filePath results = flat_map (filesOf w) (searchPaths st)
    /\ getSearchDirectories st = (Ok (searchPaths st), st).
Proof.
  intros Hall. unfold validateAllAgents, bind at 1, gets.
  assert (H : forall paths acc,
             (forall p, In p paths -> exists files, findMarkdownFiles w p = Ok files) ->
             exists rs,
               foldM
                 (fun results searchPath =>
                    files <- lift (findMarkdownFiles w searchPath) ;;
                    foldM (fun results filePath =>
                             r <- validateAgentFile w filePath ;;
                             ret (results ++ [r])%list)
                      files results)
                 paths acc st
               = (Ok (acc ++ rs)%list, st)
               /\ Forall2 (fun r f => validateAgentFile w f st = (Ok r, st))
                    rs (flat_map (filesOf w) paths)).
  { induction paths as [|p paths IH]; intros acc Hp.
    - exists []. split; [|constructor]. simpl. unfold ret. now rewrite app_nil_r.
    - destruct (Hp p (or_introl eq_refl)) as [files F].
      destruct (foldM_validate w st files acc) as (rs1 & E1 & A1).
      destruct (IH (acc ++ rs1)%list (fun q Hq => Hp q (or_intror Hq)))
        as (rs2 & E2 & A2).
      exists (rs1 ++ rs2)%list. split.
      + cbn [foldM]. unfold bind at 1. unfold bind at 1, lift at 1.
        rewrite F, E1, E2. now rewrite <- app_assoc.
      + simpl. unfold filesOf at 1. rewrite F. now apply Forall2_app. }
  destruct (H (searchPaths st) [] Hall) as (rs & E & A).
  exists rs. split; [exact E|]. split; [exact A|]. split; [|reflexivity].
  clear E. induction A as [|r f rs fs Hr A IH]; [reflexivity|].
  simpl. rewrite IH. f_equal.
  destruct (validateAgentFile_total w f st) as (r' & E' & P).
  rewrite E' in Hr. now injection Hr as <-.
Qed.

Lemma validateAllAgents_one_result_per_file_witness :
  exists results,
    validateAllAgents Worlds.mixedFiles (initial Worlds.mixedFiles)
    = (Ok results, initial Worlds.mixedFiles)
    /\ map filePath results
       = ["/proj/.claude/agents/core/Coder.MD";
          "/proj/.claude/agents/core/broken.md";
          "/proj/.claude/agents/core/locked.md"]
    /\ map valid results = [true; false; false].
Proof.
  assert (Hl : forall p, In p (searchPaths (initial Worlds.mixedFiles)) ->
                         exists files, findMarkdownFiles Worlds.mixedFiles p = Ok files).
  { intros p [<-|[]]. eexists. vm_compute. reflexivity. }
  destruct (validateAllAgents_one_result_per_file Worlds.mixedFiles
              (initial Worlds.mixedFiles) Hl) as (results & E & _ & Hf & _).
  exists results. split; [exact E|]. split.
  - rewrite Hf. vm_compute. reflexivity.
  - vm_compute in E. injection E as <-. reflexivity.
Defined.

End ValidationTheorems.

(* ===================================================================== *)
(** ** Search paths, failed passes and the cache between calls *)
(* ===================================================================== *)

Section LevelFacts.
Import Str CustomAgentLoader Discovery Report.

Lemma walkUp_level (w : World) (fuel : nat) (dir : string) :
  walkUp w fuel dir = []
  \/ exists k, walkUp w fuel dir = rootsAt w (ancestor k dir).
Proof.
  revert dir; induction fuel as [|fuel IH]; intros dir; [now left|].
  cbn [walkUp].
  destruct (String.eqb dir "/" || String.eqb dir (Path.dirname dir)); [now left|].
  cbv zeta. destruct (0 <? length (rootsAt w dir))%nat.
  - right. now exists 0%nat.
  - destruct (IH (Path.dirname dir)) as [E|[k E]]; [now left|].
    right. now exists (S k).
Qed.

Lemma rootsAt_length (w : World) (dir : string) : (length (rootsAt w dir) <= 2)%nat.
Proof.
  unfold rootsAt. rewrite length_app.
  destruct (Fs.existsSync w _), (Fs.existsSync w _); simpl; lia.
Qed.

(** A second ensure-fresh step at the same instant finds nothing to do
    when the first one left definitions. *)
Lemma ensureLoaded_again (w : World) (now : Z) (st st1 : Loader) :
  ensureLoaded w now st = (Ok tt, st1) -> agentCache st1 <> [] ->
  ensureLoaded w now st1 = (Ok tt, st1).
Proof.
  intros E Hne. destruct (ensureLoaded_cases now st) as [[Hc Ht]|Hs].
  - rewrite (ensureLoaded_fresh w now st Hc Ht) in E. injection E as <-.
    now apply ensureLoaded_fresh.
  - rewrite (ensureLoaded_stale w now st Hs) in E.
    destruct (loadAgents_run w now st) as (_ & _ & _ & _ & Hok & _).
    rewrite E in Hok. destruct (Hok eq_refl) as [_ Ht]. simpl in Ht.
    apply ensureLoaded_fresh; [exact Hne|]. rewrite Ht. unfold cacheExpiry. lia.
Qed.

End LevelFacts.

Section LevelTheorems.
Import Str CustomAgentLoader Discovery Report.

(** X13. The search paths all lie at one level: they are the agent roots
    that exist in the working directory or in one single directory above
    it, in the order of [rootsAt] (the custom root first), at most two.
    When the working directory has a root of its own, the roots of the
    directories above it are not searched at all. *)
Theorem getSearchPaths_one_level (w : World) :
  (exists k, getSearchPaths w = rootsAt w (ancestor k (cwd w)))
  /\ (rootsAt w (cwd w) <> [] -> getSearchPaths w = rootsAt w (cwd w))
  /\ (forall p, In p (getSearchPaths w) -> Fs.existsSync w p = true)
  /\ (length (getSearchPaths w) <= 2)%nat.
Proof.
  assert (H1 : exists k, getSearchPaths w = rootsAt w (ancestor k (cwd w))).
  { unfold getSearchPaths. cbv zeta.
    destruct (walkUp_level w (S (S (String.length (cwd w)))) (cwd w)) as [->|[k ->]].
    - now exists 0%nat.
    - destruct (length (rootsAt w (ancestor k (cwd w))) =? 0)%nat;
        [now exists 0%nat | now exists k]. }
  split; [exact H1|]. split; [|split].
  - intros Hne. unfold getSearchPaths. cbn [walkUp]. cbv zeta.
    destruct (String.eqb (cwd w) "/" || String.eqb (cwd w) (Path.dirname (cwd w)));
      [reflexivity|].
    destruct (rootsAt w (cwd w)) as [|p ps] eqn:E; [congruence|]. reflexivity.
  - apply searchPath_exists.
  - destruct H1 as [k ->]. apply rootsAt_length.
Qed.

Lemma getSearchPaths_one_level_witness :
  rootsAt Sample.twoRoots (cwd Sample.twoRoots) <> []
  /\ getSearchPaths Sample.twoRoots
     = ["/proj/.claude-flow/agents"; "/proj/.claude/agents"].
Proof.
  assert (H : rootsAt Sample.twoRoots (cwd Sample.twoRoots) <> [])
    by (vm_compute; discriminate).
  split; [exact H|].
  rewrite (proj1 (proj2 (getSearchPaths_one_level Sample.twoRoots)) H).
  vm_compute. reflexivity.
Defined.

(** X14. The first ensure-fresh step after [clearCache] is a forced
    refresh: clearing the cache and then reading leaves the loader in the
    state, and gives the outcome, of [refresh] at that instant, whatever
    the time of the last pass was. *)
Theorem clearCache_then_read_is_refresh (w : World) (now : Z) (n : string)
  (st : Loader) :
  (clearCache ;; ensureLoaded w now) st = refresh w now st
  /\ (clearCache ;; getAgent w now n) st
     = (refresh w now ;; gets (fun st' => JsMap.get (JStr n) (agentCache st'))) st.
Proof.
  assert (H : (clearCache ;; ensureLoaded w now) st = refresh w now st).
  { unfold clearCache, refresh, bind, modify.
    rewrite ensureLoaded_stale by (now left).
    now rewrite !loadAgents_unfold. }
  split; [exact H|].
  unfold getAgent, clearCache, refresh, bind, modify in *.
  now rewrite H.
Qed.

End LevelTheorems.

Section FailedPass.
Import Discovery Union UnifiedAgentRegistry Report.

(** X15. While a search path is a regular file, the pass cannot list it:
    every lookup of a registry that is not initialised yet throws, the
    registry stays uninitialised and the time of the last pass stays
    reset, so every later call starts the pass again. *)
Theorem unlistable_root_fails_every_lookup (w : World) (now : Z) (n : string)
  (p : Process) (path : string) (data : FileData) :
  In path (CustomAgentLoader.getSearchPaths w) ->
  Fs.lookup w path = Some (NFile data) ->
  initialized p = false ->
  exists e p',
    getAgent w now n p = (Throw e, p')
    /\ initialized p' = false
    /\ CustomAgentLoader.lastLoadTime (loader p') = 0
    /\ CustomAgentLoader.scans (loader p') = S (CustomAgentLoader.scans (loader p)).
Proof.
  intros Hin Hl Hi.
  assert (Hno : ~ rootsListable w).
  { intros L. destruct (L path Hin) as [files F].
    unfold CustomAgentLoader.findMarkdownFiles in F.
    rewrite (searchPath_exists w path Hin) in F. simpl in F.
    unfold Fs.readdirSync in F. rewrite Hl in F. discriminate. }
  rewrite getAgent_unfold, ensureInitialized_unfold, Hi.
  unfold CustomAgentLoader.refresh, bind, modify.
  match goal with |- context [CustomAgentLoader.loadAgents w now ?s] =>
    destruct (loadAgents_run w now s) as (Hs & _ & _ & Hok & _ & Ht);
    destruct (CustomAgentLoader.loadAgents w now s) as [[[]|e] l] end.
  - exfalso. apply Hno. now apply Hok.
  - exists e. eexists. split; [reflexivity|]. simpl in *.
    split; [reflexivity|]. split; [apply Ht; discriminate|exact Hs].
Qed.

Lemma unlistable_root_fails_every_lookup_witness :
  In "/proj/.claude/agents" (CustomAgentLoader.getSearchPaths Worlds.agentsIsFile)
  /\ Fs.lookup Worlds.agentsIsFile "/proj/.claude/agents"
     = Some (NFile (Readable "not a directory"))
  /\ initialized (initial Worlds.agentsIsFile) = false
  /\ exists e p',
       getAgent Worlds.agentsIsFile 1000 "coder" (initial Worlds.agentsIsFile)
       = (Throw e, p')
       /\ initialized p' = false.
Proof.
  assert (H1 : In "/proj/.claude/agents"
                 (CustomAgentLoader.getSearchPaths Worlds.agentsIsFile))
    by (vm_compute; left; reflexivity).
  assert (H2 : Fs.lookup Worlds.agentsIsFile "/proj/.claude/agents"
               = Some (NFile (Readable "not a directory")))
    by (vm_compute; reflexivity).
  split; [exact H1|]. split; [exact H2|]. split; [reflexivity|].
  destruct (unlistable_root_fails_every_lookup Worlds.agentsIsFile 1000 "coder"
              (initial Worlds.agentsIsFile) _ _ H1 H2 eq_refl)
    as (e & p' & E & I & _).
  exists e, p'. split; assumption.
Defined.

End FailedPass.

(* ===================================================================== *)
(** ** The registry's views of one snapshot *)
(* ===================================================================== *)

Section ViewFacts.
Import Discovery Union UnifiedAgentRegistry Report.

(** The entry of a name in a cache: the definition is filed under the
    name and is the only one of that name. *)
Lemma cache_entry (st : CustomAgentLoader.Loader) (k : JsValue) (d : AgentDefinition) :
  cacheOk st ->
  JsMap.get k (CustomAgentLoader.agentCache st) = Some d ->
  name d = k
  /\ Js.sameValueZero k k = true
  /\ In d (JsMap.values (CustomAgentLoader.agentCache st))
  /\ forall d',
       In d' (JsMap.values (CustomAgentLoader.agentCache st)) ->
       name d' = k -> d' = d.
Proof.
  intros [Hd Hk] Hg.
  destruct (get_in _ _ _ Hg) as (k' & Hin & E).
  pose proof (sameValueZero_eq _ _ E) as E'. subst k'.
  split; [symmetry; exact (Hk _ _ Hin)|]. split; [exact E|]. split.
  - unfold JsMap.values. apply in_map_iff. exists (k, d). auto.
  - intros d' Hin' Hn'. unfold JsMap.values in Hin'.
    apply in_map_iff in Hin' as ([k2 d2] & <- & Hin2). simpl in *.
    pose proof (Hk _ _ Hin2) as E2. rewrite Hn' in E2. subst k2.
    pose proof (distinctKeys_get _ _ _ Hd Hin2 E) as G.
    congruence.
Qed.

(** A name without an entry is the name of no definition of the cache. *)
Lemma cache_no_entry (st : CustomAgentLoader.Loader) (k : JsValue) :
  cacheOk st ->
  JsMap.get k (CustomAgentLoader.agentCache st) = None ->
  forall d, In d (JsMap.values (CustomAgentLoader.agentCache st)) ->
            Js.sameValueZero (name d) k = false.
Proof.
  intros [_ Hk] Hg d Hin. unfold JsMap.values in Hin.
  apply in_map_iff in Hin as ([k' d'] & <- & Hin). simpl.
  rewrite <- (Hk _ _ Hin). clear Hk.
  induction (CustomAgentLoader.agentCache st) as [|[k2 d2] m IH]; [contradiction|].
  simpl in Hg. destruct (Js.sameValueZero k2 k) eqn:E; [discriminate|].
  destruct Hin as [[= -> ->]|Hin]; [exact E|now apply IH].
Qed.

Lemma get_mapped {V U : Type} (f : V -> U) (k : JsValue) (m : JsMap.t V) :
  JsMap.get k (map (fun kv => (fst kv, f (snd kv))) m) = option_map f (JsMap.get k m).
Proof.
  induction m as [|[k' v] m IH]; [reflexivity|]. simpl.
  now destruct (Js.sameValueZero k' k).
Qed.

Lemma catalogueCopy_get (k : JsValue) :
  JsMap.get k catalogueCopy = option_map Catalogued (JsMap.get k builtInAgents).
Proof.
  rewrite <- get_mapped.
  assert (E : catalogueCopy
              = map (fun kv => (fst kv, Catalogued (snd kv))) builtInAgents)
    by (vm_compute; reflexivity).
  now rewrite E.
Qed.

Lemma named_none (k : JsValue) (m : JsMap.t Agent) :
  keyedByAgentName m -> JsMap.get k m = None -> named k (JsMap.values m) = [].
Proof.
  unfold named, JsMap.values. induction m as [|[k' a] m IH]; intros Hk Hg; [reflexivity|].
  simpl in Hg. destruct (Js.sameValueZero k' k) eqn:E; [discriminate|].
  simpl. rewrite <- (Hk k' a (or_introl eq_refl)), E.
  apply IH; [|exact Hg]. intros k2 a2 H2. apply Hk. now right.
Qed.

(** What a lookup of the registry returns, in terms of the snapshot it is
    answered from. *)
Lemma getAgent_found (w : World) (now : Z) (n : string) (p : Process)
  (found : option Agent) :
  fst (getAgent w now n p) = Ok found ->
  found
  = match JsMap.get (JStr n) (CustomAgentLoader.agentCache (served w now p)) with
    | Some d => Some (Discovered d)
    | None => option_map Catalogued (JsMap.get (JStr n) builtInAgents)
    end.
Proof.
  rewrite getAgent_unfold. unfold served.
  destruct (ensureInitialized w now p) as [[[]|e] p1]; [|discriminate].
  simpl. destruct (CustomAgentLoader.ensureLoaded w now (loader p1)) as [[[]|e] l2];
    [|discriminate].
  simpl. now intros [= <-].
Qed.

(** What [hasAgent] answers, in terms of what the lookup returns. *)
Lemma hasAgent_found (w : World) (now : Z) (n : string) (p : Process)
  (found : option Agent) :
  fst (getAgent w now n p) = Ok found ->
  fst (hasAgent w now n p)
  = Ok (match found with Some _ => true | None => false end).
Proof.
  rewrite getAgent_unfold.
  unfold hasAgent, onLoader, CustomAgentLoader.hasAgent, bind, gets, ret, JsMap.has.
  generalize (JsMap.get (JStr n) builtInAgents). intros catalogued.
  destruct (ensureInitialized w now p) as [[[]|e] p1]; [|discriminate].
  simpl.
  destruct (CustomAgentLoader.ensureLoaded w now (loader p1)) as [[[]|e] l2];
    [|discriminate].
  simpl. intros [= <-].
  destruct (JsMap.get (JStr n) (CustomAgentLoader.agentCache l2)); [reflexivity|].
  now destruct catalogued.
Qed.

(** The entries of the union under a name. *)
Lemma named_in_union (customs : list AgentDefinition) (k : JsValue)
  (st : CustomAgentLoader.Loader) :
  cacheOk st ->
  Permutation customs (JsMap.values (CustomAgentLoader.agentCache st)) ->
  named k (JsMap.values (overlay customs catalogueCopy))
  = match JsMap.get k (CustomAgentLoader.agentCache st) with
    | Some d => [Discovered d]
    | None =>
        match JsMap.get k builtInAgents with
        | Some b => [Catalogued b]
        | None => []
        end
    end.
Proof.
  intros Hok S1.
  destruct (overlay_ok customs catalogueCopy catalogueCopy_ok) as [Od Ok'].
  destruct (JsMap.get k (CustomAgentLoader.agentCache st)) as [d|] eqn:G.
  - destruct (cache_entry st k d Hok G) as (Hn & Hk & Hin & Hu).
    apply (named_single _ _ _ Od Ok'). apply overlay_get; auto.
    + apply (Permutation_in _ (Permutation_sym S1) Hin).
    + intros d' Hd' Hn'. apply Hu; [|exact Hn'].
      apply (Permutation_in _ S1 Hd').
  - assert (E : JsMap.get k (overlay customs catalogueCopy)
                = option_map Catalogued (JsMap.get k builtInAgents)).
    { rewrite overlay_other; [apply catalogueCopy_get|].
      intros d Hd. apply (cache_no_entry st k Hok G).
      apply (Permutation_in _ S1 Hd). }
    destruct (JsMap.get k builtInAgents) as [b|].
    + now apply (named_single _ _ _ Od Ok').
    + now apply named_none.
Qed.

(** The entries of the registry's listing under a name. *)
Lemma listing_named (w : World) (now : Z) (k : JsValue) (p : Process)
  (agents : list Agent) :
  cacheOk (loader p) ->
  fst (getAllAgents w now p) = Ok agents ->
  named k agents
  = match JsMap.get k (CustomAgentLoader.agentCache (served w now p)) with
    | Some d => [Discovered d]
    | None =>
        match JsMap.get k builtInAgents with
        | Some b => [Catalogued b]
        | None => []
        end
    end.
Proof.
  intros Hok Ha.
  destruct (getAllAgents_inv w now p agents Ha) as (customs & S1 & S2).
  apply sortBy_perm in S1. apply sortBy_perm in S2.
  pose proof (named_in_union customs k (served w now p)
                (served_cacheOk w now p Hok) S1) as N.
  pose proof (filter_respects_Permutation
                (fun a => Js.sameValueZero (agentName a) k) _ _ S2) as P.
  fold (named k agents) in P.
  fold (named k (JsMap.values (overlay customs catalogueCopy))) in P.
  rewrite N in P. apply Permutation_sym in P.
  destruct (JsMap.get k (CustomAgentLoader.agentCache (served w now p))).
  - now apply Permutation_length_1_inv in P.
  - destruct (JsMap.get k builtInAgents).
    + now apply Permutation_length_1_inv in P.
    + now apply Permutation_nil in P.
Qed.

(** A second ensure-fresh step at the same instant returns and leaves the
    snapshot as the first one left it. *)
Lemma ensureLoaded_twice (w : World) (now : Z) (st st1 : CustomAgentLoader.Loader) :
  CustomAgentLoader.ensureLoaded w now st = (Ok tt, st1) ->
  exists st2,
    CustomAgentLoader.ensureLoaded w now st1 = (Ok tt, st2)
    /\ CustomAgentLoader.agentCache st2 = CustomAgentLoader.agentCache st1.
Proof.
  intros E.
  destruct (CustomAgentLoader.agentCache st1) as [|kv m] eqn:Ec.
  - destruct (ensureLoaded_cases now st) as [[Hc Ht]|Hs].
    + rewrite (ensureLoaded_fresh w now st Hc Ht) in E. injection E as <-.
      congruence.
    + rewrite (ensureLoaded_stale w now st Hs) in E.
      destruct (loadAgents_run w now st) as (_ & _ & _ & Hl & Hok & _).
      rewrite E in Hl, Hok. destruct (Hok eq_refl) as [Hc _]. simpl in Hc.
      rewrite (ensureLoaded_stale w now st1) by (now left).
      destruct (loadAgents_run w now st1) as (_ & _ & _ & Hl1 & Hok1 & _).
      destruct (CustomAgentLoader.loadAgents w now st1) as [[[]|e] st2].
      * exists st2. split; [reflexivity|].
        destruct (Hok1 eq_refl) as [Hc1 _]. simpl in Hc1. congruence.
      * exfalso. assert (H : @Throw unit e = Ok tt); [|discriminate].
        apply Hl1. now apply Hl.
  - exists st1. split; [|exact Ec].
    apply (ensureLoaded_again w now st st1 E). congruence.
Qed.

End ViewFacts.

Section ViewTheorems.
Import Discovery Union UnifiedAgentRegistry Report.

(** X16. The registry calls custom every agent the loader has a definition
    for, whatever its custom mark: a definition the loader lists among its
    built-in ones (read under a root that is not marked custom) makes
    [isCustomAgent] answer true for its name, although the registry's
    [getCustomAgents] leaves it out. *)
Theorem isCustomAgent_ignores_the_custom_mark (w : World) (now : Z)
  (st st1 : CustomAgentLoader.Loader) (listed : list AgentDefinition)
  (d : AgentDefinition) (n : string) (i : bool) :
  cacheOk st ->
  CustomAgentLoader.getBuiltInAgents w now st = (Ok listed, st1) ->
  In d listed -> name d = JStr n ->
  isCustom d = false
  /\ isCustomAgent w now n {| loader := st1; initialized := i |}
     = (Ok true, {| loader := st1; initialized := i |})
  /\ exists customs,
       getCustomAgents w now {| loader := st1; initialized := true |}
       = (Ok customs, {| loader := st1; initialized := true |})
       /\ ~ In d customs.
Proof.
  intros Hok Hl Hin Hn.
  unfold CustomAgentLoader.getBuiltInAgents, bind, ret in Hl.
  rewrite getAllAgents_unfold in Hl.
  pose proof (ensureLoaded_cacheOk w now st Hok) as Hok1.
  destruct (CustomAgentLoader.ensureLoaded w now st) as [[[]|e] st2] eqn:E;
    [|discriminate].
  simpl in Hok1.
  destruct (sortBy _ (JsMap.values (CustomAgentLoader.agentCache st2)))
    as [sorted|e] eqn:Es; [|discriminate].
  injection Hl as <- <-.
  apply filter_In in Hin as [Hin Hc]. apply negb_true_iff in Hc.
  split; [exact Hc|].
  pose proof Es as Ps. apply sortBy_perm in Ps. apply (Permutation_in _ Ps) in Hin.
  assert (Hne : CustomAgentLoader.agentCache st2 <> []).
  { intros E0. rewrite E0 in Hin. contradiction. }
  unfold JsMap.values in Hin. apply in_map_iff in Hin as ([k d'] & Hd & Hin).
  simpl in Hd. subst d'.
  destruct Hok1 as [Hdist Hkey].
  pose proof (Hkey _ _ Hin) as Ek. rewrite Hn in Ek. subst k.
  pose proof (distinctKeys_get _ _ _ Hdist Hin (sameValueZero_string n)) as G.
  split.
  - unfold isCustomAgent, onLoader, CustomAgentLoader.hasAgent, bind, gets. simpl.
    rewrite (ensureLoaded_again w now st st2 E Hne).
    unfold JsMap.has. now rewrite G.
  - exists (filter (fun agent => isCustom agent) sorted). split.
    + unfold getCustomAgents. unfold bind at 1.
      rewrite ensureInitialized_unfold. simpl.
      unfold onLoader, CustomAgentLoader.getCustomAgents, bind, ret. simpl.
      now rewrite getAllAgents_unfold, (ensureLoaded_again w now st st2 E Hne), Es.
    + intros Hf. apply filter_In in Hf as [_ Hf]. congruence.
Qed.

Lemma isCustomAgent_ignores_the_custom_mark_witness :
  cacheOk (CustomAgentLoader.initial Sample.twoRoots)
  /\ (exists st1,
        CustomAgentLoader.getBuiltInAgents Sample.twoRoots 1000
          (CustomAgentLoader.initial Sample.twoRoots)
        = (Ok [Sample.projectHelper], st1)
        /\ isCustomAgent Sample.twoRoots 1000 "helper"
             {| loader := st1; initialized := true |}
           = (Ok true, {| loader := st1; initialized := true |}))
  /\ isCustom Sample.projectHelper = false.
Proof.
  assert (Hok : cacheOk (CustomAgentLoader.initial Sample.twoRoots)).
  { split; [exact I|]. intros k d []. }
  destruct (CustomAgentLoader.getBuiltInAgents Sample.twoRoots 1000
              (CustomAgentLoader.initial Sample.twoRoots)) as [r st1] eqn:E.
  assert (Hr : r = Ok [Sample.projectHelper])
    by (vm_compute in E; now injection E as <- _).
  subst r.
  destruct (isCustomAgent_ignores_the_custom_mark Sample.twoRoots 1000 _ st1 _
              Sample.projectHelper "helper" true Hok E (or_introl eq_refl) eq_refl)
    as (Hc & Hi & _).
  split; [exact Hok|]. split; [|exact Hc].
  exists st1. split; [reflexivity|exact Hi].
Defined.

(** X17. The listing of the registry, its lookup and [hasAgent] agree: the
    listing holds exactly one agent under a name when the lookup of that
    name finds one, and that agent is the one the lookup returns; it holds
    none under a name the lookup does not find; [hasAgent] is true exactly
    when the lookup finds an agent. *)
Theorem lookup_agrees_with_listing (w : World) (now : Z) (n : string) (p : Process)
  (found : option Agent) (agents : list Agent) :
  cacheOk (loader p) ->
  fst (getAgent w now n p) = Ok found ->
  fst (getAllAgents w now p) = Ok agents ->
  named (JStr n) agents = match found with Some a => [a] | None => [] end
  /\ fst (hasAgent w now n p)
     = Ok (match found with Some _ => true | None => false end).
Proof.
  intros Hok Hf Ha. split; [|now apply hasAgent_found].
  rewrite (getAgent_found w now n p found Hf), (listing_named w now _ p agents Hok Ha).
  destruct (JsMap.get (JStr n) (CustomAgentLoader.agentCache (served w now p)));
    [reflexivity|].
  now destruct (JsMap.get (JStr n) builtInAgents).
Qed.

Lemma lookup_agrees_with_listing_witness :
  cacheOk (loader (initial Sample.twoRoots))
  /\ fst (getAgent Sample.twoRoots 1000 "tester" (initial Sample.twoRoots))
     = Ok (option_map Catalogued (JsMap.get (JStr "tester") builtInAgents))
  /\ exists agents,
       fst (getAllAgents Sample.twoRoots 1000 (initial Sample.twoRoots)) = Ok agents
       /\ named (JStr "tester") agents
          = match option_map Catalogued (JsMap.get (JStr "tester") builtInAgents) with
            | Some a => [a]
            | None => []
            end.
Proof.
  assert (Hok : cacheOk (loader (initial Sample.twoRoots))).
  { split; [exact I|]. intros k d []. }
  assert (Hf : fst (getAgent Sample.twoRoots 1000 "tester" (initial Sample.twoRoots))
               = Ok (option_map Catalogued (JsMap.get (JStr "tester") builtInAgents)))
    by (vm_compute; reflexivity).
  split; [exact Hok|]. split; [exact Hf|].
  destruct (getAllAgents Sample.twoRoots 1000 (initial Sample.twoRoots))
    as [[agents|e] p'] eqn:E; [|vm_compute in E; discriminate].
  exists agents. split; [reflexivity|].
  apply (lookup_agrees_with_listing Sample.twoRoots 1000 "tester"
           (initial Sample.twoRoots) _ agents Hok Hf).
  now rewrite E.
Defined.

End ViewTheorems.

(* ===================================================================== *)
(** ** Counting the union, and searching *)
(* ===================================================================== *)

Section CountFacts.
Import Discovery Union UnifiedAgentRegistry Report.

Lemma has_keys {V : Type} (k : JsValue) (m : JsMap.t V) :
  JsMap.has k m = existsb (fun k' => Js.sameValueZero k' k) (JsMap.keys m).
Proof.
  unfold JsMap.has, JsMap.keys. induction m as [|[k' v] m IH]; [reflexivity|].
  simpl. now destruct (Js.sameValueZero k' k).
Qed.

Lemma set_present {V : Type} (k : JsValue) (v : V) (m : JsMap.t V) :
  JsMap.has k m = true -> JsMap.keys (JsMap.set k v m) = JsMap.keys m.
Proof.
  unfold JsMap.has, JsMap.keys. induction m as [|[k' v'] m IH]; [discriminate|].
  simpl. destruct (Js.sameValueZero k' k); [reflexivity|].
  intros H. simpl. now rewrite IH.
Qed.

Lemma set_absent {V : Type} (k : JsValue) (v : V) (m : JsMap.t V) :
  JsMap.has k m = false -> JsMap.set k v m = (m ++ [(k, v)])%list.
Proof.
  unfold JsMap.has. induction m as [|[k' v'] m IH]; [reflexivity|].
  simpl. destruct (Js.sameValueZero k' k); [discriminate|].
  intros H. now rewrite IH.
Qed.

Lemma setHas_cons (x : JsValue) (ns : list JsValue) (k : JsValue) :
  setHas (x :: ns) k = Js.sameValueZero x k || setHas ns k.
Proof. reflexivity. Qed.

(** One more overridden name for a new name that is a key. *)
Lemma filter_one_more {V : Type} (x : JsValue) (ns : list JsValue) (m : JsMap.t V) :
  distinctKeys m -> JsMap.has x m = true -> setHas ns x = false ->
  length (filter (setHas (x :: ns)) (JsMap.keys m))
  = S (length (filter (setHas ns) (JsMap.keys m))).
Proof.
  unfold JsMap.has, JsMap.keys. induction m as [|[k v] m IH]; [discriminate|].
  intros [Hd Hm] Hx Hns. simpl in Hx. cbn [map fst filter]. rewrite setHas_cons.
  destruct (Js.sameValueZero k x) eqn:E.
  - pose proof (sameValueZero_eq _ _ E) as ->.
    rewrite E, Hns. cbn [orb length]. f_equal. f_equal.
    apply filter_ext_in. intros k' Hk'. rewrite setHas_cons.
    apply in_map_iff in Hk' as ([k2 v2] & <- & Hin). simpl.
    now rewrite (Hd k2 v2 Hin).
  - rewrite sameValueZero_sym, E. cbn [orb].
    destruct (setHas ns k); cbn [length]; now rewrite (IH Hm Hx Hns).
Qed.

Lemma filter_no_more (x : JsValue) (ns keys : list JsValue) :
  existsb (fun k' => Js.sameValueZero k' x) keys = false ->
  filter (setHas (x :: ns)) keys = filter (setHas ns) keys.
Proof.
  intros H. apply filter_ext_in. intros k Hk. rewrite setHas_cons.
  rewrite sameValueZero_sym.
  destruct (Js.sameValueZero k x) eqn:E; [|reflexivity].
  assert (existsb (fun k' => Js.sameValueZero k' x) keys = true)
    by (apply existsb_exists; eauto).
  congruence.
Qed.

(** The size of the union: the catalogue, plus the definitions, less the
    catalogue names some definition carries. *)
Lemma overlay_size (l : list AgentDefinition) (m : JsMap.t Agent) :
  distinctKeys m ->
  (forall k, (length (filter (fun d => Js.sameValueZero (name d) k) l) <= 1)%nat) ->
  (JsMap.size (overlay l m)
   + length (filter (setHas (map name l)) (JsMap.keys m))
   = JsMap.size m + length l)%nat.
Proof.
  revert m; induction l as [|d l IH]; intros m Hd Hu.
  - simpl. assert (E : filter (setHas []) (JsMap.keys m) = []).
    { induction (JsMap.keys m); [reflexivity|assumption]. }
    rewrite E. simpl. lia.
  - change (overlay (d :: l) m) with (overlay l (JsMap.set (name d) (Discovered d) m)).
    assert (Hu' : forall k,
               (length (filter (fun d => Js.sameValueZero (name d) k) l) <= 1)%nat).
    { intros k. specialize (Hu k). simpl in Hu.
      destruct (Js.sameValueZero (name d) k); simpl in Hu; lia. }
    assert (Hnew : setHas (map name l) (name d) = false).
    { unfold setHas. destruct (existsb _ (map name l)) eqn:E; [|reflexivity].
      exfalso.
      apply existsb_exists in E as (k & Hk & E).
      apply in_map_iff in Hk as (d' & <- & Hd').
      pose proof (sameValueZero_eq _ _ E) as En.
      assert (Hself : Js.sameValueZero (name d) (name d) = true)
        by (now rewrite En in E).
      specialize (Hu (name d)). cbn [filter] in Hu. rewrite Hself in Hu.
      cbn [length] in Hu.
      assert (Hf : In d' (filter (fun d0 => Js.sameValueZero (name d0) (name d)) l))
        by (apply filter_In; split; assumption).
      destruct (filter _ l); [contradiction|simpl in Hu; lia]. }
    specialize (IH (JsMap.set (name d) (Discovered d) m)
                  (distinctKeys_set _ _ _ Hd) Hu').
    cbn [map length].
    destruct (JsMap.has (name d) m) eqn:Eh.
    + rewrite (set_present _ _ _ Eh) in IH.
      rewrite (filter_one_more _ _ _ Hd Eh Hnew).
      assert (Es : JsMap.size (JsMap.set (name d) (Discovered d) m) = JsMap.size m).
      { unfold JsMap.size.
        rewrite <- (length_map fst (JsMap.set _ _ _)), <- (length_map fst m).
        change (map fst (JsMap.set (name d) (Discovered d) m))
          with (JsMap.keys (JsMap.set (name d) (Discovered d) m)).
        now rewrite (set_present _ _ _ Eh). }
      lia.
    + pose proof Eh as Eh'. rewrite has_keys in Eh'.
      rewrite (filter_no_more _ _ _ Eh').
      rewrite (set_absent _ _ _ Eh) in *. unfold JsMap.keys, JsMap.size in *.
      rewrite map_app, filter_app, !length_app in IH. cbn [map fst filter] in IH.
      rewrite Hnew in IH. cbn [length] in IH. lia.
Qed.

Lemma filterR_ok {A : Type} (p : A -> Result bool) (l r : list A) :
  filterR p l = Ok r ->
  forall x, In x r <-> In x l /\ p x = Ok true.
Proof.
  revert r; induction l as [|a l IH]; intros r H x.
  - injection H as <-. simpl. tauto.
  - simpl in H. destruct (p a) as [b|e] eqn:Ea; [|discriminate]. simpl in H.
    destruct (filterR p l) as [rest|e]; [|discriminate]. simpl in H.
    injection H as <-. specialize (IH rest eq_refl x).
    destruct b; simpl; rewrite ?IH; split.
    + intros [<-|[H1 H2]]; auto.
    + intros [[<-|H1] H2]; auto.
    + intros [H1 H2]; auto.
    + intros [[<-|H1] H2]; [congruence|auto].
Qed.

Lemma filterR_throws {A : Type} (p : A -> Result bool) (l : list A) (x : A)
  (e : Exn) :
  In x l -> p x = Throw e -> exists e', filterR p l = Throw e'.
Proof.
  induction l as [|a l IH]; intros Hin Hx; [contradiction|].
  simpl. destruct (p a) as [b|e1] eqn:Ea; [|now exists e1]. simpl.
  destruct Hin as [->|Hin]; [congruence|].
  destruct (IH Hin Hx) as [e' ->]. now exists e'.
Qed.

End CountFacts.

Section CountTheorems.
Import Discovery Union UnifiedAgentRegistry Report.

(** X18. The total the registry's statistics report is the number of
    agents its listing holds, and the number of names [getAgentNames]
    returns: the catalogue and the definitions of the snapshot, a
    catalogue name that a definition carries being counted once.  The
    built-in count is the number of agents [getBuiltInAgents] returns,
    those a definition replaces included. *)
Theorem stats_total_is_the_listing_length (w : World) (now : Z) (p : Process)
  (stats : Stats) (agents : list Agent) :
  cacheOk (loader p) ->
  fst (getStats w now p) = Ok stats ->
  fst (getAllAgents w now p) = Ok agents ->
  totalAgents stats = Z.of_nat (length agents)
  /\ fst (getAgentNames w now p) = Ok (map agentName agents)
  /\ length (map agentName agents) = length agents
  /\ builtInCount stats = length getBuiltInAgents.
Proof.
  intros Hok Hs Ha. split; [|split; [|split; [apply length_map|]]].
  - destruct (getStats_inv w now p stats Hs) as (customs & S1 & Eo & Et & _).
    destruct (getAllAgents_inv w now p agents Ha) as (customs' & S1' & S2).
    rewrite S1 in S1'. injection S1' as <-.
    apply sortBy_perm in S1. apply sortBy_perm in S2.
    destruct (served_cacheOk w now p Hok) as [Hd Hk].
    assert (Hu : forall k,
               (length (filter (fun d => Js.sameValueZero (name d) k) customs) <= 1)%nat).
    { intros k.
      rewrite (Permutation_length
                 (filter_respects_Permutation
                    (fun d => Js.sameValueZero (name d) k) _ _ S1)).
      exact (countNamed_le_1 k _ Hd Hk). }
    pose proof (overlay_size customs catalogueCopy (proj1 catalogueCopy_ok) Hu) as Hsz.
    assert (Ek : JsMap.keys catalogueCopy = JsMap.keys builtInAgents)
      by (vm_compute; reflexivity).
    assert (Ec : JsMap.size catalogueCopy = JsMap.size builtInAgents)
      by (vm_compute; reflexivity).
    rewrite Ek, Ec, <- Eo in Hsz.
    rewrite Et, (Permutation_length S2). unfold JsMap.values.
    rewrite length_map. unfold JsMap.size in *. lia.
  - unfold getAgentNames, bind, ret.
    destruct (getAllAgents w now p) as [[l|e] p1]; [|discriminate].
    simpl in Ha. now injection Ha as ->.
  - destruct (getStats_inv w now p stats Hs) as (_ & _ & _ & _ & Eb & _).
    rewrite Eb. unfold getBuiltInAgents, JsMap.values, JsMap.size.
    symmetry. apply length_map.
Qed.

Lemma stats_total_is_the_listing_length_witness :
  cacheOk (loader (initial Sample.twoRoots))
  /\ exists stats agents,
       fst (getStats Sample.twoRoots 1000 (initial Sample.twoRoots)) = Ok stats
       /\ fst (getAllAgents Sample.twoRoots 1000 (initial Sample.twoRoots)) = Ok agents
       /\ totalAgents stats = 10
       /\ Z.of_nat (length agents) = 10.
Proof.
  assert (Hok : cacheOk (loader (initial Sample.twoRoots))).
  { split; [exact I|]. intros k d []. }
  split; [exact Hok|].
  destruct (getStats Sample.twoRoots 1000 (initial Sample.twoRoots))
    as [[stats|e] p1] eqn:Es; [|vm_compute in Es; discriminate].
  destruct (getAllAgents Sample.twoRoots 1000 (initial Sample.twoRoots))
    as [[agents|e] p2] eqn:Ea; [|vm_compute in Ea; discriminate].
  exists stats, agents.
  assert (Ht : totalAgents stats = 10)
    by (vm_compute in Es; now injection Es as <- _).
  pose proof (stats_total_is_the_listing_length Sample.twoRoots 1000
                (initial Sample.twoRoots) stats agents Hok) as H.
  rewrite Es, Ea in H. destruct (H eq_refl eq_refl) as (Hl & _).
  split; [reflexivity|]. split; [reflexivity|]. split; [exact Ht|].
  now rewrite <- Hl.
Defined.

End CountTheorems.

Section SearchTheorems.
Import Str CustomAgentLoader Discovery Report.

(** X19. A search of the loader that returns gives definitions of the
    listing only, and leaves out none whose name, a string, contains the
    query when both are put in lower case; so a definition is always found
    by its own name in any letter case. *)
Theorem searchAgents_finds_by_name (w : World) (now : Z) (query : string)
  (st : Loader) (found : list AgentDefinition) :
  fst (searchAgents w now query st) = Ok found ->
  exists agents,
    fst (getAllAgents w now st) = Ok agents
    /\ (forall d, In d found -> In d agents)
    /\ (forall d s,
          In d agents -> name d = JStr s ->
          includes (toLowerCase s) (toLowerCase query) = true ->
          In d found)
    /\ (forall d s,
          In d agents -> name d = JStr s ->
          toLowerCase s = toLowerCase query ->
          In d found).
Proof.
  unfold searchAgents, bind, lift.
  destruct (getAllAgents w now st) as [[agents|e] st1]; [|discriminate].
  simpl. intros H. exists agents. split; [reflexivity|].
  pose proof (filterR_ok _ _ _ H) as F.
  assert (Hn : forall d s,
             In d agents -> name d = JStr s ->
             includes (toLowerCase s) (toLowerCase query) = true -> In d found).
  { intros d s Hd Hs Hi. apply F. split; [exact Hd|].
    unfold matchesQuery. rewrite Hs. simpl. now rewrite Hi. }
  split; [|split; [exact Hn|]].
  - intros d Hd. now apply F in Hd.
  - intros d s Hd Hs E. apply (Hn d s Hd Hs). rewrite E. apply includes_self.
Qed.

Lemma searchAgents_finds_by_name_witness :
  exists found,
    fst (searchAgents Sample.twoRoots 1000 "HELPER" (initial Sample.twoRoots)) = Ok found
    /\ In Sample.projectHelper found.
Proof.
  destruct (searchAgents Sample.twoRoots 1000 "HELPER" (initial Sample.twoRoots))
    as [[found|e] st1] eqn:E; [|vm_compute in E; discriminate].
  exists found. split; [reflexivity|].
  pose proof (searchAgents_finds_by_name Sample.twoRoots 1000 "HELPER"
                (initial Sample.twoRoots) found) as H.
  rewrite E in H. destruct (H eq_refl) as (agents & Ha & _ & _ & Hn).
  apply (Hn Sample.projectHelper "helper"); [|reflexivity|reflexivity].
  assert (Hl : fst (getAllAgents Sample.twoRoots 1000 (initial Sample.twoRoots))
               = Ok [Sample.customCoder; Sample.projectHelper])
    by (vm_compute; reflexivity).
  rewrite Hl in Ha. injection Ha as <-. right. now left.
Defined.

(** X20. One definition whose description is not a string makes the search
    of the loader throw for every query its name does not contain: the
    description is put in lower case without a check of its type. *)
Theorem searchAgents_throws_on_a_description_that_is_no_string (w : World) (now : Z)
  (query : string) (st : Loader) (agents : list AgentDefinition)
  (d : AgentDefinition) (s : string) :
  fst (getAllAgents w now st) = Ok agents ->
  In d agents ->
  name d = JStr s ->
  includes (toLowerCase s) (toLowerCase query) = false ->
  Js.isString (description d) = false ->
  exists e, fst (searchAgents w now query st) = Throw e.
Proof.
  intros Ha Hd Hs Hi Hdesc. unfold searchAgents, bind, lift.
  destruct (getAllAgents w now st) as [[l|e] st1]; [|discriminate].
  simpl in Ha. injection Ha as ->. simpl.
  assert (Hm : exists e, matchesQuery (toLowerCase query) d = Throw e).
  { unfold matchesQuery. rewrite Hs. simpl. rewrite Hi.
    destruct (description d); try discriminate; simpl; eauto. }
  destruct Hm as [e Hm].
  exact (filterR_throws _ _ _ _ Hd Hm).
Qed.

Lemma searchAgents_throws_on_a_description_that_is_no_string_witness :
  fst (getAllAgents Worlds.numericDescription 1000 (initial Worlds.numericDescription))
  = Ok [{| name := JStr "coder"; type := JUndefined; color := JUndefined;
           description := JStr "Agent defined in coder.md"; capabilities := [];
           priority := JStr "medium"; hooks := JUndefined;
           systemPrompt := "Writes code.";
           sourcePath := "/proj/.claude/agents/coder.md";
           category := "custom"; isCustom := false |};
        {| name := JStr "odd"; type := JUndefined; color := JUndefined;
           description := JNum 42; capabilities := [];
           priority := JStr "medium"; hooks := JUndefined;
           systemPrompt := "Odd.";
           sourcePath := "/proj/.claude/agents/odd.md";
           category := "custom"; isCustom := false |}]
  /\ includes (toLowerCase "odd") (toLowerCase "code") = false
  /\ exists e,
       fst (searchAgents Worlds.numericDescription 1000 "code"
              (initial Worlds.numericDescription)) = Throw e.
Proof.
  assert (Ha : fst (getAllAgents Worlds.numericDescription 1000
                      (initial Worlds.numericDescription))
               = Ok [{| name := JStr "coder"; type := JUndefined; color := JUndefined;
                        description := JStr "Agent defined in coder.md";
                        capabilities := [];
                        priority := JStr "medium"; hooks := JUndefined;
                        systemPrompt := "Writes code.";
                        sourcePath := "/proj/.claude/agents/coder.md";
                        category := "custom"; isCustom := false |};
                     {| name := JStr "odd"; type := JUndefined; color := JUndefined;
                        description := JNum 42; capabilities := [];
                        priority := JStr "medium"; hooks := JUndefined;
                        systemPrompt := "Odd.";
                        sourcePath := "/proj/.claude/agents/odd.md";
                        category := "custom"; isCustom := false |}])
    by (vm_compute; reflexivity).
  split; [exact Ha|]. split; [reflexivity|].
  apply (searchAgents_throws_on_a_description_that_is_no_string
           Worlds.numericDescription 1000 "code" (initial Worlds.numericDescription)
           _ _ "odd" Ha (or_intror (or_introl eq_refl)) eq_refl eq_refl eq_refl).
Defined.

End SearchTheorems.

(* ===================================================================== *)
(** ** The command line *)
(* ===================================================================== *)

Section CliTheorems.
Import Cli.

Lemma indexOf_split (args : list string) (x : string) (i : nat) :
  indexOf args x = Some i <->
  exists pre post, args = (pre ++ x :: post)%list /\ ~ In x pre /\ length pre = i.
Proof.
  revert i; induction args as [|a args IH]; intros i; simpl.
  - split; [discriminate|]. intros (pre & post & E & _). now destruct pre.
  - destruct (String.eqb a x) eqn:E.
    + apply String.eqb_eq in E. subst a. split.
      * intros [= <-]. exists [], args. auto.
      * intros (pre & post & E & Hn & <-).
        destruct pre as [|b pre]; [reflexivity|].
        injection E as <- _. exfalso. apply Hn. now left.
    + apply String.eqb_neq in E. split.
      * destruct (indexOf args x) as [j|]; [|discriminate]. simpl. intros [= <-].
        destruct (proj1 (IH j) eq_refl) as (pre & post & -> & Hn & <-).
        exists (a :: pre), post. repeat split; auto.
        intros [H|H]; [congruence|auto].
      * intros (pre & post & Ea & Hn & <-).
        destruct pre as [|b pre]; [injection Ea as -> _; congruence|].
        injection Ea as <- ->.
        rewrite (proj2 (IH (length pre))); [reflexivity|].
        exists pre, post. repeat split; auto. intros H. apply Hn. now right.
Qed.

(** X21. [getFlag] returns the argument that follows the first occurrence
    of the flag, whatever that argument is, and nothing when the flag is
    absent or its first occurrence is the last argument; an occurrence
    after the first one is never looked at. *)
Theorem getFlag_reads_after_the_first_occurrence (args : list string)
  (flagName : string) :
  (forall v,
      getFlag args flagName = Some v <->
      exists pre post,
        args = (pre ++ flagName :: v :: post)%list /\ ~ In flagName pre)
  /\ (getFlag args flagName = None <->
      ~ In flagName args
      \/ exists pre, args = (pre ++ [flagName])%list /\ ~ In flagName pre).
Proof.
  assert (Hsome : forall v,
             getFlag args flagName = Some v <->
             exists pre post,
               args = (pre ++ flagName :: v :: post)%list /\ ~ In flagName pre).
  { intros v. unfold getFlag. split.
    - destruct (indexOf args flagName) as [i|] eqn:E; [|discriminate].
      apply indexOf_split in E as (pre & post & -> & Hn & <-).
      destruct (length pre + 1 <? length (pre ++ flagName :: post))%nat;
        [|discriminate].
      rewrite nth_error_app2 by lia.
      replace (length pre + 1 - length pre)%nat with 1%nat by lia.
      destruct post as [|v' post]; [discriminate|]. simpl. intros [= <-].
      now exists pre, post.
    - intros (pre & post & -> & Hn).
      rewrite (proj2 (indexOf_split _ flagName (length pre)))
        by (exists pre, (v :: post); auto).
      assert ((length pre + 1 <? length (pre ++ flagName :: v :: post))%nat = true)
        as -> by (apply Nat.ltb_lt; rewrite length_app; simpl; lia).
      rewrite nth_error_app2 by lia.
      replace (length pre + 1 - length pre)%nat with 1%nat by lia. reflexivity. }
  split; [exact Hsome|]. split.
  - intros Hnone. unfold getFlag in Hnone.
    destruct (indexOf args flagName) as [i|] eqn:E.
    + apply indexOf_split in E as (pre & post & -> & Hn & <-).
      destruct post as [|v post]; [right; now exists pre|].
      exfalso.
      assert (H : getFlag (pre ++ flagName :: v :: post) flagName = Some v)
        by (apply Hsome; now exists pre, post).
      unfold getFlag in H.
      rewrite (proj2 (indexOf_split _ flagName (length pre))) in H
        by (exists pre, (v :: post); auto).
      congruence.
    + left. intros Hin. apply in_split in Hin as (l1 & l2 & ->).
      assert (Hex : exists pre post,
                 (l1 ++ flagName :: l2)%list = (pre ++ flagName :: post)%list
                 /\ ~ In flagName pre).
      { clear E Hsome Hnone. induction l1 as [|a l1 IH].
        - exists [], l2. auto.
        - destruct (String.eqb a flagName) eqn:Ea.
          + apply String.eqb_eq in Ea. subst a.
            exists [], (l1 ++ flagName :: l2)%list. auto.
          + apply String.eqb_neq in Ea. destruct IH as (pre & post & E1 & Hn).
            exists (a :: pre), post. simpl. rewrite E1. split; [reflexivity|].
            intros [H|H]; [congruence|auto]. }
      destruct Hex as (pre & post & E1 & Hn).
      assert (indexOf (l1 ++ flagName :: l2) flagName = Some (length pre))
        by (apply indexOf_split; exists pre, post; auto).
      congruence.
  - intros [Hn|(pre & -> & Hn)].
    + destruct (getFlag args flagName) as [v|] eqn:E; [|reflexivity].
      destruct (proj1 (Hsome v) eq_refl) as (pre & post & -> & _).
      exfalso. apply Hn. apply in_or_app. right. now left.
    + unfold getFlag.
      rewrite (proj2 (indexOf_split _ flagName (length pre)))
        by (exists pre, []; auto).
      assert ((length pre + 1 <? length (pre ++ [flagName]))%nat = false)
        as -> by (apply Nat.ltb_ge; rewrite length_app; simpl; lia).
      reflexivity.
Qed.

End CliTheorems.

(* ===================================================================== *)
(** ** The accessors by name, the registry's search and its types *)
(* ===================================================================== *)

Section AccessorFacts.
Import Discovery Union UnifiedAgentRegistry Report.

(** A lookup of the loader right after a lookup of the registry, at the
    same instant, is answered from the same snapshot. *)
Lemma loader_lookup_after_registry_lookup (w : World) (now : Z) (n : string)
  (p : Process) (found : option Agent) :
  fst (getAgent w now n p) = Ok found ->
  exists l3,
    CustomAgentLoader.ensureLoaded w now (loader (snd (getAgent w now n p)))
    = (Ok tt, l3)
    /\ JsMap.get (JStr n) (CustomAgentLoader.agentCache l3)
       = match found with
         | Some (Discovered d) => Some d
         | _ => None
         end.
Proof.
  rewrite getAgent_unfold.
  generalize (JsMap.get (JStr n) builtInAgents). intros catalogued.
  destruct (ensureInitialized w now p) as [[[]|e] p1]; [|discriminate].
  destruct (CustomAgentLoader.ensureLoaded w now (loader p1)) as [[[]|e] l2] eqn:E;
    [|discriminate].
  simpl. intros [= <-].
  destruct (ensureLoaded_twice w now _ l2 E) as (l3 & E3 & Ec).
  exists l3. split; [exact E3|]. rewrite Ec.
  destruct (JsMap.get (JStr n) (CustomAgentLoader.agentCache l2)); [reflexivity|].
  now destruct catalogued.
Qed.

Lemma someR_none (lowerQuery : string) (caps : list JsValue) :
  Forall (fun c => exists u, c = JStr u
                             /\ Str.includes (Str.toLowerCase u) lowerQuery = false)
    caps ->
  someR (fun cap => l <-r CustomAgentLoader.lowerOf cap ;;
                    Ok (Str.includes l lowerQuery)) caps
  = Ok false.
Proof.
  induction 1 as [|c caps (u & -> & Hu) _ IH]; [reflexivity|].
  simpl. now rewrite Hu.
Qed.

End AccessorFacts.

Section AccessorTheorems.
Import Discovery Union UnifiedAgentRegistry Report.

(** X22. The accessors by name answer from the definition the lookup
    returns: right after a lookup of the registry, at the same instant,
    [isCustomAgent] is true exactly when the lookup returned a definition
    read from a file, and the system prompt, the hooks and the source path
    are those of that definition, an empty or missing one being [null];
    for a catalogue agent and for an unknown name all three are [null]. *)
Theorem accessors_agree_with_lookup (w : World) (now : Z) (n : string) (p : Process)
  (found : option Agent) :
  fst (getAgent w now n p) = Ok found ->
  fst (isCustomAgent w now n (snd (getAgent w now n p)))
  = Ok (match found with Some (Discovered _) => true | _ => false end)
  /\ fst (getAgentSystemPrompt w now n (snd (getAgent w now n p)))
     = Ok (match found with
           | Some (Discovered d) => orNull (systemPrompt d)
           | _ => None
           end)
  /\ fst (getAgentHooks w now n (snd (getAgent w now n p)))
     = Ok (match found with
           | Some (Discovered d) => Js.or (hooks d) JNull
           | _ => JNull
           end)
  /\ fst (getAgentSourcePath w now n (snd (getAgent w now n p)))
     = Ok (match found with
           | Some (Discovered d) => orNull (sourcePath d)
           | _ => None
           end).
Proof.
  intros Hf.
  destruct (loader_lookup_after_registry_lookup w now n p found Hf) as (l3 & E & G).
  unfold isCustomAgent, getAgentSystemPrompt, getAgentHooks, getAgentSourcePath,
    onLoader, CustomAgentLoader.hasAgent, CustomAgentLoader.getAgent, bind, gets, ret.
  rewrite E. simpl. unfold JsMap.has. rewrite G.
  destruct found as [[d|b]|]; repeat split; reflexivity.
Qed.

Lemma accessors_agree_with_lookup_witness :
  fst (getAgent Sample.twoRoots 1000 "helper" (initial Sample.twoRoots))
  = Ok (Some (Discovered Sample.projectHelper))
  /\ fst (isCustomAgent Sample.twoRoots 1000 "helper"
            (snd (getAgent Sample.twoRoots 1000 "helper" (initial Sample.twoRoots))))
     = Ok true
  /\ fst (getAgentSourcePath Sample.twoRoots 1000 "helper"
            (snd (getAgent Sample.twoRoots 1000 "helper" (initial Sample.twoRoots))))
     = Ok (Some "/proj/.claude/agents/helper.md").
Proof.
  assert (H : fst (getAgent Sample.twoRoots 1000 "helper" (initial Sample.twoRoots))
              = Ok (Some (Discovered Sample.projectHelper)))
    by (vm_compute; reflexivity).
  destruct (accessors_agree_with_lookup Sample.twoRoots 1000 "helper"
              (initial Sample.twoRoots) _ H) as (H1 & _ & _ & H4).
  split; [exact H|]. split; [exact H1|exact H4].
Defined.

(** X23. A search of the registry that returns gives agents of its listing
    only and leaves out none whose name contains the query, both in lower
    case; the type of an agent is never looked at: an agent whose name,
    description and capabilities are strings that do not contain the query
    is left out whatever its type. *)
Theorem registry_search_ignores_the_type (w : World) (now : Z) (query : string)
  (p : Process) (found : list Agent) :
  fst (searchAgents w now query p) = Ok found ->
  exists agents,
    fst (getAllAgents w now p) = Ok agents
    /\ (forall a, In a found -> In a agents)
    /\ (forall a s,
          In a agents -> agentName a = JStr s ->
          Str.includes (Str.toLowerCase s) (Str.toLowerCase query) = true ->
          In a found)
    /\ (forall a s t,
          agentName a = JStr s -> agentDescription a = JStr t ->
          Str.includes (Str.toLowerCase s) (Str.toLowerCase query) = false ->
          Str.includes (Str.toLowerCase t) (Str.toLowerCase query) = false ->
          Forall (fun c => exists u,
                      c = JStr u
                      /\ Str.includes (Str.toLowerCase u) (Str.toLowerCase query)
                         = false)
            (agentCapabilities a) ->
          ~ In a found).
Proof.
  unfold searchAgents, bind, lift.
  destruct (getAllAgents w now p) as [[agents|e] p1]; [|discriminate].
  simpl. intros H. exists agents. split; [reflexivity|].
  pose proof (filterR_ok _ _ _ H) as F.
  split; [|split].
  - intros a Ha. now apply F in Ha.
  - intros a s Ha Hs Hi. apply F. split; [exact Ha|].
    unfold matchesQuery. rewrite Hs. simpl. now rewrite Hi.
  - intros a s t Hs Ht Hi1 Hi2 Hcaps Ha. apply F in Ha as [_ Ha].
    unfold matchesQuery in Ha. rewrite Hs, Ht in Ha. simpl in Ha.
    rewrite Hi1, Hi2, (someR_none _ _ Hcaps) in Ha. discriminate.
Qed.

Lemma registry_search_ignores_the_type_witness :
  exists found,
    fst (searchAgents Sample.twoRoots 1000 "HELP" (initial Sample.twoRoots)) = Ok found
    /\ In (Discovered Sample.projectHelper) found
    /\ ~ In (Discovered Sample.customCoder) found.
Proof.
  destruct (searchAgents Sample.twoRoots 1000 "HELP" (initial Sample.twoRoots))
    as [[found|e] p1] eqn:E; [|vm_compute in E; discriminate].
  exists found. split; [reflexivity|].
  pose proof (registry_search_ignores_the_type Sample.twoRoots 1000 "HELP"
                (initial Sample.twoRoots) found) as H.
  rewrite E in H. destruct (H eq_refl) as (agents & Ha & _ & Hn & Ht).
  split.
  - apply (Hn _ "helper"); [|reflexivity|reflexivity].
    destruct (getAllAgents Sample.twoRoots 1000 (initial Sample.twoRoots))
      as [[l|e'] p2] eqn:Eg; [|discriminate].
    simpl in Ha. injection Ha as <-.
    vm_compute in Eg. injection Eg as <- _.
    do 5 right. left. reflexivity.
  - apply (Ht _ "coder" "Agent defined in coder.md");
      [reflexivity|reflexivity|reflexivity|reflexivity|constructor].
Defined.

(** X24. A definition that carries the name of a catalogue agent replaces
    it in the queries by type as well: the only agent of that name a query
    by type can return is the definition itself, and when the type of the
    definition is another one, or none, no agent of that name is returned
    for the type. *)
Theorem override_replaces_the_builtin_in_type_queries (w : World) (now : Z)
  (n t : string) (p : Process) (d : AgentDefinition) (listed : list Agent) :
  cacheOk (loader p) ->
  fst (getAgent w now n p) = Ok (Some (Discovered d)) ->
  fst (getAgentsByType w now t p) = Ok listed ->
  (forall a, In a listed -> agentName a = JStr n ->
             a = Discovered d /\ type d = JStr t)
  /\ (type d <> JStr t -> forall a, In a listed -> agentName a <> JStr n).
Proof.
  intros Hok Hf Hl.
  assert (H : forall a, In a listed -> agentName a = JStr n ->
                        a = Discovered d /\ type d = JStr t).
  { unfold getAgentsByType, bind, ret in Hl.
    destruct (getAllAgents w now p) as [[agents|e] p1] eqn:Ea; [|discriminate].
    simpl in Hl. injection Hl as <-.
    assert (Ha : fst (getAllAgents w now p) = Ok agents) by (now rewrite Ea).
    pose proof (listing_named w now (JStr n) p agents Hok Ha) as N.
    pose proof (getAgent_found w now n p _ Hf) as G.
    destruct (JsMap.get (JStr n) (CustomAgentLoader.agentCache (served w now p)))
      as [d'|].
    2:{ destruct (JsMap.get (JStr n) builtInAgents); discriminate. }
    injection G as ->.
    intros a Hin Hn. apply filter_In in Hin as [Hin Ht].
    assert (Hnamed : In a (named (JStr n) agents)).
    { apply filter_In. split; [exact Hin|]. rewrite Hn. apply sameValueZero_string. }
    rewrite N in Hnamed. destruct Hnamed as [<-|[]]. split; [reflexivity|].
    simpl in Ht. unfold CustomAgentLoader.typeIs in Ht.
    destruct (type d') as [| | | |s| |]; try discriminate.
    apply String.eqb_eq in Ht. now subst s. }
  split; [exact H|].
  intros Hne a Hin Hn. destruct (H a Hin Hn) as [_ Ht]. contradiction.
Qed.

Lemma override_replaces_the_builtin_in_type_queries_witness :
  cacheOk (loader (initial Sample.twoRoots))
  /\ fst (getAgent Sample.twoRoots 1000 "coder" (initial Sample.twoRoots))
     = Ok (Some (Discovered Sample.customCoder))
  /\ type Sample.customCoder <> JStr "coder"
  /\ JsMap.has (JStr "coder") builtInAgents = true
  /\ exists listed,
       fst (getAgentsByType Sample.twoRoots 1000 "coder" (initial Sample.twoRoots))
       = Ok listed
       /\ forall a, In a listed -> agentName a <> JStr "coder".
Proof.
  assert (Hok : cacheOk (loader (initial Sample.twoRoots))).
  { split; [exact I|]. intros k d []. }
  assert (Hf : fst (getAgent Sample.twoRoots 1000 "coder" (initial Sample.twoRoots))
               = Ok (Some (Discovered Sample.customCoder)))
    by (vm_compute; reflexivity).
  assert (Ht : type Sample.customCoder <> JStr "coder") by discriminate.
  split; [exact Hok|]. split; [exact Hf|]. split; [exact Ht|].
  split; [reflexivity|].
  destruct (getAgentsByType Sample.twoRoots 1000 "coder" (initial Sample.twoRoots))
    as [[listed|e] p1] eqn:E; [|vm_compute in E; discriminate].
  exists listed. split; [reflexivity|].
  apply (proj2 (override_replaces_the_builtin_in_type_queries Sample.twoRoots 1000
                  "coder" "coder" (initial Sample.twoRoots) Sample.customCoder listed
                  Hok Hf ltac:(now rewrite E)) Ht).
Defined.

(** X25. The statistics report a name as overridden exactly when it is a
    name of the catalogue and the snapshot holds a definition under it. *)
Theorem overridden_names_are_the_shadowed_ones (w : World) (now : Z) (p : Process)
  (stats : Stats) (k : JsValue) :
  cacheOk (loader p) ->
  fst (getStats w now p) = Ok stats ->
  In k (overriddenBuiltIns stats) <->
  JsMap.has k builtInAgents = true
  /\ JsMap.has k (CustomAgentLoader.agentCache (served w now p)) = true.
Proof.
  intros Hok Hs.
  destruct (getStats_inv w now p stats Hs) as (customs & S1 & Eo & _).
  apply sortBy_perm in S1. rewrite Eo, filter_In.
  pose proof (served_cacheOk w now p Hok) as Hok1.
  assert (Hkeys : In k (JsMap.keys builtInAgents) <-> JsMap.has k builtInAgents = true).
  { rewrite has_keys. split.
    - intros Hin. apply existsb_exists. exists k. split; [exact Hin|].
      vm_compute in Hin.
      repeat (destruct Hin as [<-|Hin]; [reflexivity|]). contradiction.
    - intros H. apply existsb_exists in H as (k' & Hin & E).
      apply sameValueZero_eq in E. now subst k'. }
  assert (Hset : setHas (map name customs) k = true
                 <-> JsMap.has k (CustomAgentLoader.agentCache (served w now p)) = true).
  { unfold setHas. split.
    - intros H. apply existsb_exists in H as (k' & Hin & E).
      apply in_map_iff in Hin as (d & <- & Hd).
      apply (Permutation_in _ S1) in Hd. unfold JsMap.values in Hd.
      apply in_map_iff in Hd as ([k2 d2] & <- & Hin2). simpl in E.
      rewrite has_keys. apply existsb_exists. exists k2. split.
      + unfold JsMap.keys. apply in_map_iff. now exists (k2, d2).
      + now rewrite (proj2 Hok1 _ _ Hin2).
    - unfold JsMap.has.
      destruct (JsMap.get k (CustomAgentLoader.agentCache (served w now p)))
        as [d|] eqn:G; [|discriminate].
      intros _. destruct (cache_entry _ k d Hok1 G) as (Hn & Hk & Hin & _).
      apply existsb_exists. exists (name d). split.
      + apply in_map. apply (Permutation_in _ (Permutation_sym S1) Hin).
      + now rewrite Hn. }
  rewrite Hkeys, Hset. reflexivity.
Qed.

Lemma overridden_names_are_the_shadowed_ones_witness :
  cacheOk (loader (initial Sample.twoRoots))
  /\ exists stats,
       fst (getStats Sample.twoRoots 1000 (initial Sample.twoRoots)) = Ok stats
       /\ In (JStr "coder") (overriddenBuiltIns stats)
       /\ ~ In (JStr "tester") (overriddenBuiltIns stats).
Proof.
  assert (Hok : cacheOk (loader (initial Sample.twoRoots))).
  { split; [exact I|]. intros k d []. }
  split; [exact Hok|].
  destruct (getStats Sample.twoRoots 1000 (initial Sample.twoRoots))
    as [[stats|e] p1] eqn:E; [|vm_compute in E; discriminate].
  exists stats. split; [reflexivity|].
  assert (Hs : fst (getStats Sample.twoRoots 1000 (initial Sample.twoRoots)) = Ok stats)
    by (now rewrite E).
  split.
  - apply (overridden_names_are_the_shadowed_ones Sample.twoRoots 1000
             (initial Sample.twoRoots) stats (JStr "coder") Hok Hs).
    split; vm_compute; reflexivity.
  - intros H.
    apply (overridden_names_are_the_shadowed_ones Sample.twoRoots 1000
             (initial Sample.twoRoots) stats (JStr "tester") Hok Hs) in H.
    destruct H as [_ H]. vm_compute in H. discriminate.
Defined.

End AccessorTheorems.

(* ===================================================================== *)
(** ** The one-time initialisation *)
(* ===================================================================== *)

Section Lifetime.
Import Discovery Union UnifiedAgentRegistry Session Report.

Lemma stays_ret {A : Type} (a : A) : staysInitialized (ret a).
Proof. intros p H. exact H. Qed.

Lemma stays_bind {A B : Type} (m : M Process A) (k : A -> M Process B) :
  staysInitialized m -> (forall a, staysInitialized (k a)) ->
  staysInitialized (bind m k).
Proof.
  intros Hm Hk p H. unfold bind. specialize (Hm p H).
  destruct (m p) as [[a|e] p1]; [now apply Hk|exact Hm].
Qed.

Lemma stays_onLoader {A : Type} (m : M CustomAgentLoader.Loader A) :
  staysInitialized (onLoader m).
Proof. intros p H. unfold onLoader. now destruct (m (loader p)). Qed.

Lemma stays_lift {A : Type} (r : Result A) : staysInitialized (lift r).
Proof. intros p H. exact H. Qed.

Lemma stays_setInitialized : staysInitialized setInitialized.
Proof. intros p H. reflexivity. Qed.

Lemma stays_ensureInitialized (w : World) (now : Z) :
  staysInitialized (ensureInitialized w now).
Proof. intros p H. now rewrite ensureInitialized_unfold, H. Qed.

Ltac stays_step :=
  repeat match goal with
         | |- staysInitialized (bind _ _) => apply stays_bind; [|intros ?]
         | |- staysInitialized (onLoader _) => apply stays_onLoader
         | |- staysInitialized (ensureInitialized _ _) => apply stays_ensureInitialized
         | |- staysInitialized setInitialized => apply stays_setInitialized
         | |- staysInitialized (ret _) => apply stays_ret
         | |- staysInitialized (lift _) => apply stays_lift
         | |- staysInitialized (match ?o with Some _ => _ | None => _ end) => destruct o
         end.

(** X26. Nothing resets the one-time initialisation of the registry: after
    any of the calls of [Call], [clearCache] of the loader included, an
    initialised registry is still initialised, so [ensureInitialized] does
    nothing from then on, in any world and at any time. *)
Theorem initialized_is_never_reset (w : World) (now : Z) (c : Call) (p : Process) :
  initialized p = true ->
  initialized (after w now c p) = true
  /\ forall w' now',
       ensureInitialized w' now' (after w now c p) = (Ok tt, after w now c p).
Proof.
  intros H.
  assert (Hi : initialized (after w now c p) = true).
  { destruct c; unfold after;
      try (apply stays_onLoader; exact H);
      match goal with |- initialized (snd (?m p)) = true =>
        assert (Hs : staysInitialized m); [|exact (Hs p H)] end.
    - unfold getAgent. stays_step.
    - unfold hasAgent. stays_step.
    - unfold getAllAgents. stays_step.
    - unfold getAgentCapabilities, getAgent. stays_step.
    - unfold getStats. stays_step.
    - unfold refresh. stays_step. }
  split; [exact Hi|].
  intros w' now'. now rewrite ensureInitialized_unfold, Hi.
Qed.

Lemma initialized_is_never_reset_witness :
  initialized (snd (refresh Sample.twoRoots 1000 (initial Sample.twoRoots))) = true
  /\ initialized
       (after Sample.noRoots 2000 LoaderClearCache
          (snd (refresh Sample.twoRoots 1000 (initial Sample.twoRoots)))) = true.
Proof.
  assert (H : initialized (snd (refresh Sample.twoRoots 1000 (initial Sample.twoRoots)))
              = true) by (vm_compute; reflexivity).
  split; [exact H|].
  exact (proj1 (initialized_is_never_reset Sample.noRoots 2000 LoaderClearCache _ H)).
Defined.

End Lifetime.
